(** * Fundit: a shallow embedding of the chain-indexing, reconciliation and
    donation-relay services, of the indexer's start-up, migration runner and
    wallet endpoint, and of the main-chain contract, with the properties the
    specification states about them and further properties of the code.

    Sources embedded here:
    - [src/services/blockchain.js]   (event indexer, [indexNetwork];
                                      [validateEnvironment], [initialize])
    - [worker.js]                    (block-range scheduler, [processNetworks])
    - [src/services/reconciliation.js]
    - [src/services/directDonationMonitor.js]
    - [src/db/migrations.js]         (migration runner, [runMigrations])
    - [src/services/walletGenerator.js], [src/api/index.js]
                                     ([GET /api/campaigns/:id/direct-wallet])
    - [FunditMain]                   (the Solidity contract of the main chain)

    Conventions.
    - Block numbers, timestamps and serial ids are [Z].
    - A [DECIMAL(24,8)] cell and the string [ethers.formatUnits(x, 8)] are the
      integer number of 1e-8 units they denote; numeric overflow of the column
      is not modelled.
    - JavaScript [Number]s that the code computes with ([parseFloat],
      [Math.abs], [>]) are IEEE-754 binary64 values ([PrimFloat.float]).
    - [BigInt]s are [Z]; [BigInt] division truncates ([Z.quot]).
    - An exception is [Throw]; [try]/[catch] is a [match] on the result.
    - What the chain answers is an input: a record of functions, one per call
      the code makes.  A statement sent to the database succeeds unless it
      violates a constraint of the schema that is modelled where it applies
      (the foreign key of [donations], the [NOT NULL] of
      [transactions.user_address], the [UNIQUE] of
      [campaign_wallets.wallet_address]).
    - [NOW()] has one value per pass.  The promises of one [Promise.all]
      batch are taken in the order of the batch.
    - Logging and the in-memory metrics counters have no effect on the tables
      and are left out.
    - The conventions of the contract are given with its module. *)


From Stdlib Require Import ZArith NArith Lia PrimFloat Uint63.
From Stdlib Require FloatAxioms.
From stdpp Require Import gmap strings list pretty.

Set Warnings "-inexact-float".

Local Open Scope Z_scope.

(** ** JavaScript results and the retry wrapper *)

Module Js.

Definition error := string.

Inductive result (A : Type) : Type :=
| Ok (a : A)
| Throw (e : error).
Arguments Ok {A} a.
Arguments Throw {A} e.

#[global] Instance result_ret : MRet result := fun _ a => Ok a.
#[global] Instance result_bind : MBind result := fun _ _ f m =>
  match m with
  | Ok a => f a
  | Throw e => Throw e
  end.
#[global] Instance result_fmap : FMap result := fun _ _ f m =>
  match m with
  | Ok a => Ok (f a)
  | Throw e => Throw e
  end.

Definition is_ok {A} (r : result A) : bool :=
  match r with Ok _ => true | Throw _ => false end.

(** [withRetry(fn, name, ...args)]: [fn k] is the outcome of the [k]-th
    attempt.  The loop runs attempts [1..MAX_RETRY_COUNT], returns the first
    success and otherwise throws the last error. *)
Definition MAX_RETRY_COUNT : nat := 3.

Fixpoint withRetry_loop {A} (fn : nat -> result A) (attempt remaining : nat)
  (lastError : error) : result A :=
  match remaining with
  | O => Throw lastError
  | S k =>
      match fn attempt with
      | Ok r => Ok r
      | Throw e => withRetry_loop fn (S attempt) k e
      end
  end.

Definition withRetry {A} (fn : nat -> result A) : result A :=
  withRetry_loop fn 1%nat MAX_RETRY_COUNT "undefined".

(** [for (let i = 0; i < xs.length; i += n) out.push(xs.slice(i, i + n))] *)
Fixpoint batches_loop {A} (fuel n : nat) (xs : list A) : list (list A) :=
  match fuel with
  | O => []
  | S f =>
      match xs with
      | [] => []
      | _ => take n xs :: batches_loop f n (drop n xs)
      end
  end.

Definition batches {A} (n : nat) (xs : list A) : list (list A) :=
  batches_loop (length xs) n xs.

(** A JavaScript [Set] of ids: insertion ordered, no duplicates. *)
Definition set_add (s : list Z) (x : Z) : list Z :=
  if decide (x ∈ s) then s else s ++ [x].

End Js.
Export Js.

(** ** The relational mirror *)

Module Db.

(** [campaigns], keyed by [id]. *)
Record campaign_row := mk_campaign {
  c_name : string;
  c_description : string;
  c_target_amount : Z;
  c_social_link : string;
  c_image_id : Z;
  c_creator : string;
  c_ended : bool;
  c_amount_raised : Z;
  c_created_at : Z;
  c_updated_at : Z;
  c_chain : string;
  c_tx_hash : string;
  c_last_reconciled : option Z
}.

(** [donations] (the serial id is the position in the list). *)
Record donation_row := mk_donation {
  d_campaign_id : Z;
  d_donor : string;
  d_amount : Z;
  d_timestamp : Z;
  d_chain : string;
  d_tx_hash : string
}.

(** [transactions]: the append-only audit table. *)
Record transaction_row := mk_transaction {
  t_type : string;
  t_user_address : string;
  t_campaign_id : option Z;
  t_amount : option Z;
  t_token : option string;
  t_target_chain : option Z;
  t_timestamp : Z;
  t_chain : string;
  t_tx_hash : string
}.

Inductive withdrawal_status := Requested | Processed.

(** [withdrawals], keyed by request id. *)
Record withdrawal_row := mk_withdrawal {
  w_user_address : string;
  w_amount : Z;
  w_token : string;
  w_target_chain : Z;
  w_status : withdrawal_status;
  w_request_timestamp : Z;
  w_processed_timestamp : option Z;
  w_chain : string;
  w_tx_hash : string;
  w_processed_tx_hash : option string
}.

(** [indexer_state], keyed by chain. *)
Record cursor_row := mk_cursor {
  last_indexed_block : Z;
  is_updated_at : Z
}.

Record db := mk_db {
  campaigns : gmap Z campaign_row;
  donations : list donation_row;
  transactions : list transaction_row;
  withdrawals : gmap Z withdrawal_row;
  indexer_state : gmap string cursor_row
}.

Definition set_campaigns (f : gmap Z campaign_row -> gmap Z campaign_row) (d : db) : db :=
  mk_db (f (campaigns d)) (donations d) (transactions d) (withdrawals d) (indexer_state d).
Definition set_donations (f : list donation_row -> list donation_row) (d : db) : db :=
  mk_db (campaigns d) (f (donations d)) (transactions d) (withdrawals d) (indexer_state d).
Definition set_transactions (f : list transaction_row -> list transaction_row) (d : db) : db :=
  mk_db (campaigns d) (donations d) (f (transactions d)) (withdrawals d) (indexer_state d).
Definition set_withdrawals (f : gmap Z withdrawal_row -> gmap Z withdrawal_row) (d : db) : db :=
  mk_db (campaigns d) (donations d) (transactions d) (f (withdrawals d)) (indexer_state d).
Definition set_indexer_state (f : gmap string cursor_row -> gmap string cursor_row) (d : db) : db :=
  mk_db (campaigns d) (donations d) (transactions d) (withdrawals d) (f (indexer_state d)).

Definition empty_db : db := mk_db ∅ [] [] ∅ ∅.

(** The persisted cursor of a chain. *)
Definition cursor (d : db) (chain : string) : option Z :=
  last_indexed_block <$> indexer_state d !! chain.

End Db.
Export Db.

(** ** The chain as the indexer sees it *)

Module Chain.

(** Event logs, with the fields of [event.args] that the indexer reads and
    [event.transactionHash]. *)
Record CampaignCreated := mk_created {
  cc_campaignId : Z;
  cc_creator : string;
  cc_transactionHash : string
}.

Record CampaignEdited := mk_edited {
  ce_campaignId : Z;
  ce_transactionHash : string
}.

Record CampaignEnded := mk_ended {
  cn_campaignId : Z;
  cn_finalStableValue : Z;
  cn_transactionHash : string
}.

Record DonationMade := mk_donationMade {
  dm_campaignId : Z;
  dm_donor : string;
  dm_netUSDValue : Z;
  dm_transactionHash : string
}.

Record WithdrawalRequested := mk_withdrawalRequested {
  wr_requestId : Z;
  wr_requester : string;
  wr_amount : Z;
  wr_token : string;
  wr_targetChainId : Z;
  wr_transactionHash : string
}.

Record WithdrawalProcessed := mk_withdrawalProcessed {
  wp_requestId : Z;
  wp_transactionHash : string
}.

(** The struct returned by the contract's [campaigns(id)] read method. *)
Record campaign_struct := mk_struct {
  cs_name : string;
  cs_target : Z;
  cs_description : string;
  cs_socialLink : string;
  cs_imageId : Z;
  cs_creator : string;
  cs_ended : bool;
  cs_totalStable : Z
}.

(** A bound contract handle.  Each call takes the attempt number under which
    [withRetry] issues it and may throw. *)
Record contract := mk_contract {
  queryCampaignCreated : Z -> Z -> nat -> result (list CampaignCreated);
  queryCampaignEdited : Z -> Z -> nat -> result (list CampaignEdited);
  queryCampaignEnded : Z -> Z -> nat -> result (list CampaignEnded);
  queryDonationMade : Z -> Z -> nat -> result (list DonationMade);
  queryWithdrawalRequested : Z -> Z -> nat -> result (list WithdrawalRequested);
  queryWithdrawalProcessed : Z -> Z -> nat -> result (list WithdrawalProcessed);
  campaigns_read : Z -> nat -> result campaign_struct
}.

End Chain.
Export Chain.

(** ** The event indexer ([src/services/blockchain.js]) *)

Module Indexer.

Definition MAX_BLOCK_RANGE : Z := 10000.
Definition BATCH_SIZE : nat := 20.

(** *** Campaign lifecycle events *)

(** [INSERT INTO campaigns ... ON CONFLICT (id) DO NOTHING], one row. *)
Definition insert_campaign (m : gmap Z campaign_row) (kv : Z * campaign_row)
  : gmap Z campaign_row :=
  match m !! kv.1 with
  | Some _ => m
  | None => <[kv.1 := kv.2]> m
  end.

(** One batch of the pre-fetch: [Promise.all] over [withRetry(contract.campaigns, id)]. *)
Definition fetch_batch (c : contract) (batch : list Z) : result (list campaign_struct) :=
  mapM (fun id => withRetry (campaigns_read c id)) batch.

Definition store_batch (m : gmap Z campaign_struct) (batch : list Z)
  (results : list campaign_struct) : gmap Z campaign_struct :=
  foldl (fun acc kv => <[kv.1 := kv.2]> acc) m (zip batch results).

Fixpoint prefetch_batches (c : contract) (bs : list (list Z))
  (campaignDataMap : gmap Z campaign_struct) : result (gmap Z campaign_struct) :=
  match bs with
  | [] => Ok campaignDataMap
  | batch :: rest =>
      campaignResults ← fetch_batch c batch;
      prefetch_batches c rest (store_batch campaignDataMap batch campaignResults)
  end.

Definition created_value (campaignDataMap : gmap Z campaign_struct)
  (network : string) (now : Z) (event : CampaignCreated) : option (Z * campaign_row) :=
  campaign ← campaignDataMap !! cc_campaignId event;
  Some (cc_campaignId event,
        mk_campaign (cs_name campaign) (cs_description campaign) (cs_target campaign)
          (cs_socialLink campaign) (cs_imageId campaign) (cs_creator campaign)
          (cs_ended campaign) (cs_totalStable campaign)
          now now network (cc_transactionHash event) None).

Definition created_tx_value (campaignDataMap : gmap Z campaign_struct)
  (network : string) (now : Z) (event : CampaignCreated) : option transaction_row :=
  _ ← campaignDataMap !! cc_campaignId event;
  Some (mk_transaction "Campaign Created" (cc_creator event)
          (Some (cc_campaignId event)) None None None now network
          (cc_transactionHash event)).

(** [UPDATE campaigns SET name, description, target_amount, social_link,
    image_id, updated_at = NOW() WHERE id = $6] *)
Definition edit_row (campaign : campaign_struct) (now : Z) (r : campaign_row) : campaign_row :=
  mk_campaign (cs_name campaign) (cs_description campaign) (cs_target campaign)
    (cs_socialLink campaign) (cs_imageId campaign)
    (c_creator r) (c_ended r) (c_amount_raised r) (c_created_at r) now
    (c_chain r) (c_tx_hash r) (c_last_reconciled r).

Definition edited_step (campaignDataMap : gmap Z campaign_struct)
  (network : string) (now : Z) (d : db) (event : CampaignEdited) : db :=
  match campaignDataMap !! ce_campaignId event with
  | None => d
  | Some campaign =>
      set_transactions
        (fun ts => ts ++ [mk_transaction "Campaign Edited" (cs_creator campaign)
                            (Some (ce_campaignId event)) None None None now network
                            (ce_transactionHash event)])
        (set_campaigns (alter (edit_row campaign now) (ce_campaignId event)) d)
  end.

(** [UPDATE campaigns SET ended = TRUE, amount_raised = $1, updated_at = NOW()
    WHERE id = $2] *)
Definition end_row (finalAmount now : Z) (r : campaign_row) : campaign_row :=
  mk_campaign (c_name r) (c_description r) (c_target_amount r) (c_social_link r)
    (c_image_id r) (c_creator r) true finalAmount (c_created_at r) now
    (c_chain r) (c_tx_hash r) (c_last_reconciled r).

Definition ended_step (now : Z) (m : gmap Z campaign_row) (event : CampaignEnded)
  : gmap Z campaign_row :=
  alter (end_row (cn_finalStableValue event) now) (cn_campaignId event) m.

(** One row of the campaign-ended audit insert.  [user_address] is the
    subquery [(SELECT creator FROM campaigns WHERE id = $2)], which is [NULL]
    for an unknown campaign and then violates the column's [NOT NULL]. *)
Definition ended_tx_value (m : gmap Z campaign_row) (network : string) (now : Z)
  (event : CampaignEnded) : result transaction_row :=
  match m !! cn_campaignId event with
  | None => Throw "null value in column user_address violates not-null constraint"
  | Some r =>
      Ok (mk_transaction "Campaign Ended" (c_creator r) (Some (cn_campaignId event))
            (Some (cn_finalStableValue event)) None None now network
            (cn_transactionHash event))
  end.

(** The statements between [BEGIN] and [COMMIT] of [indexCampaignEvents]. *)
Definition indexCampaignEvents_body (c : contract) (network : string)
  (fromBlock toBlock now : Z) (d : db) : result db :=
  createdEvents ← withRetry (queryCampaignCreated c fromBlock toBlock);
  editedEvents ← withRetry (queryCampaignEdited c fromBlock toBlock);
  endedEvents ← withRetry (queryCampaignEnded c fromBlock toBlock);
  let allCampaignIds :=
    foldl set_add (foldl set_add [] (cc_campaignId <$> createdEvents))
      (ce_campaignId <$> editedEvents) in
  campaignDataMap ← prefetch_batches c (batches BATCH_SIZE allCampaignIds) ∅;
  let createdValues := omap (created_value campaignDataMap network now) createdEvents in
  let createdTxValues := omap (created_tx_value campaignDataMap network now) createdEvents in
  let d1 :=
    set_transactions (fun ts => ts ++ createdTxValues)
      (set_campaigns (fun m => foldl insert_campaign m createdValues) d) in
  let d2 := foldl (edited_step campaignDataMap network now) d1 editedEvents in
  let d3 := set_campaigns (fun m => foldl (ended_step now) m endedEvents) d2 in
  endedTxValues ← mapM (ended_tx_value (campaigns d3) network now) endedEvents;
  Ok (set_transactions (fun ts => ts ++ endedTxValues) d3).

(** *** Donation events *)

Definition donation_value (network : string) (now : Z) (event : DonationMade) : donation_row :=
  mk_donation (dm_campaignId event) (dm_donor event) (dm_netUSDValue event) now network
    (dm_transactionHash event).

Definition donation_tx_value (network : string) (now : Z) (event : DonationMade)
  : transaction_row :=
  mk_transaction "Donation" (dm_donor event) (Some (dm_campaignId event))
    (Some (dm_netUSDValue event)) None None now network (dm_transactionHash event).

(** [INSERT INTO donations ...]: [campaign_id REFERENCES campaigns(id)]. *)
Definition insert_donations (rows : list donation_row) (d : db) : result db :=
  if forallb (fun r => bool_decide (is_Some (campaigns d !! d_campaign_id r))) rows
  then Ok (set_donations (fun ds => ds ++ rows) d)
  else Throw "insert on table donations violates foreign key constraint".

(** [UPDATE campaigns SET amount_raised = amount_raised + $1, updated_at = NOW()
    WHERE id = $2] *)
Definition add_raised (amount now : Z) (r : campaign_row) : campaign_row :=
  mk_campaign (c_name r) (c_description r) (c_target_amount r) (c_social_link r)
    (c_image_id r) (c_creator r) (c_ended r) (c_amount_raised r + amount)
    (c_created_at r) now (c_chain r) (c_tx_hash r) (c_last_reconciled r).

Definition donation_step (now : Z) (m : gmap Z campaign_row) (event : DonationMade)
  : gmap Z campaign_row :=
  alter (add_raised (dm_netUSDValue event) now) (dm_campaignId event) m.

(** The statements between [BEGIN] and [COMMIT] of [indexDonationEvents]. *)
Definition indexDonationEvents_body (c : contract) (network : string)
  (fromBlock toBlock now : Z) (d : db) : result db :=
  donationEvents ← withRetry (queryDonationMade c fromBlock toBlock);
  d1 ← insert_donations (donation_value network now <$> donationEvents) d;
  let d2 := set_campaigns (fun m => foldl (donation_step now) m donationEvents) d1 in
  Ok (set_transactions (fun ts => ts ++ (donation_tx_value network now <$> donationEvents)) d2).

(** *** Withdrawal events *)

Definition insert_withdrawal (m : gmap Z withdrawal_row) (kv : Z * withdrawal_row)
  : gmap Z withdrawal_row :=
  match m !! kv.1 with
  | Some _ => m
  | None => <[kv.1 := kv.2]> m
  end.

Definition request_value (network : string) (now : Z) (event : WithdrawalRequested)
  : Z * withdrawal_row :=
  (wr_requestId event,
   mk_withdrawal (wr_requester event) (wr_amount event) (wr_token event)
     (wr_targetChainId event) Requested now None network (wr_transactionHash event) None).

Definition request_tx_value (network : string) (now : Z) (event : WithdrawalRequested)
  : transaction_row :=
  mk_transaction "Withdrawal Requested" (wr_requester event) None (Some (wr_amount event))
    (Some (wr_token event)) (Some (wr_targetChainId event)) now network
    (wr_transactionHash event).

(** [UPDATE withdrawals SET status = 'Processed', processed_timestamp = NOW(),
    processed_tx_hash = $2 WHERE id = $3] *)
Definition process_row (txHash : string) (now : Z) (r : withdrawal_row) : withdrawal_row :=
  mk_withdrawal (w_user_address r) (w_amount r) (w_token r) (w_target_chain r)
    Processed (w_request_timestamp r) (Some now) (w_chain r) (w_tx_hash r) (Some txHash).

Definition processed_step (network : string) (now : Z) (d : db) (event : WithdrawalProcessed)
  : db :=
  match withdrawals d !! wp_requestId event with
  | None => d
  | Some withdrawalData =>
      set_transactions
        (fun ts => ts ++ [mk_transaction "Withdrawal Processed"
                            (w_user_address withdrawalData) None
                            (Some (w_amount withdrawalData))
                            (Some (w_token withdrawalData))
                            (Some (w_target_chain withdrawalData)) now network
                            (wp_transactionHash event)])
        (set_withdrawals
           (alter (process_row (wp_transactionHash event) now) (wp_requestId event)) d)
  end.

(** The statements between [BEGIN] and [COMMIT] of [indexWithdrawalEvents]. *)
Definition indexWithdrawalEvents_body (c : contract) (network : string)
  (fromBlock toBlock now : Z) (d : db) : result db :=
  requestEvents ← withRetry (queryWithdrawalRequested c fromBlock toBlock);
  processedEvents ← withRetry (queryWithdrawalProcessed c fromBlock toBlock);
  let d1 :=
    set_withdrawals
      (fun m => foldl insert_withdrawal m (request_value network now <$> requestEvents)) d in
  let d2 :=
    set_transactions (fun ts => ts ++ (request_tx_value network now <$> requestEvents)) d1 in
  Ok (foldl (processed_step network now) d2 processedEvents).

(** *** The indexer's world: the tables and a journal of what was done

    The journal is ghost state: it records each invocation of
    [indexNetworkChunk] and each write of the cursor, in order. *)

Inductive action :=
| ChunkIndexed (network : string) (fromBlock toBlock : Z)
| CursorWrite (network : string) (block : Z).

Record world := mk_world {
  w_db : db;
  w_journal : list action
}.

Definition set_db (f : db -> db) (w : world) : world :=
  mk_world (f (w_db w)) (w_journal w).
Definition journal (a : action) (w : world) : world :=
  mk_world (w_db w) (w_journal w ++ [a]).

(** Effectful code: a result together with the world it leaves behind (a
    thrown exception does not undo what was committed before it). *)
Definition M (A : Type) : Type := world -> result A * world.

Definition retM {A} (a : A) : M A := fun w => (Ok a, w).
Definition bindM {A B} (m : M A) (f : A -> M B) : M B := fun w =>
  match m w with
  | (Ok a, w') => f a w'
  | (Throw e, w') => (Throw e, w')
  end.

Notation "x ←M m ; k" := (bindM m (fun x => k))
  (at level 100, m at next level, k at level 200, right associativity,
   format "x  ←M  m ;  '/' k").

(** [BEGIN; body; COMMIT], with [ROLLBACK] and re-throw on any failure. *)
Definition transaction (body : db -> result db) : M unit := fun w =>
  match body (w_db w) with
  | Ok d' => (Ok tt, set_db (fun _ => d') w)
  | Throw e => (Throw e, w)
  end.

(** The chain-side configuration of one network: [NETWORKS[network].isMain]
    and [contracts[network]]. *)
Record network_config := mk_network {
  isMain : bool;
  contract_of : contract
}.

Definition indexCampaignEvents (cfg : network_config) (network : string)
  (fromBlock toBlock now : Z) : M unit :=
  if negb (isMain cfg) then retM tt
  else transaction (indexCampaignEvents_body (contract_of cfg) network fromBlock toBlock now).

Definition indexDonationEvents (cfg : network_config) (network : string)
  (fromBlock toBlock now : Z) : M unit :=
  if negb (isMain cfg) then retM tt
  else transaction (indexDonationEvents_body (contract_of cfg) network fromBlock toBlock now).

Definition indexWithdrawalEvents (cfg : network_config) (network : string)
  (fromBlock toBlock now : Z) : M unit :=
  if negb (isMain cfg) then retM tt
  else transaction (indexWithdrawalEvents_body (contract_of cfg) network fromBlock toBlock now).

(** [indexNetworkChunk]: the three categories in sequence, each in its own
    transaction; returns [toBlock]. *)
Definition indexNetworkChunk (cfg : network_config) (network : string) (now : Z)
  (fromBlock toBlock : Z) : M Z :=
  _ ←M (fun w => (Ok tt, journal (ChunkIndexed network fromBlock toBlock) w));
  _ ←M (if isMain cfg then indexCampaignEvents cfg network fromBlock toBlock now else retM tt);
  _ ←M (if isMain cfg then indexDonationEvents cfg network fromBlock toBlock now else retM tt);
  _ ←M (if isMain cfg then indexWithdrawalEvents cfg network fromBlock toBlock now else retM tt);
  retM toBlock.

(** [for (let i = fromBlock; i < toBlock; i += MAX_BLOCK_RANGE)
      chunks.push([i, Math.min(i + MAX_BLOCK_RANGE - 1, toBlock)])] *)
Fixpoint chunks_loop (fuel : nat) (i toBlock : Z) : list (Z * Z) :=
  match fuel with
  | O => []
  | S f =>
      if i <? toBlock
      then (i, Z.min (i + MAX_BLOCK_RANGE - 1) toBlock)
             :: chunks_loop f (i + MAX_BLOCK_RANGE) toBlock
      else []
  end.

Definition chunks (fromBlock toBlock : Z) : list (Z * Z) :=
  chunks_loop (Z.to_nat (toBlock - fromBlock)) fromBlock toBlock.

(** [INSERT INTO indexer_state ... ON CONFLICT (chain) DO UPDATE SET
    last_indexed_block = $2, updated_at = NOW()] *)
Definition upsert_cursor (network : string) (block now : Z) : M unit := fun w =>
  (Ok tt,
   journal (CursorWrite network block)
     (set_db (set_indexer_state <[network := mk_cursor block now]>) w)).

(** [for (const [chunkFrom, chunkTo] of chunks)
      lastProcessedBlock = await indexNetworkChunk(network, chunkFrom, chunkTo)] *)
Fixpoint run_chunks (cfg : network_config) (network : string) (now : Z)
  (cs : list (Z * Z)) (lastProcessedBlock : Z) : M Z :=
  match cs with
  | [] => retM lastProcessedBlock
  | (chunkFrom, chunkTo) :: rest =>
      b ←M indexNetworkChunk cfg network now chunkFrom chunkTo;
      run_chunks cfg network now rest b
  end.

Definition indexNetwork (cfg : network_config) (network : string) (now : Z)
  (fromBlock toBlock : Z) : M Z :=
  if toBlock - fromBlock >? MAX_BLOCK_RANGE then
    lastProcessedBlock ←M run_chunks cfg network now (chunks fromBlock toBlock) fromBlock;
    _ ←M upsert_cursor network lastProcessedBlock now;
    retM lastProcessedBlock
  else
    processedBlock ←M indexNetworkChunk cfg network now fromBlock toBlock;
    _ ←M upsert_cursor network processedBlock now;
    retM processedBlock.

End Indexer.
Export Indexer.

(** ** The block-range scheduler ([worker.js]) *)

Module Scheduler.

Definition CATCHUP_BATCH_SIZE : Z := 5000.
Definition REALTIME_BATCH_SIZE : Z := 100.
Definition RECENT_HISTORY_BLOCKS : Z := 100000.
Definition MAX_ACCEPTABLE_GAP : Z := 500000.
Definition REALTIME_THRESHOLD : Z := 200.

(** [providers[network]], when it was initialised: [getBlockNumber()]. *)
Record provider := mk_provider {
  getBlockNumber : result Z
}.

(** One entry of [NETWORKS] together with its provider as of this run. *)
Record network_entry := mk_entry {
  ne_name : string;
  ne_config : network_config;
  ne_provider : option provider
}.

(** The locals of one iteration of the loop over networks, kept so that
    properties can speak about them. *)
Record report := mk_report {
  r_currentBlock : option Z;
  r_jumpedAhead : bool;
  r_realtimeMode : bool;
  r_batchSize : option Z;
  r_range : option (Z * Z);
  r_indexed : option Z
}.

Definition skipped : report := mk_report None false false None None None.

(** [UPDATE indexer_state SET last_indexed_block = $1, updated_at = NOW()
    WHERE chain = $2] *)
Definition update_cursor (network : string) (block now : Z) (w : world) : world :=
  journal (CursorWrite network block)
    (set_db (set_indexer_state (alter (fun _ => mk_cursor block now) network)) w).

(** The body of [for (const [network, config] of Object.entries(NETWORKS))],
    with [lastIndexedBlocks] as read at the start of the run. *)
Definition processNetwork (lastIndexedBlocks : gmap string Z) (e : network_entry)
  (now : Z) (w : world) : report * world :=
  match ne_provider e with
  | None => (skipped, w)
  | Some p =>
      if negb (isMain (ne_config e)) then (skipped, w)
      else
        match getBlockNumber p with
        | Throw _ => (skipped, w)
        | Ok currentBlock =>
            let '(fromBlock, jumpedAhead, realtimeMode, w1) :=
              match lastIndexedBlocks !! ne_name e with
              | Some last =>
                  let gap := currentBlock - last in
                  let realtimeMode := gap <=? REALTIME_THRESHOLD in
                  if gap >? MAX_ACCEPTABLE_GAP then
                    let fromBlock := Z.max 1 (currentBlock - RECENT_HISTORY_BLOCKS) in
                    (fromBlock, true, realtimeMode,
                     update_cursor (ne_name e) (fromBlock - 1) now w)
                  else (last + 1, false, realtimeMode, w)
              | None =>
                  (Z.max 1 (currentBlock - RECENT_HISTORY_BLOCKS), false, false, w)
              end in
            if fromBlock >? currentBlock then
              (mk_report (Some currentBlock) jumpedAhead realtimeMode None None None, w1)
            else
              let batchSize :=
                if realtimeMode then REALTIME_BATCH_SIZE else CATCHUP_BATCH_SIZE in
              let blocksToProcess := Z.min (currentBlock - fromBlock + 1) batchSize in
              let toBlock := fromBlock + blocksToProcess - 1 in
              let '(res, w2) :=
                indexNetwork (ne_config e) (ne_name e) now fromBlock toBlock w1 in
              (mk_report (Some currentBlock) jumpedAhead realtimeMode (Some batchSize)
                 (Some (fromBlock, toBlock))
                 (match res with Ok b => Some b | Throw _ => None end),
               w2)
        end
  end.

(** [SELECT chain, last_indexed_block FROM indexer_state] into
    [lastIndexedBlocks]. *)
Definition read_lastIndexedBlocks (w : world) : gmap string Z :=
  last_indexed_block <$> indexer_state (w_db w).

(** [processNetworks]: one scheduler run over all configured networks. *)
Definition processNetworks (NETWORKS : list network_entry) (now : Z) (w : world) : world :=
  let lastIndexedBlocks := read_lastIndexedBlocks w in
  foldl (fun w' e => (processNetwork lastIndexedBlocks e now w').2) w NETWORKS.

(** One scheduler run as far as a single chain is concerned. *)
Definition run (e : network_entry) (now : Z) (w : world) : report * world :=
  processNetwork (read_lastIndexedBlocks w) e now w.

(** Sequential scheduler runs on one chain: per run, what the provider and
    the contract answer and the time. *)
Record run_input := mk_input {
  ri_head : result Z;
  ri_contract : contract;
  ri_now : Z
}.

Definition entry_of (network : string) (i : run_input) : network_entry :=
  mk_entry network (mk_network true (ri_contract i)) (Some (mk_provider (ri_head i))).

Fixpoint runs (network : string) (inputs : list run_input) (w : world) : world :=
  match inputs with
  | [] => w
  | i :: rest => runs network rest (run (entry_of network i) (ri_now i) w).2
  end.

End Scheduler.
Export Scheduler.

(** ** JavaScript numbers parsed from decimal strings *)

Module Float64.

(** The binary64 value of an integer below 2^53 (exact). *)
Definition of_Z53 (m : Z) : float := PrimFloat.of_uint63 (Uint63.of_Z m).

(** The binary64 value nearest to the rational [a / b] for [a, b > 0], ties to
    even: scale the quotient into [2^52, 2^53), round the integer part on the
    remainder, and scale back (exact, in the normal range). *)
Definition nearest_pos (a b : Z) : float :=
  let k := Z.log2 a - Z.log2 b in
  let scaled (s : Z) := if 0 <=? s then (a * 2 ^ s, b) else (a, b * 2 ^ (- s)) in
  let s0 := 52 - k in
  let s := if (scaled s0).1 / (scaled s0).2 <? 2 ^ 52 then s0 + 1 else s0 in
  let n := (scaled s).1 in
  let d := (scaled s).2 in
  let q := n / d in
  let r := n mod d in
  let m := if (d <? 2 * r) || ((d =? 2 * r) && Z.odd q) then q + 1 else q in
  PrimFloat.ldshiftexp (of_Z53 m) (Uint63.of_Z (2101 - s)).

Definition nearest (a b : Z) : float :=
  if a =? 0 then 0%float
  else if a <? 0 then PrimFloat.opp (nearest_pos (- a) b)
  else nearest_pos a b.

(** [parseFloat(s)] / [Number(s)] where [s] is the decimal string of
    [n / 10^decimals], as printed by [ethers.formatUnits(n, decimals)] or read
    from a [DECIMAL] column. *)
Definition parseFloat (n : Z) (decimals : Z) : float := nearest n (10 ^ decimals).

End Float64.

(** ** The reconciliation engine ([src/services/reconciliation.js]) *)

Module Reconciliation.

Definition STABLE_TOKEN_DECIMALS : Z := 8.
Definition RECONCILIATION_THRESHOLD : float := 0.01%float.
Definition BATCH_SIZE : nat := 50.

(** [reconciliation_log] (the serial id is the position in the list). *)
Record log_row := mk_log {
  l_campaign_id : Z;
  l_previous_value : Z;
  l_new_value : Z;
  l_discrepancy : Z;
  l_reconciled_at : Z
}.

Record state := mk_state {
  s_campaigns : gmap Z campaign_row;
  s_reconciliation_log : list log_row
}.

Record tally := mk_tally {
  updatedCount : nat;
  errorCount : nat;
  matchCount : nat
}.

Record summary := mk_summary {
  total : nat;
  updated : nat;
  matched : nat;
  errors : nat
}.

Definition chainAmountRaised (chainCampaign : campaign_struct) : float :=
  Float64.parseFloat (cs_totalStable chainCampaign) STABLE_TOKEN_DECIMALS.

Definition dbAmountRaised (dbCampaign : campaign_row) : float :=
  Float64.parseFloat (c_amount_raised dbCampaign) STABLE_TOKEN_DECIMALS.

(** [Math.abs(chainAmountRaised - dbAmountRaised)] *)
Definition discrepancy (chainCampaign : campaign_struct) (dbCampaign : campaign_row) : float :=
  PrimFloat.abs (chainAmountRaised chainCampaign - dbAmountRaised dbCampaign)%float.

(** [discrepancy > RECONCILIATION_THRESHOLD] *)
Definition needs_reconciliation (chainCampaign : campaign_struct)
  (dbCampaign : campaign_row) : bool :=
  PrimFloat.ltb RECONCILIATION_THRESHOLD (discrepancy chainCampaign dbCampaign).

Section WithDatabase.

(** The [DECIMAL(24,8)] value PostgreSQL stores for a JavaScript number bound
    as a statement parameter.  The conversion is the driver's and the
    database's, not the repository's. *)
Variable numeric_of_number : float -> Z.

(** [UPDATE campaigns SET amount_raised = $1, ended = $2, updated_at = NOW(),
    last_reconciled = NOW() WHERE id = $3] *)
Definition reconcile_row (amount : float) (ended : bool) (now : Z) (r : campaign_row)
  : campaign_row :=
  mk_campaign (c_name r) (c_description r) (c_target_amount r) (c_social_link r)
    (c_image_id r) (c_creator r) ended (numeric_of_number amount) (c_created_at r) now
    (c_chain r) (c_tx_hash r) (Some now).

(** [INSERT INTO reconciliation_log (campaign_id, previous_value, new_value,
    discrepancy, reconciled_at) VALUES ($1, $2, $3, $4, NOW())] *)
Definition reconciliation_entry (campaignId : Z) (chainCampaign : campaign_struct)
  (dbCampaign : campaign_row) (now : Z) : log_row :=
  mk_log campaignId
    (numeric_of_number (dbAmountRaised dbCampaign))
    (numeric_of_number (chainAmountRaised chainCampaign))
    (numeric_of_number (discrepancy chainCampaign dbCampaign))
    now.

(** The callback of [batch.map(async (dbCampaign) => ...)], for one row of
    [SELECT id, name, amount_raised, ended FROM campaigns]. *)
Definition reconcile_one (c : contract) (now : Z) (acc : state * tally)
  (dbCampaign : Z * campaign_row) : state * tally :=
  let '(st, t) := acc in
  let campaignId := dbCampaign.1 in
  match campaigns_read c campaignId 1%nat with
  | Throw _ => (st, mk_tally (updatedCount t) (S (errorCount t)) (matchCount t))
  | Ok chainCampaign =>
      if needs_reconciliation chainCampaign dbCampaign.2 then
        (mk_state
           (alter (reconcile_row (chainAmountRaised chainCampaign)
                     (cs_ended chainCampaign) now) campaignId (s_campaigns st))
           (s_reconciliation_log st
              ++ [reconciliation_entry campaignId chainCampaign dbCampaign.2 now]),
         mk_tally (S (updatedCount t)) (errorCount t) (matchCount t))
      else
        (st, mk_tally (updatedCount t) (errorCount t) (S (matchCount t)))
  end.

(** The loop over [campaignBatches]; the rows of a batch are taken in order. *)
Definition reconcile_batches (c : contract) (now : Z) (campaignBatches : list (list (Z * campaign_row)))
  (acc : state * tally) : state * tally :=
  foldl (fun acc' batch => foldl (reconcile_one c now) acc' batch) acc campaignBatches.

(** [reconcileCampaigns]: [mainContract] is [contracts[mainNetwork]], absent
    when the main network is not available. *)
Definition reconcileCampaigns (mainContract : option contract) (now : Z) (st : state)
  : result (summary * state) :=
  match mainContract with
  | None => Throw "Main network provider or contract not available"
  | Some c =>
      let rows := map_to_list (s_campaigns st) in
      let campaignBatches := batches BATCH_SIZE rows in
      let '(st', t) := reconcile_batches c now campaignBatches (st, mk_tally 0 0 0) in
      Ok (mk_summary (length rows) (updatedCount t) (matchCount t) (errorCount t), st')
  end.

End WithDatabase.

End Reconciliation.

(** ** The autonomous donation relay ([src/services/directDonationMonitor.js]) *)

Module Relay.

(** [CONFIG] *)
Definition MIN_DONATION_AMOUNT : float := 1%float.
Definition MAX_PENDING_CHECKS : Z := 15.
Definition GAS_PRICE_BOOST : Z := 120.

(** [ethers.parseEther("0.1")] and [ethers.parseEther("0.05")], in wei. *)
Definition hard_floor : Z := 10 ^ 17.
Definition minReserve : Z := 5 * 10 ^ 16.

(** The values the code writes to [direct_donations.status]. *)
Inductive status := pending | completed | failed.

#[global] Instance status_eq_dec : EqDecision status.
Proof. solve_decision. Defined.

(** [direct_donations].  [dd_amount] is the JavaScript number bound to the
    insert. *)
Record direct_donation := mk_dd {
  dd_id : Z;
  dd_campaign_id : Z;
  dd_wallet_address : string;
  dd_amount : float;
  dd_status : status;
  dd_source_tx_hash : string;
  dd_contract_tx_hash : option string;
  dd_check_count : option Z;
  dd_tx_nonce : option Z;
  dd_created_at : Z;
  dd_processed_at : option Z
}.

(** [campaign_wallets] *)
Record wallet := mk_wallet {
  campaign_id : Z;
  wallet_address : string;
  private_key : string
}.

(** Transactions handed to the node by the relay. *)
Inductive submitted :=
| SelfTransfer (from_key to_address : string) (value nonce maxFeePerGas maxPriorityFeePerGas gasLimit : Z)
| Donate (from_key : string) (campaignId value maxFeePerGas maxPriorityFeePerGas gasLimit nonce : Z).

(** The relay's world: the table with its serial counter, and the
    transactions submitted so far. *)
Record world := mk_world {
  rows : list direct_donation;
  next_id : Z;
  outbox : list submitted
}.

Record feeData := mk_fee {
  maxFeePerGas : option Z;
  maxPriorityFeePerGas : option Z;
  gasPrice : option Z
}.

(** What the node answers during one poll. *)
Record env := mk_env {
  getTransactionReceipt : string -> result (option Z);
  getTransaction : string -> result (option (option Z));
  getFeeData : result feeData;
  getBalance_check : string -> result Z;
  getBalance_send : string -> result Z;
  estimateGas : wallet -> Z -> result Z;
  getNonce : wallet -> result Z;
  send : submitted -> result string;
  now : Z
}.

(** [UPDATE direct_donations SET ... WHERE id = $n] *)
Definition update_row (id : Z) (f : direct_donation -> direct_donation) (w : world) : world :=
  mk_world ((fun d => if decide (dd_id d = id) then f d else d) <$> rows w)
    (next_id w) (outbox w).

Definition set_status (s : status) (at_ : Z) (d : direct_donation) : direct_donation :=
  mk_dd (dd_id d) (dd_campaign_id d) (dd_wallet_address d) (dd_amount d) s
    (dd_source_tx_hash d) (dd_contract_tx_hash d) (dd_check_count d) (dd_tx_nonce d)
    (dd_created_at d) (Some at_).

Definition set_check_count (n : Z) (d : direct_donation) : direct_donation :=
  mk_dd (dd_id d) (dd_campaign_id d) (dd_wallet_address d) (dd_amount d) (dd_status d)
    (dd_source_tx_hash d) (dd_contract_tx_hash d) (Some n) (dd_tx_nonce d)
    (dd_created_at d) (dd_processed_at d).

(** [SET contract_tx_hash = $1, check_count = 0] *)
Definition set_replacement (hash : string) (d : direct_donation) : direct_donation :=
  mk_dd (dd_id d) (dd_campaign_id d) (dd_wallet_address d) (dd_amount d) (dd_status d)
    (dd_source_tx_hash d) (Some hash) (Some 0) (dd_tx_nonce d)
    (dd_created_at d) (dd_processed_at d).

(** [SET contract_tx_hash = $1, check_count = 0, tx_nonce = $3] *)
Definition set_submitted (hash : string) (nonce : Z) (d : direct_donation) : direct_donation :=
  mk_dd (dd_id d) (dd_campaign_id d) (dd_wallet_address d) (dd_amount d) (dd_status d)
    (dd_source_tx_hash d) (Some hash) (Some 0) (Some nonce)
    (dd_created_at d) (dd_processed_at d).

Definition post (t : submitted) (w : world) : world :=
  mk_world (rows w) (next_id w) (outbox w ++ [t]).

(** [a || b] on nullable [BigInt]s: [null] and [0n] are falsy. *)
Definition js_or (a b : option Z) : option Z :=
  match a with
  | Some x => if x =? 0 then b else Some x
  | None => b
  end.

(** A [BigInt] operand: arithmetic on [null] throws a [TypeError]. *)
Definition bigint (a : option Z) : result Z :=
  match a with
  | Some x => Ok x
  | None => Throw "TypeError: Cannot mix BigInt and other types"
  end.

(** [(feeData.maxFeePerGas || feeData.gasPrice) * BigInt(boost) / BigInt(100)] *)
Definition boosted_maxFee (f : feeData) (boost : Z) : result Z :=
  base ← bigint (js_or (maxFeePerGas f) (gasPrice f));
  Ok (Z.quot (base * boost) 100).

(** [(feeData.maxPriorityFeePerGas || feeData.gasPrice / 2n) * BigInt(boost) / BigInt(100)] *)
Definition boosted_priorityFee (f : feeData) (boost : Z) : result Z :=
  base ← match js_or (maxPriorityFeePerGas f) None with
          | Some x => Ok x
          | None => g ← bigint (gasPrice f); Ok (Z.quot g 2)
          end;
  Ok (Z.quot (base * boost) 100).

(** [replaceStuckTransaction] *)
Definition replaceStuckTransaction (donationId : Z) (wl : wallet) (e : env) (nonce : Z)
  (w : world) : world :=
  let attempt : result world :=
    f ← getFeeData e;
    maxFee ← boosted_maxFee f 150;
    maxPriority ← boosted_priorityFee f 150;
    let replacementTx :=
      SelfTransfer (private_key wl) (wallet_address wl) 0 nonce maxFee maxPriority 21000 in
    hash ← send e replacementTx;
    Ok (update_row donationId (set_replacement hash) (post replacementTx w)) in
  match attempt with
  | Ok w' => w'
  | Throw _ => w
  end.

(** [sendDonationTransaction] *)
Definition sendDonationTransaction (donationId : Z) (wl : wallet) (e : env) (w : world)
  : world :=
  let attempt : result world :=
    balance ← getBalance_send e (wallet_address wl);
    if balance <? hard_floor then Ok w
    else
      f ← getFeeData e;
      maxFee ← boosted_maxFee f GAS_PRICE_BOOST;
      maxPriority ← boosted_priorityFee f GAS_PRICE_BOOST;
      gasEstimate ← estimateGas e wl hard_floor;
      let gasLimit := Z.quot (gasEstimate * 130) 100 in
      price ← bigint (js_or (Some maxFee) (gasPrice f));
      let gasCost := gasLimit * price in
      let gasCostWithBuffer := Z.quot (gasCost * 150) 100 in
      let finalGasReserve :=
        if gasCostWithBuffer >? minReserve then gasCostWithBuffer else minReserve in
      let donationAmount := balance - finalGasReserve in
      if donationAmount <=? 0 then
        Ok (update_row donationId (set_status failed (now e)) w)
      else
        nonce ← getNonce e wl;
        let tx := Donate (private_key wl) (campaign_id wl) donationAmount maxFee
                    maxPriority gasLimit nonce in
        hash ← send e tx;
        Ok (update_row donationId (set_submitted hash nonce) (post tx w)) in
  match attempt with
  | Ok w' => w'
  | Throw _ => update_row donationId (set_status failed (now e)) w
  end.

(** The row object [handlePendingDonation] receives. *)
Record selected := mk_selected {
  sel_id : Z;
  sel_contract_tx_hash : option string;
  sel_check_count : option Z;
  sel_tx_nonce : option Z
}.

(** [!txHash]: [null] and the empty string are falsy. *)
Definition tx_hash_of (d : selected) : option string :=
  match sel_contract_tx_hash d with
  | Some h => if decide (h = "") then None else Some h
  | None => None
  end.

(** [handlePendingDonation] *)
Definition handlePendingDonation (donation : selected) (wl : wallet) (e : env) (w : world)
  : world :=
  match tx_hash_of donation with
  | None => sendDonationTransaction (sel_id donation) wl e w
  | Some txHash =>
      match getTransactionReceipt e txHash with
      | Throw _ => w
      | Ok (Some receipt_status) =>
          let newStatus := if receipt_status =? 1 then completed else failed in
          update_row (sel_id donation) (set_status newStatus (now e)) w
      | Ok None =>
          let newCheckCount := default 0 (sel_check_count donation) + 1 in
          let w1 := update_row (sel_id donation) (set_check_count newCheckCount) w in
          if newCheckCount >=? MAX_PENDING_CHECKS then
            match sel_tx_nonce donation with
            | Some nonce => replaceStuckTransaction (sel_id donation) wl e nonce w1
            | None =>
                match getTransaction e txHash with
                | Ok (Some (Some nonce)) =>
                    replaceStuckTransaction (sel_id donation) wl e nonce w1
                | _ => w1
                end
            end
          else w1
      end
  end.

(** [Number(ethers.formatEther(balance)) < CONFIG.MIN_DONATION_AMOUNT] *)
Definition balanceInMatic (balance : Z) : float := Float64.parseFloat balance 18.

Definition below_minimum (balance : Z) : bool :=
  PrimFloat.ltb (balanceInMatic balance) MIN_DONATION_AMOUNT.

(** [checkBalanceAndCreateDonation] *)
Definition checkBalanceAndCreateDonation (wl : wallet) (e : env) (w : world) : world :=
  match getBalance_check e (wallet_address wl) with
  | Throw _ => w
  | Ok balance =>
      if below_minimum balance then w
      else
        let donationId := next_id w in
        let row :=
          mk_dd donationId (campaign_id wl) (wallet_address wl) (balanceInMatic balance)
            pending ("balance-check-" +:+ pretty (now e)) None (Some 0) None (now e) None in
        sendDonationTransaction donationId wl e
          (mk_world (rows w ++ [row]) (donationId + 1) (outbox w))
  end.

(** [SELECT id, contract_tx_hash, check_count FROM direct_donations
    WHERE wallet_address = $1 AND status = 'pending' LIMIT 1]: the column
    list has no [tx_nonce], so the row object's [tx_nonce] is [undefined]. *)
Definition is_pending_for (address : string) (d : direct_donation) : bool :=
  bool_decide (dd_wallet_address d = address) && bool_decide (dd_status d = pending).

Definition select_pending (address : string) (w : world) : option selected :=
  (fun d => mk_selected (dd_id d) (dd_contract_tx_hash d) (dd_check_count d) None)
    <$> List.find (is_pending_for address) (rows w).

(** [processWallet] *)
Definition processWallet (wl : wallet) (e : env) (w : world) : world :=
  match select_pending (wallet_address wl) w with
  | Some donation => handlePendingDonation donation wl e w
  | None => checkBalanceAndCreateDonation wl e w
  end.

(** [checkWalletsAndProcess]: one tick over the rows of [campaign_wallets]. *)
Definition checkWalletsAndProcess (wallets : list wallet) (e : env) (w : world) : world :=
  foldl (fun w' wl => processWallet wl e w') w wallets.

(** Successive ticks, each with what the node answers at that time. *)
Definition ticks (wallets : list wallet) (es : list env) (w : world) : world :=
  foldl (fun w' e => checkWalletsAndProcess wallets e w') w es.

(** Successive polls of one wallet. *)
Definition polls (wl : wallet) (es : list env) (w : world) : world :=
  foldl (fun w' e => processWallet wl e w') w es.

End Relay.

(** ** The migration runner ([src/db/migrations.js]) *)

Module Migrations.

Section Runner.

(** The database apart from the [migrations] table: what the migrations
    change. *)
Context {Schema : Type}.

(** [migrations_table] is the [name] column of the [migrations] table in
    insertion order, [None] while the table does not exist. *)
Record database := mk_database {
  migrations_table : option (list string);
  schema : Schema
}.

(** Code that queries the database: a result and the database it leaves (an
    exception does not undo the statements that ran before it). *)
Definition Q (A : Type) : Type := database -> result A * database.

Definition bindQ {A B} (m : Q A) (f : A -> Q B) : Q B := fun db =>
  match m db with
  | (Ok a, db') => f a db'
  | (Throw e, db') => (Throw e, db')
  end.

(** One entry of the [migrations] array: its name and the [up] of its
    module. *)
Record migration := mk_migration {
  name : string;
  up : Schema -> result unit * Schema
}.

(** [CREATE TABLE IF NOT EXISTS migrations (...)] *)
Definition ensureMigrationsTable : Q unit := fun db =>
  (Ok tt,
   mk_database (Some (default [] (migrations_table db))) (schema db)).

(** [SELECT * FROM migrations WHERE name = $1], [result.rows.length > 0] *)
Definition checkMigrationStatus (migrationName : string) : Q bool := fun db =>
  match migrations_table db with
  | None => (Throw "relation migrations does not exist", db)
  | Some names => (Ok (bool_decide (migrationName ∈ names)), db)
  end.

(** [INSERT INTO migrations (name) VALUES ($1)]; [name] is [UNIQUE]. *)
Definition markMigrationExecuted (migrationName : string) : Q unit := fun db =>
  match migrations_table db with
  | None => (Throw "relation migrations does not exist", db)
  | Some names =>
      if bool_decide (migrationName ∈ names)
      then (Throw "duplicate key value violates unique constraint", db)
      else (Ok tt, mk_database (Some (names ++ [migrationName])) (schema db))
  end.

(** [await migration.up()] *)
Definition run_up (m : migration) : Q unit := fun db =>
  let '(r, s) := up m (schema db) in (r, mk_database (migrations_table db) s).

(** The body of [for (const migration of migrations)]. *)
Definition run_migration (m : migration) : Q unit :=
  bindQ (checkMigrationStatus (name m)) (fun isExecuted =>
    if negb isExecuted
    then bindQ (run_up m) (fun _ => markMigrationExecuted (name m))
    else fun db => (Ok tt, db)).

Fixpoint run_all (ms : list migration) : Q unit :=
  match ms with
  | [] => fun db => (Ok tt, db)
  | m :: rest => bindQ (run_migration m) (fun _ => run_all rest)
  end.

(** The [up] functions of the four migration modules. *)
Record migration_modules := mk_modules {
  up_001_initial_schema : Schema -> result unit * Schema;
  up_002_reconciliation_table : Schema -> result unit * Schema;
  up_003_campaign_wallets : Schema -> result unit * Schema;
  up_004_direct_donations : Schema -> result unit * Schema
}.

Definition migrations (mods : migration_modules) : list migration :=
  [ mk_migration "001_initial_schema" (up_001_initial_schema mods);
    mk_migration "002_reconciliation_table" (up_002_reconciliation_table mods);
    mk_migration "003_campaign_wallets" (up_003_campaign_wallets mods);
    mk_migration "004_direct_donations" (up_004_direct_donations mods) ].

(** [runMigrations] *)
Definition runMigrations (mods : migration_modules) : Q unit :=
  bindQ ensureMigrationsTable (fun _ => run_all (migrations mods)).

End Runner.

Arguments database : clear implicits.
Arguments migration : clear implicits.
Arguments migration_modules : clear implicits.
Arguments Q : clear implicits.

End Migrations.

(** ** Configuration and start-up of the indexer ([src/services/blockchain.js]) *)

Module Startup.

(** One entry of [NETWORKS]: [rpc] and [contractAddress] are read from the
    environment and are [undefined] ([None]) when the variable is not set. *)
Record network_settings := mk_settings {
  rpc : option string;
  contractAddress : option string;
  settings_isMain : bool
}.

(** [!value] for an environment variable: unset or empty. *)
Definition unset (value : option string) : bool :=
  match value with
  | None => true
  | Some s => bool_decide (s = "")
  end.

(** The issues [validateEnvironment] pushes for one network. *)
Definition issues_of (entry : string * network_settings) : list string :=
  (if unset (rpc entry.2) then ["Missing RPC URL for " +:+ entry.1] else [])
  ++ (if unset (contractAddress entry.2)
      then ["Missing contract address for " +:+ entry.1] else []).

(** [validateEnvironment] *)
Definition validateEnvironment (NETWORKS : list (string * network_settings)) : result unit :=
  let issues := concat (issues_of <$> NETWORKS) in
  if bool_decide (0 < length issues)%nat
  then Throw ("Environment validation failed: " +:+ String.concat ", " issues)
  else Ok tt.

Section Handles.

(** The objects [new ethers.JsonRpcProvider(rpc)] and
    [new ethers.Contract(address, abi, provider)] build; either constructor
    may throw.  The flag tells which ABI is bound: the main chain's or the
    remote chains'. *)
Context {Provider Contract : Type}.
Variable JsonRpcProvider : string -> result Provider.
Variable new_Contract : string -> bool -> Provider -> result Contract.

(** The module-level [providers] and [contracts] objects. *)
Record handles := mk_handles {
  providers : gmap string Provider;
  contracts : gmap string Contract
}.

(** The callback of [Object.entries(NETWORKS).forEach] in
    [initializeProviders]: the provider is stored before the contract is
    built, and a throwing constructor is logged and passed over. *)
Definition initialize_network (h : handles) (entry : string * network_settings) : handles :=
  match rpc entry.2, contractAddress entry.2 with
  | Some url, Some address =>
      if unset (Some url) || unset (Some address) then h
      else
        match JsonRpcProvider url with
        | Throw _ => h
        | Ok p =>
            let h1 := mk_handles (<[entry.1 := p]> (providers h)) (contracts h) in
            match new_Contract address (settings_isMain entry.2) p with
            | Throw _ => h1
            | Ok c => mk_handles (providers h1) (<[entry.1 := c]> (contracts h1))
            end
        end
  | _, _ => h
  end.

Definition initializeProviders (NETWORKS : list (string * network_settings)) (h : handles)
  : handles :=
  foldl initialize_network h NETWORKS.

(** [initialize] *)
Definition initialize (NETWORKS : list (string * network_settings)) (h : handles)
  : result unit * handles :=
  match validateEnvironment NETWORKS with
  | Throw e => (Throw e, h)
  | Ok _ => (Ok tt, initializeProviders NETWORKS h)
  end.

End Handles.

Arguments handles : clear implicits.

End Startup.

(** ** The direct-donation wallet of a campaign
    ([src/services/walletGenerator.js], [GET /api/campaigns/:id/direct-wallet]) *)

Module Api.

(** [campaign_wallets] *)
Record wallet_row := mk_wallet_row {
  cw_campaign_id : string;
  cw_wallet_address : string;
  cw_private_key : string
}.

(** The tables the endpoint reads and writes: the ids of [campaigns] and
    the rows of [campaign_wallets] in insertion order. *)
Record tables := mk_tables {
  campaign_ids : list string;
  campaign_wallets : list wallet_row
}.

(** What the endpoint answers: the wallet object, or a status with an
    error message. *)
Inductive response :=
| wallet_json (campaign_id wallet_address network token : string)
| status_json (code : Z) (error : string).

Section WalletGenerator.

(** [crypto.createHmac('sha256', key).update(message).digest()] as a hex
    string, and the address of [new ethers.Wallet(privateKey)], which throws
    on a key that is not valid. *)
Variable hmac_sha256 : string -> string -> string.
Variable address_of_key : string -> result string.

(** [generateCampaignWallet(campaignId, masterSeed)], returning the address
    and the private key. *)
Definition generateCampaignWallet (campaignId : string) (masterSeed : option string)
  : result (string * string) :=
  match masterSeed with
  | None => Throw "Master seed is required for wallet generation"
  | Some seed =>
      if bool_decide (seed = "") then Throw "Master seed is required for wallet generation"
      else
        let privateKey := "0x" +:+ hmac_sha256 seed ("campaign-" +:+ campaignId) in
        address ← address_of_key privateKey;
        Ok (address, privateKey)
  end.

(** [INSERT INTO campaign_wallets (campaign_id, wallet_address, private_key)]:
    [wallet_address] is [UNIQUE]. *)
Definition insert_wallet (row : wallet_row) (t : tables) : result tables :=
  if bool_decide (cw_wallet_address row ∈ cw_wallet_address <$> campaign_wallets t)
  then Throw "duplicate key value violates unique constraint"
  else Ok (mk_tables (campaign_ids t) (campaign_wallets t ++ [row])).

(** The handler of [GET /api/campaigns/:id/direct-wallet];
    [WALLET_MASTER_SEED] is the environment variable. *)
Definition direct_wallet (id : string) (WALLET_MASTER_SEED : option string) (t : tables)
  : response * tables :=
  if bool_decide (id ∈ campaign_ids t) then
    match List.find (fun w => bool_decide (cw_campaign_id w = id)) (campaign_wallets t) with
    | Some w => (wallet_json id (cw_wallet_address w) "polygon" "POL", t)
    | None =>
        match WALLET_MASTER_SEED with
        | None => (status_json 500 "Wallet generation not configured", t)
        | Some seed =>
            if bool_decide (seed = "")
            then (status_json 500 "Wallet generation not configured", t)
            else
              match generateCampaignWallet id (Some seed) with
              | Throw _ => (status_json 500 "Failed to generate wallet", t)
              | Ok wallet =>
                  match insert_wallet (mk_wallet_row id wallet.1 wallet.2) t with
                  | Throw _ => (status_json 500 "Failed to generate wallet", t)
                  | Ok t' => (wallet_json id wallet.1 "polygon" "MATIC", t')
                  end
              end
        end
    end
  else (status_json 404 "Campaign not found", t).

End WalletGenerator.

End Api.

(** ** The main-chain contract ([FunditMain], Solidity 0.8)

    Conventions.
    - A [uint256] is an [N] below [2 ^ 256]; arithmetic is checked, as in
      Solidity 0.8: an overflow, an underflow or a division by zero reverts.
      An [address] is an [N] below [2 ^ 160], [address(0)] is [0]; an [int256]
      is a [Z].
    - A call that reverts is [Throw] and leaves no state behind.
    - A mapping is a [gmap] read with the zero value as default.
    - What the contract calls (price feeds, tokens, the wallets it pays) is an
      input, and answers without calling back into the contract.
    - [events] is the log of the events the contract emits itself, and
      [outgoing] a record of the payments and token transfers it makes; the
      owner, the pause flag and the peers are the state of the [Ownable],
      [Pausable] and [OApp] bases. *)

Module FunditMain.

Local Open Scope N_scope.

Definition uint256_max : N := 2 ^ 256 - 1.

Definition require (condition : bool) (reason : string) : result unit :=
  if condition then Ok tt else Throw reason.

Definition checked_add (a b : N) : result N :=
  if a + b <=? uint256_max then Ok (a + b) else Throw "Panic(0x11)".
Definition checked_sub (a b : N) : result N :=
  if b <=? a then Ok (a - b) else Throw "Panic(0x11)".
Definition checked_mul (a b : N) : result N :=
  if a * b <=? uint256_max then Ok (a * b) else Throw "Panic(0x11)".
Definition checked_div (a b : N) : result N :=
  if b =? 0 then Throw "Panic(0x12)" else Ok (a / b).
Definition checked_pow (a b : N) : result N :=
  if a ^ b <=? uint256_max then Ok (a ^ b) else Throw "Panic(0x11)".

Record Campaign := mk_Campaign {
  name : string;
  target : N;
  description : string;
  socialLink : string;
  imageId : N;
  creator : N;
  ended : bool;
  totalStable : N
}.

Record WithdrawalRequest := mk_WithdrawalRequest {
  requestId : N;
  requester : N;
  amount : N;
  token : N;
  targetChainId : N;
  processed : bool
}.

Inductive event :=
| FeeWalletUpdated (newFeeWallet : N)
| VaultWalletUpdated (newVaultWallet : N)
| FeeBasisPointsUpdated (newFeeBasisPoints : N)
| CampaignCreated (campaignId creator : N)
| CampaignEdited (campaignId : N)
| DonationMade (campaignId donor netUSDValue : N)
| CampaignEnded (campaignId finalStableValue : N)
| WithdrawalRequested (requestId requester amount token targetChainId : N)
| WithdrawalProcessed (requestId requester amount token targetChainId : N)
| FeaturedCampaignSet (campaignId : N)
| PriceFeedSet (token priceFeed : N)
| PeerSet (eid peer : N).

(** What leaves or enters the contract's custody. *)
Inductive transfer :=
| NativeSent (to amount : N)
| TokenPulled (token from amount : N)
| TokenSent (token to amount : N).

Record state := mk_state {
  owner : N;
  paused : bool;
  peers : gmap N N;
  campaignCount : N;
  campaigns : gmap N Campaign;
  withdrawalRequestCount : N;
  withdrawalRequests : gmap N WithdrawalRequest;
  userTotalBalance : gmap N N;
  creatorEndedBalance : gmap N N;
  userWithdrawnBalance : gmap N N;
  tokenToPriceFeed : gmap N N;
  feeWallet : N;
  vaultWallet : N;
  feeBasisPoints : N;
  featuredCampaignId : N;
  usernames : gmap N string;
  withdrawalsPaused : bool;
  events : list event;
  outgoing : list transfer
}.
Definition set_owner (f : N -> N) (st : state) : state :=
  mk_state (f (owner st)) (paused st) (peers st) (campaignCount st) (campaigns st)
    (withdrawalRequestCount st) (withdrawalRequests st) (userTotalBalance st)
    (creatorEndedBalance st) (userWithdrawnBalance st) (tokenToPriceFeed st) (feeWallet st)
    (vaultWallet st) (feeBasisPoints st) (featuredCampaignId st) (usernames st)
    (withdrawalsPaused st) (events st) (outgoing st).
Definition set_paused (f : bool -> bool) (st : state) : state :=
  mk_state (owner st) (f (paused st)) (peers st) (campaignCount st) (campaigns st)
    (withdrawalRequestCount st) (withdrawalRequests st) (userTotalBalance st)
    (creatorEndedBalance st) (userWithdrawnBalance st) (tokenToPriceFeed st) (feeWallet st)
    (vaultWallet st) (feeBasisPoints st) (featuredCampaignId st) (usernames st)
    (withdrawalsPaused st) (events st) (outgoing st).
Definition set_peers (f : gmap N N -> gmap N N) (st : state) : state :=
  mk_state (owner st) (paused st) (f (peers st)) (campaignCount st) (campaigns st)
    (withdrawalRequestCount st) (withdrawalRequests st) (userTotalBalance st)
    (creatorEndedBalance st) (userWithdrawnBalance st) (tokenToPriceFeed st) (feeWallet st)
    (vaultWallet st) (feeBasisPoints st) (featuredCampaignId st) (usernames st)
    (withdrawalsPaused st) (events st) (outgoing st).
Definition set_campaignCount (f : N -> N) (st : state) : state :=
  mk_state (owner st) (paused st) (peers st) (f (campaignCount st)) (campaigns st)
    (withdrawalRequestCount st) (withdrawalRequests st) (userTotalBalance st)
    (creatorEndedBalance st) (userWithdrawnBalance st) (tokenToPriceFeed st) (feeWallet st)
    (vaultWallet st) (feeBasisPoints st) (featuredCampaignId st) (usernames st)
    (withdrawalsPaused st) (events st) (outgoing st).
Definition set_campaigns (f : gmap N Campaign -> gmap N Campaign) (st : state) : state :=
  mk_state (owner st) (paused st) (peers st) (campaignCount st) (f (campaigns st))
    (withdrawalRequestCount st) (withdrawalRequests st) (userTotalBalance st)
    (creatorEndedBalance st) (userWithdrawnBalance st) (tokenToPriceFeed st) (feeWallet st)
    (vaultWallet st) (feeBasisPoints st) (featuredCampaignId st) (usernames st)
    (withdrawalsPaused st) (events st) (outgoing st).
Definition set_withdrawalRequestCount (f : N -> N) (st : state) : state :=
  mk_state (owner st) (paused st) (peers st) (campaignCount st) (campaigns st) (f
    (withdrawalRequestCount st)) (withdrawalRequests st) (userTotalBalance st)
    (creatorEndedBalance st) (userWithdrawnBalance st) (tokenToPriceFeed st) (feeWallet st)
    (vaultWallet st) (feeBasisPoints st) (featuredCampaignId st) (usernames st)
    (withdrawalsPaused st) (events st) (outgoing st).
Definition set_withdrawalRequests (f : gmap N WithdrawalRequest -> gmap N WithdrawalRequest) (st : state) : state :=
  mk_state (owner st) (paused st) (peers st) (campaignCount st) (campaigns st)
    (withdrawalRequestCount st) (f (withdrawalRequests st)) (userTotalBalance st)
    (creatorEndedBalance st) (userWithdrawnBalance st) (tokenToPriceFeed st) (feeWallet st)
    (vaultWallet st) (feeBasisPoints st) (featuredCampaignId st) (usernames st)
    (withdrawalsPaused st) (events st) (outgoing st).
Definition set_userTotalBalance (f : gmap N N -> gmap N N) (st : state) : state :=
  mk_state (owner st) (paused st) (peers st) (campaignCount st) (campaigns st)
    (withdrawalRequestCount st) (withdrawalRequests st) (f (userTotalBalance st))
    (creatorEndedBalance st) (userWithdrawnBalance st) (tokenToPriceFeed st) (feeWallet st)
    (vaultWallet st) (feeBasisPoints st) (featuredCampaignId st) (usernames st)
    (withdrawalsPaused st) (events st) (outgoing st).
Definition set_creatorEndedBalance (f : gmap N N -> gmap N N) (st : state) : state :=
  mk_state (owner st) (paused st) (peers st) (campaignCount st) (campaigns st)
    (withdrawalRequestCount st) (withdrawalRequests st) (userTotalBalance st) (f
    (creatorEndedBalance st)) (userWithdrawnBalance st) (tokenToPriceFeed st) (feeWallet st)
    (vaultWallet st) (feeBasisPoints st) (featuredCampaignId st) (usernames st)
    (withdrawalsPaused st) (events st) (outgoing st).
Definition set_userWithdrawnBalance (f : gmap N N -> gmap N N) (st : state) : state :=
  mk_state (owner st) (paused st) (peers st) (campaignCount st) (campaigns st)
    (withdrawalRequestCount st) (withdrawalRequests st) (userTotalBalance st)
    (creatorEndedBalance st) (f (userWithdrawnBalance st)) (tokenToPriceFeed st) (feeWallet st)
    (vaultWallet st) (feeBasisPoints st) (featuredCampaignId st) (usernames st)
    (withdrawalsPaused st) (events st) (outgoing st).
Definition set_tokenToPriceFeed (f : gmap N N -> gmap N N) (st : state) : state :=
  mk_state (owner st) (paused st) (peers st) (campaignCount st) (campaigns st)
    (withdrawalRequestCount st) (withdrawalRequests st) (userTotalBalance st)
    (creatorEndedBalance st) (userWithdrawnBalance st) (f (tokenToPriceFeed st)) (feeWallet st)
    (vaultWallet st) (feeBasisPoints st) (featuredCampaignId st) (usernames st)
    (withdrawalsPaused st) (events st) (outgoing st).
Definition set_feeWallet (f : N -> N) (st : state) : state :=
  mk_state (owner st) (paused st) (peers st) (campaignCount st) (campaigns st)
    (withdrawalRequestCount st) (withdrawalRequests st) (userTotalBalance st)
    (creatorEndedBalance st) (userWithdrawnBalance st) (tokenToPriceFeed st) (f (feeWallet st))
    (vaultWallet st) (feeBasisPoints st) (featuredCampaignId st) (usernames st)
    (withdrawalsPaused st) (events st) (outgoing st).
Definition set_vaultWallet (f : N -> N) (st : state) : state :=
  mk_state (owner st) (paused st) (peers st) (campaignCount st) (campaigns st)
    (withdrawalRequestCount st) (withdrawalRequests st) (userTotalBalance st)
    (creatorEndedBalance st) (userWithdrawnBalance st) (tokenToPriceFeed st) (feeWallet st) (f
    (vaultWallet st)) (feeBasisPoints st) (featuredCampaignId st) (usernames st)
    (withdrawalsPaused st) (events st) (outgoing st).
Definition set_feeBasisPoints (f : N -> N) (st : state) : state :=
  mk_state (owner st) (paused st) (peers st) (campaignCount st) (campaigns st)
    (withdrawalRequestCount st) (withdrawalRequests st) (userTotalBalance st)
    (creatorEndedBalance st) (userWithdrawnBalance st) (tokenToPriceFeed st) (feeWallet st)
    (vaultWallet st) (f (feeBasisPoints st)) (featuredCampaignId st) (usernames st)
    (withdrawalsPaused st) (events st) (outgoing st).
Definition set_featuredCampaignId (f : N -> N) (st : state) : state :=
  mk_state (owner st) (paused st) (peers st) (campaignCount st) (campaigns st)
    (withdrawalRequestCount st) (withdrawalRequests st) (userTotalBalance st)
    (creatorEndedBalance st) (userWithdrawnBalance st) (tokenToPriceFeed st) (feeWallet st)
    (vaultWallet st) (feeBasisPoints st) (f (featuredCampaignId st)) (usernames st)
    (withdrawalsPaused st) (events st) (outgoing st).
Definition set_usernames (f : gmap N string -> gmap N string) (st : state) : state :=
  mk_state (owner st) (paused st) (peers st) (campaignCount st) (campaigns st)
    (withdrawalRequestCount st) (withdrawalRequests st) (userTotalBalance st)
    (creatorEndedBalance st) (userWithdrawnBalance st) (tokenToPriceFeed st) (feeWallet st)
    (vaultWallet st) (feeBasisPoints st) (featuredCampaignId st) (f (usernames st))
    (withdrawalsPaused st) (events st) (outgoing st).
Definition set_withdrawalsPaused (f : bool -> bool) (st : state) : state :=
  mk_state (owner st) (paused st) (peers st) (campaignCount st) (campaigns st)
    (withdrawalRequestCount st) (withdrawalRequests st) (userTotalBalance st)
    (creatorEndedBalance st) (userWithdrawnBalance st) (tokenToPriceFeed st) (feeWallet st)
    (vaultWallet st) (feeBasisPoints st) (featuredCampaignId st) (usernames st) (f
    (withdrawalsPaused st)) (events st) (outgoing st).
Definition set_events (f : list event -> list event) (st : state) : state :=
  mk_state (owner st) (paused st) (peers st) (campaignCount st) (campaigns st)
    (withdrawalRequestCount st) (withdrawalRequests st) (userTotalBalance st)
    (creatorEndedBalance st) (userWithdrawnBalance st) (tokenToPriceFeed st) (feeWallet st)
    (vaultWallet st) (feeBasisPoints st) (featuredCampaignId st) (usernames st)
    (withdrawalsPaused st) (f (events st)) (outgoing st).
Definition set_outgoing (f : list transfer -> list transfer) (st : state) : state :=
  mk_state (owner st) (paused st) (peers st) (campaignCount st) (campaigns st)
    (withdrawalRequestCount st) (withdrawalRequests st) (userTotalBalance st)
    (creatorEndedBalance st) (userWithdrawnBalance st) (tokenToPriceFeed st) (feeWallet st)
    (vaultWallet st) (feeBasisPoints st) (featuredCampaignId st) (usernames st)
    (withdrawalsPaused st) (events st) (f (outgoing st)).

Definition emit (ev : event) (st : state) : state := set_events (fun l => l ++ [ev]) st.
Definition record (t : transfer) (st : state) : state := set_outgoing (fun l => l ++ [t]) st.

Definition zero_Campaign : Campaign := mk_Campaign "" 0 "" "" 0 0 false 0.
Definition zero_WithdrawalRequest : WithdrawalRequest := mk_WithdrawalRequest 0 0 0 0 0 false.

(** [campaigns[campaignId]], [withdrawalRequests[requestId]] and a balance
    mapping at an address. *)
Definition campaign_at (st : state) (campaignId : N) : Campaign :=
  default zero_Campaign (campaigns st !! campaignId).
Definition request_at (st : state) (requestId : N) : WithdrawalRequest :=
  default zero_WithdrawalRequest (withdrawalRequests st !! requestId).
Definition balance_at (balances : gmap N N) (account : N) : N :=
  default 0 (balances !! account).

(** [msg.sender] and [msg.value]. *)
Record msg := mk_msg {
  sender : N;
  value : N
}.

(** The contracts and accounts the contract calls. *)
Record externals := mk_externals {
  latestRoundData : N -> result Z;
  decimals : N -> result N;
  native_call : N -> N -> bool;
  safeTransferFrom : N -> N -> N -> result unit;
  safeTransfer : N -> N -> N -> result unit
}.

(** A function that is not [payable] reverts when sent value. *)
Definition nonpayable (m : msg) : result unit := require (value m =? 0) "".
Definition onlyOwner (m : msg) (st : state) : result unit :=
  require (sender m =? owner st) "OwnableUnauthorizedAccount".
Definition whenNotPaused (st : state) : result unit :=
  require (negb (paused st)) "Pausable: paused".
Definition whenPaused (st : state) : result unit :=
  require (paused st) "Pausable: not paused".

Definition BASIS_POINTS_DIVISOR : N := 1000.

Definition constructor (_endpoint _feeWallet _vaultWallet _feeBasisPoints : N) (m : msg)
  : result state :=
  _ ← nonpayable m;
  _ ← require (negb (_feeWallet =? 0)) "Invalid fee wallet";
  _ ← require (negb (_vaultWallet =? 0)) "Invalid vault wallet";
  _ ← require (_feeBasisPoints <? BASIS_POINTS_DIVISOR) "Fee too high";
  Ok (mk_state (sender m) false ∅ 0 ∅ 0 ∅ ∅ ∅ ∅ ∅ _feeWallet _vaultWallet _feeBasisPoints
        0 ∅ false [] []).

Definition updateFeeWallet (newFeeWallet : N) (m : msg) (st : state) : result state :=
  _ ← nonpayable m;
  _ ← onlyOwner m st;
  _ ← require (negb (newFeeWallet =? 0)) "Invalid fee wallet";
  Ok (emit (FeeWalletUpdated newFeeWallet) (set_feeWallet (fun _ => newFeeWallet) st)).

Definition updateVaultWallet (newVaultWallet : N) (m : msg) (st : state) : result state :=
  _ ← nonpayable m;
  _ ← onlyOwner m st;
  _ ← require (negb (newVaultWallet =? 0)) "Invalid vault wallet";
  Ok (emit (VaultWalletUpdated newVaultWallet) (set_vaultWallet (fun _ => newVaultWallet) st)).

Definition updateFeeBasisPoints (newFeeBasisPoints : N) (m : msg) (st : state)
  : result state :=
  _ ← nonpayable m;
  _ ← onlyOwner m st;
  _ ← require (newFeeBasisPoints <? BASIS_POINTS_DIVISOR) "Fee too high";
  Ok (emit (FeeBasisPointsUpdated newFeeBasisPoints)
        (set_feeBasisPoints (fun _ => newFeeBasisPoints) st)).

(** [bytes32(uint256(uint160(_addr)))] and [address(uint160(uint256(_b)))] *)
Definition addressToBytes32 (_addr : N) : N := _addr.
Definition bytes32ToAddress (_b : N) : N := _b mod 2 ^ 160.

Definition setPeer (_eid _peerAddress : N) (m : msg) (st : state) : result state :=
  _ ← nonpayable m;
  _ ← onlyOwner m st;
  let peerBytes := addressToBytes32 _peerAddress in
  Ok (emit (PeerSet _eid peerBytes) (set_peers <[_eid := peerBytes]> st)).

Definition setPriceFeed (token priceFeed : N) (m : msg) (st : state) : result state :=
  _ ← nonpayable m;
  _ ← onlyOwner m st;
  _ ← require (negb (priceFeed =? 0)) "Invalid price feed address";
  _ ← require (balance_at (tokenToPriceFeed st) token =? 0)
        "Price feed already set for this token";
  Ok (emit (PriceFeedSet token priceFeed) (set_tokenToPriceFeed <[token := priceFeed]> st)).

Definition setFeaturedCampaign (campaignId : N) (m : msg) (st : state) : result state :=
  _ ← nonpayable m;
  _ ← onlyOwner m st;
  _ ← require (negb (creator (campaign_at st campaignId) =? 0)) "Campaign does not exist";
  Ok (emit (FeaturedCampaignSet campaignId) (set_featuredCampaignId (fun _ => campaignId) st)).

Definition setUsername (username : string) (m : msg) (st : state) : result state :=
  _ ← nonpayable m;
  _ ← whenNotPaused st;
  Ok (set_usernames <[sender m := username]> st).

Definition pause (m : msg) (st : state) : result state :=
  _ ← nonpayable m;
  _ ← onlyOwner m st;
  _ ← whenNotPaused st;
  Ok (set_paused (fun _ => true) st).

Definition unpause (m : msg) (st : state) : result state :=
  _ ← nonpayable m;
  _ ← onlyOwner m st;
  _ ← whenPaused st;
  Ok (set_paused (fun _ => false) st).

Definition pauseWithdrawals (m : msg) (st : state) : result state :=
  _ ← nonpayable m;
  _ ← onlyOwner m st;
  Ok (set_withdrawalsPaused (fun _ => true) st).

Definition unpauseWithdrawals (m : msg) (st : state) : result state :=
  _ ← nonpayable m;
  _ ← onlyOwner m st;
  Ok (set_withdrawalsPaused (fun _ => false) st).

Definition createCampaign (name : string) (target : N) (description socialLink : string)
  (imageId : N) (m : msg) (st : state) : result state :=
  _ ← nonpayable m;
  _ ← whenNotPaused st;
  count ← checked_add (campaignCount st) 1;
  let st1 := set_campaignCount (fun _ => count) st in
  let st2 :=
    set_campaigns
      <[count := mk_Campaign name target description socialLink imageId (sender m) false 0]>
      st1 in
  Ok (emit (CampaignCreated count (sender m)) st2).

(** For each field, an empty input (a string of length 0, the number 0)
    leaves the field as it is. *)
Definition editCampaign (campaignId : N) (name : string) (target : N)
  (description socialLink : string) (imageId : N) (m : msg) (st : state) : result state :=
  _ ← nonpayable m;
  _ ← whenNotPaused st;
  let campaign := campaign_at st campaignId in
  _ ← require (sender m =? creator campaign) "Only creator can edit";
  _ ← require (negb (ended campaign)) "Cannot edit ended campaign";
  let edited :=
    mk_Campaign
      (if (0 <? String.length name)%nat then name else FunditMain.name campaign)
      (if 0 <? target then target else FunditMain.target campaign)
      (if (0 <? String.length description)%nat then description
       else FunditMain.description campaign)
      (if (0 <? String.length socialLink)%nat then socialLink
       else FunditMain.socialLink campaign)
      (if 0 <? imageId then imageId else FunditMain.imageId campaign)
      (creator campaign) (ended campaign) (totalStable campaign) in
  Ok (emit (CampaignEdited campaignId) (set_campaigns <[campaignId := edited]> st)).

Definition endCampaign (campaignId : N) (m : msg) (st : state) : result state :=
  _ ← nonpayable m;
  _ ← whenNotPaused st;
  let campaign := campaign_at st campaignId in
  _ ← require (sender m =? creator campaign) "Only creator can end campaign";
  _ ← require (negb (ended campaign)) "Campaign already ended";
  let closed :=
    mk_Campaign (name campaign) (target campaign) (description campaign)
      (socialLink campaign) (imageId campaign) (creator campaign) true
      (totalStable campaign) in
  endedBalance ← checked_add (balance_at (creatorEndedBalance st) (creator campaign))
                   (totalStable campaign);
  let st1 := set_campaigns <[campaignId := closed]> st in
  let st2 := set_creatorEndedBalance <[creator campaign := endedBalance]> st1 in
  Ok (emit (CampaignEnded campaignId (totalStable campaign)) st2).

Definition convertTokenToUSD (x : externals) (token tokenAmount : N) (st : state)
  : result N :=
  let priceFeedAddress := balance_at (tokenToPriceFeed st) token in
  _ ← require (negb (priceFeedAddress =? 0)) "Price feed not set for token";
  price ← latestRoundData x priceFeedAddress;
  _ ← require (0 <? price)%Z "Invalid price";
  tokenDecimals ← decimals x token;
  product ← checked_mul tokenAmount (Z.to_N price);
  unit_ ← checked_pow 10 tokenDecimals;
  checked_div product unit_.

Definition convertNativeToUSD (x : externals) (nativeAmount : N) (st : state) : result N :=
  let priceFeedAddress := balance_at (tokenToPriceFeed st) 0 in
  _ ← require (negb (priceFeedAddress =? 0)) "Native coin price feed not set";
  price ← latestRoundData x priceFeedAddress;
  _ ← require (0 <? price)%Z "Invalid price";
  product ← checked_mul nativeAmount (Z.to_N price);
  checked_div product (10 ^ 18).

(** [campaign.totalStable += netUsd; userTotalBalance[campaign.creator] += netUsd;
    emit DonationMade(campaignId, donor, netUsd)] *)
Definition credit (campaignId donor netUsd : N) (st : state) : result state :=
  let campaign := campaign_at st campaignId in
  total ← checked_add (totalStable campaign) netUsd;
  let credited :=
    mk_Campaign (name campaign) (target campaign) (description campaign)
      (socialLink campaign) (imageId campaign) (creator campaign) (ended campaign) total in
  let st1 := set_campaigns <[campaignId := credited]> st in
  userTotal ← checked_add (balance_at (userTotalBalance st1) (creator campaign)) netUsd;
  let st2 := set_userTotalBalance <[creator campaign := userTotal]> st1 in
  Ok (emit (DonationMade campaignId donor netUsd) st2).

Definition donate (x : externals) (campaignId token amount : N) (m : msg) (st : state)
  : result state :=
  _ ← whenNotPaused st;
  let campaign := campaign_at st campaignId in
  _ ← require (negb (ended campaign)) "Campaign ended";
  if token =? 0 then
    _ ← require (0 <? value m) "No native coin sent";
    usdValue ← convertNativeToUSD x (value m) st;
    scaledUsd ← checked_mul usdValue (feeBasisPoints st);
    feeUsd ← checked_div scaledUsd BASIS_POINTS_DIVISOR;
    netUsd ← checked_sub usdValue feeUsd;
    scaledFee ← checked_mul (value m) (feeBasisPoints st);
    fee ← checked_div scaledFee BASIS_POINTS_DIVISOR;
    _ ← require (native_call x (feeWallet st) fee) "Fee transfer failed";
    let st1 := record (NativeSent (feeWallet st) fee) st in
    rest ← checked_sub (value m) fee;
    _ ← require (native_call x (vaultWallet st) rest) "Vault transfer failed";
    let st2 := record (NativeSent (vaultWallet st) rest) st1 in
    credit campaignId (sender m) netUsd st2
  else
    _ ← require (negb (balance_at (tokenToPriceFeed st) token =? 0)) "Token not supported";
    _ ← require (0 <? amount) "Donation must be > 0";
    _ ← safeTransferFrom x token (sender m) amount;
    let st1 := record (TokenPulled token (sender m) amount) st in
    usdValue ← convertTokenToUSD x token amount st1;
    scaledFee ← checked_mul amount (feeBasisPoints st1);
    tokenFee ← checked_div scaledFee BASIS_POINTS_DIVISOR;
    netToken ← checked_sub amount tokenFee;
    _ ← safeTransfer x token (feeWallet st1) tokenFee;
    let st2 := record (TokenSent token (feeWallet st1) tokenFee) st1 in
    _ ← safeTransfer x token (vaultWallet st2) netToken;
    let st3 := record (TokenSent token (vaultWallet st2) netToken) st2 in
    scaledUsd ← checked_mul usdValue (feeBasisPoints st3);
    feeUsd ← checked_div scaledUsd BASIS_POINTS_DIVISOR;
    netUsd ← checked_sub usdValue feeUsd;
    credit campaignId (sender m) netUsd st3.

(** [_lzReceive]: [srcEid] and [origin_sender] are [_origin.srcEid] and
    [_origin.sender], [payload] what [abi.decode(payload, (uint256, uint256))]
    gives. *)
Definition _lzReceive (srcEid origin_sender : N) (payload : result (N * N)) (st : state)
  : result state :=
  _ ← require (origin_sender =? balance_at (peers st) srcEid) "Untrusted sender";
  decoded ← payload;
  let campaignId := decoded.1 in
  let donationAmount := decoded.2 in
  _ ← require ((0 <? campaignId) && (campaignId <=? campaignCount st)) "Invalid campaign";
  _ ← require (negb (ended (campaign_at st campaignId))) "Campaign ended";
  credit campaignId (bytes32ToAddress origin_sender) donationAmount st.

Definition requestWithdrawal (x : externals) (amount token targetChainId : N) (m : msg)
  (st : state) : result state :=
  _ ← nonpayable m;
  _ ← whenNotPaused st;
  _ ← require (negb (token =? 0)) "Token not supported for withdrawal";
  _ ← require (negb (withdrawalsPaused st)) "Withdrawal requests are paused";
  withdrawable ← checked_sub (balance_at (creatorEndedBalance st) (sender m))
                   (balance_at (userWithdrawnBalance st) (sender m));
  usdValue ← convertTokenToUSD x token amount st;
  _ ← require (usdValue <=? withdrawable) "Amount exceeds withdrawable balance";
  scaledUsd ← checked_mul usdValue (feeBasisPoints st);
  feeUsd ← checked_div scaledUsd BASIS_POINTS_DIVISOR;
  netUsd ← checked_sub usdValue feeUsd;
  withdrawn ← checked_add (balance_at (userWithdrawnBalance st) (sender m)) usdValue;
  let st1 := set_userWithdrawnBalance <[sender m := withdrawn]> st in
  count ← checked_add (withdrawalRequestCount st1) 1;
  let st2 := set_withdrawalRequestCount (fun _ => count) st1 in
  let st3 :=
    set_withdrawalRequests
      <[count := mk_WithdrawalRequest count (sender m) netUsd token targetChainId false]>
      st2 in
  Ok (emit (WithdrawalRequested count (sender m) netUsd token targetChainId) st3).

Definition processWithdrawalRequest (requestId : N) (m : msg) (st : state) : result state :=
  _ ← nonpayable m;
  _ ← onlyOwner m st;
  let req := request_at st requestId in
  _ ← require (negb (processed req)) "Already processed";
  let done :=
    mk_WithdrawalRequest (FunditMain.requestId req) (requester req) (amount req) (token req)
      (targetChainId req) true in
  Ok (emit (WithdrawalProcessed requestId (requester req) (amount req) (token req)
              (targetChainId req))
        (set_withdrawalRequests <[requestId := done]> st)).

(** [getCampaigns]: the campaigns [offset .. end], filled in by the loop; the
    last [i++] of the loop is checked like every increment. *)
Definition getCampaigns (offset limit : N) (st : state) : result (list Campaign) :=
  let offset := if offset <? 1 then 1 else offset in
  upto ← checked_add offset limit;
  end0 ← checked_sub upto 1;
  let end_ := if campaignCount st <? end0 then campaignCount st else end0 in
  span ← checked_sub end_ offset;
  count ← checked_add span 1;
  _ ← checked_add end_ 1;
  Ok ((fun j => campaign_at st (offset + N.of_nat j)) <$> seq 0 (N.to_nat count)).

Definition emergencyRescue (x : externals) (token amount : N) (m : msg) (st : state)
  : result state :=
  _ ← nonpayable m;
  _ ← onlyOwner m st;
  if token =? 0 then
    _ ← require (native_call x (owner st) amount) "Failed to send native coin";
    Ok (record (NativeSent (owner st) amount) st)
  else
    _ ← safeTransfer x token (owner st) amount;
    Ok (record (TokenSent token (owner st) amount) st).

(** [receive() external payable {}] *)
Definition receive (m : msg) (st : state) : result state := Ok st.

(** A call of a function that changes the state, or the delivery of a
    cross-chain message to [_lzReceive]. *)
Inductive call :=
| UpdateFeeWallet (newFeeWallet : N)
| UpdateVaultWallet (newVaultWallet : N)
| UpdateFeeBasisPoints (newFeeBasisPoints : N)
| SetPeer (_eid _peerAddress : N)
| SetPriceFeed (token priceFeed : N)
| SetFeaturedCampaign (campaignId : N)
| SetUsername (username : string)
| Pause
| Unpause
| PauseWithdrawals
| UnpauseWithdrawals
| CreateCampaign (name : string) (target : N) (description socialLink : string) (imageId : N)
| EditCampaign (campaignId : N) (name : string) (target : N)
    (description socialLink : string) (imageId : N)
| EndCampaign (campaignId : N)
| Donate (campaignId token amount : N)
| LzReceive (srcEid origin_sender : N) (payload : result (N * N))
| RequestWithdrawal (amount token targetChainId : N)
| ProcessWithdrawalRequest (requestId : N)
| EmergencyRescue (token amount : N)
| Receive.

Definition exec (x : externals) (c : call) (m : msg) (st : state) : result state :=
  match c with
  | UpdateFeeWallet a => updateFeeWallet a m st
  | UpdateVaultWallet a => updateVaultWallet a m st
  | UpdateFeeBasisPoints n => updateFeeBasisPoints n m st
  | SetPeer eid a => setPeer eid a m st
  | SetPriceFeed t f => setPriceFeed t f m st
  | SetFeaturedCampaign id => setFeaturedCampaign id m st
  | SetUsername u => setUsername u m st
  | Pause => pause m st
  | Unpause => unpause m st
  | PauseWithdrawals => pauseWithdrawals m st
  | UnpauseWithdrawals => unpauseWithdrawals m st
  | CreateCampaign n t d s i => createCampaign n t d s i m st
  | EditCampaign id n t d s i => editCampaign id n t d s i m st
  | EndCampaign id => endCampaign id m st
  | Donate id t a => donate x id t a m st
  | LzReceive eid s p => _lzReceive eid s p st
  | RequestWithdrawal a t c => requestWithdrawal x a t c m st
  | ProcessWithdrawalRequest id => processWithdrawalRequest id m st
  | EmergencyRescue t a => emergencyRescue x t a m st
  | Receive => receive m st
  end.

End FunditMain.

(** * Vocabulary of the properties

    The predicates and sample inputs the statements below are written with. *)

Module IndexerSpec.

(** Chunks that follow one another from block [a], each of at most
    [MAX_BLOCK_RANGE] blocks. *)
Fixpoint chained (a : Z) (cs : list (Z * Z)) : Prop :=
  match cs with
  | [] => True
  | (x, y) :: rest =>
      x = a /\ x <= y /\ y - x + 1 <= MAX_BLOCK_RANGE /\ chained (y + 1) rest
  end.

(** The end of the last chunk, [d] when there is none. *)
Definition last_end (cs : list (Z * Z)) (d : Z) : Z := List.last (cs.*2) d.

Definition entries (network : string) (cs : list (Z * Z)) : list action :=
  (fun c => ChunkIndexed network c.1 c.2) <$> cs.

(** The sum of the net amounts that the events of a batch carry for one
    campaign. *)
Definition raised_by (campaignId : Z) (evs : list DonationMade) : Z :=
  foldr (fun ev acc => if decide (dm_campaignId ev = campaignId)
                       then dm_netUSDValue ev + acc else acc) 0 evs.


(** A sequence of [UPDATE ... WHERE id = ...] statements: [target ev] is the
    row an event updates and with what, [apply p] the update of one row. *)
Definition table_step {A B P : Type} (target : B -> option (Z * P)) (apply : P -> A -> A)
  (m : gmap Z A) (ev : B) : gmap Z A :=
  match target ev with
  | Some (id, p) => alter (apply p) id m
  | None => m
  end.

Definition row_step {A B P : Type} (target : B -> option (Z * P)) (apply : P -> A -> A)
  (id : Z) (r : A) (ev : B) : A :=
  match target ev with
  | Some (id', p) => if decide (id' = id) then apply p r else r
  | None => r
  end.


Definition edited_target (campaignDataMap : gmap Z campaign_struct) (ev : CampaignEdited)
  : option (Z * campaign_struct) :=
  (fun campaign => (ce_campaignId ev, campaign)) <$> campaignDataMap !! ce_campaignId ev.

Definition ended_target (ev : CampaignEnded) : option (Z * Z) :=
  Some (cn_campaignId ev, cn_finalStableValue ev).

(** Rows after one pass, given the rows after the inserts. *)
Definition lifecycle_row (dataMap : gmap Z campaign_struct) (edited : list CampaignEdited)
  (ended : list CampaignEnded) (now : Z) (id : Z) (r : campaign_row) : campaign_row :=
  foldl (row_step ended_target (fun p => end_row p now) id)
    (foldl (row_step (edited_target dataMap) (fun p => edit_row p now) id) r edited)
    ended.

(** The campaigns table after the statements of one pass, from the table
    before it and what the chain returned. *)
Definition lifecycle_table (dataMap : gmap Z campaign_struct) (network : string)
  (created : list CampaignCreated) (edited : list CampaignEdited)
  (ended : list CampaignEnded) (now : Z) (m : gmap Z campaign_row) : gmap Z campaign_row :=
  foldl (ended_step now)
    (foldl (table_step (edited_target dataMap) (fun p => edit_row p now))
       (foldl insert_campaign m (omap (created_value dataMap network now) created))
       edited)
    ended.

(** Cursor monotonicity along the runs of [runs network inputs w], one after
    the other: a run that does not jump ahead leaves the cursor where it was
    or further, and a run jumps ahead only when the head is more than
    [MAX_ACCEPTABLE_GAP] blocks past the cursor. *)
Fixpoint cursor_discipline (network : string) (inputs : list run_input) (w : world) : Prop :=
  match inputs with
  | [] => True
  | i :: rest =>
      let rw := run (entry_of network i) (ri_now i) w in
      (forall c, cursor (w_db w) network = Some c ->
         exists c', cursor (w_db rw.2) network = Some c' /\
           (r_jumpedAhead rw.1 = false -> c <= c') /\
           (r_jumpedAhead rw.1 = true ->
              exists head, ri_head i = Ok head /\ head - c > MAX_ACCEPTABLE_GAP)) /\
      cursor_discipline network rest rw.2
  end.

(** The type and the transaction hash of an audit row. *)
Definition kind_and_hash (t : transaction_row) : string * string := (t_type t, t_tx_hash t).

(** The columns of a withdrawal row that its request fills in. *)
Definition request_data (r : withdrawal_row) : string * Z * string * Z * Z * string * string :=
  (w_user_address r, w_amount r, w_token r, w_target_chain r, w_request_timestamp r,
   w_chain r, w_tx_hash r).

(** The networks a scheduler run does anything for: main chains whose
    provider was initialised. *)
Definition indexed_by_worker (e : network_entry) : bool :=
  bool_decide (is_Some (ne_provider e)) && isMain (ne_config e).

(** ** Sample inputs *)

(** A contract with no events in any range. *)
Definition quiet : contract :=
  mk_contract (fun _ _ _ => Ok []) (fun _ _ _ => Ok []) (fun _ _ _ => Ok [])
    (fun _ _ _ => Ok []) (fun _ _ _ => Ok []) (fun _ _ _ => Ok [])
    (fun _ _ => Throw "campaign not found").

(** A world whose only content is the cursor of one chain. *)
Definition world_at (network : string) (c : Z) : world :=
  mk_world (set_indexer_state <[network := mk_cursor c 0]> empty_db) [].

Definition sample_struct : campaign_struct :=
  mk_struct "Well" 100000000000 "A village well" "https://example.org" 3 "0xcreator" false
    4000000.

Definition sample_row (amount_raised : Z) : campaign_row :=
  mk_campaign "Well" "A village well" 100000000000 "https://example.org" 3 "0xcreator"
    false amount_raised 1 1 "polygon" "0xcreated" None.

(** A contract with campaign 7 created, edited and ended in the range, one
    donation of 5.00000000 to it, and [campaigns(id)] answering
    [sample_struct]. *)
Definition busy : contract :=
  mk_contract
    (fun _ _ _ => Ok [mk_created 7 "0xcreator" "0xcreated"])
    (fun _ _ _ => Ok [mk_edited 7 "0xedited"])
    (fun _ _ _ => Ok [mk_ended 7 9000000 "0xended"])
    (fun _ _ _ => Ok [mk_donationMade 7 "0xdonor" 500000000 "0xdonated"])
    (fun _ _ _ => Ok []) (fun _ _ _ => Ok [])
    (fun _ _ => Ok sample_struct).

Definition world_with_campaign (amount_raised : Z) : world :=
  mk_world (set_campaigns <[7 := sample_row amount_raised]> empty_db) [].

(** A contract whose range holds only the end of campaign 7. *)
Definition orphan_end : contract :=
  mk_contract (fun _ _ _ => Ok []) (fun _ _ _ => Ok [])
    (fun _ _ _ => Ok [mk_ended 7 9000000 "0xended"])
    (fun _ _ _ => Ok []) (fun _ _ _ => Ok []) (fun _ _ _ => Ok [])
    (fun _ _ => Ok sample_struct).

(** A contract whose range holds only a donation to campaign 7. *)
Definition orphan_donation : contract :=
  mk_contract (fun _ _ _ => Ok []) (fun _ _ _ => Ok []) (fun _ _ _ => Ok [])
    (fun _ _ _ => Ok [mk_donationMade 7 "0xdonor" 500000000 "0xdonated"])
    (fun _ _ _ => Ok []) (fun _ _ _ => Ok [])
    (fun _ _ => Ok sample_struct).

(** The row of a withdrawal that was requested and processed. *)
Definition settled_withdrawal : withdrawal_row :=
  mk_withdrawal "0xrequester" 250000000 "0xtoken" 137 Processed 1 (Some 2) "polygon"
    "0xrequested" (Some "0xprocessed").

(** A contract whose range holds the request of withdrawal 3 and, when
    [paid], its processing. *)
Definition withdrawing (paid : bool) : contract :=
  mk_contract (fun _ _ _ => Ok []) (fun _ _ _ => Ok []) (fun _ _ _ => Ok [])
    (fun _ _ _ => Ok [])
    (fun _ _ _ => Ok [mk_withdrawalRequested 3 "0xrequester" 250000000 "0xtoken" 137
                        "0xrequested"])
    (fun _ _ _ => Ok (if paid then [mk_withdrawalProcessed 3 "0xprocessed"] else []))
    (fun _ _ => Throw "campaign not found").

(** A world with no cursor at all. *)
Definition fresh_world : Indexer.world := Indexer.mk_world empty_db [].

End IndexerSpec.
Export IndexerSpec.

Module ReconciliationSpec.
Import Reconciliation.

Inductive verdict := Updated | Matched | Failed.

#[global] Instance verdict_eq_dec : EqDecision verdict.
Proof. solve_decision. Defined.

(** What the pass decides for one row of the snapshot. *)
Definition verdict_of (c : contract) (dbCampaign : Z * campaign_row) : verdict :=
  match campaigns_read c dbCampaign.1 1%nat with
  | Throw _ => Failed
  | Ok chainCampaign =>
      if needs_reconciliation chainCampaign dbCampaign.2 then Updated else Matched
  end.

Definition count_verdict (c : contract) (v : verdict) (rows : list (Z * campaign_row)) : nat :=
  length (filter (fun kv => verdict_of c kv = v) rows).

(** The update and the log row the pass issues for one row of the snapshot,
    if any; [numeric_of_number] is the database's conversion. *)
Definition healing (numeric_of_number : float -> Z) (c : contract) (now : Z)
  (dbCampaign : Z * campaign_row) : option (Z * (campaign_row -> campaign_row)) :=
  match campaigns_read c dbCampaign.1 1%nat with
  | Throw _ => None
  | Ok chainCampaign =>
      if needs_reconciliation chainCampaign dbCampaign.2
      then Some (dbCampaign.1,
                 reconcile_row numeric_of_number (chainAmountRaised chainCampaign)
                   (cs_ended chainCampaign) now)
      else None
  end.

Definition logged (numeric_of_number : float -> Z) (c : contract) (now : Z)
  (dbCampaign : Z * campaign_row) : option log_row :=
  match campaigns_read c dbCampaign.1 1%nat with
  | Throw _ => None
  | Ok chainCampaign =>
      if needs_reconciliation chainCampaign dbCampaign.2
      then Some (reconciliation_entry numeric_of_number dbCampaign.1 chainCampaign
                   dbCampaign.2 now)
      else None
  end.

(** One conversion a database could apply to a bound number: its exact binary
    value rounded to 8 decimals, half away from zero. *)
Definition exact_units (x : float) : Z :=
  let '(m, e) := PrimFloat.frshiftexp (PrimFloat.abs x) in
  let mantissa := Uint63.to_Z (PrimFloat.normfr_mantissa m) in
  let exponent := Uint63.to_Z e - 2101 - 53 in
  let scaled := mantissa * 10 ^ 8 in
  let q :=
    if 0 <=? exponent then scaled * 2 ^ exponent
    else (2 * scaled + 2 ^ (- exponent)) / (2 * 2 ^ (- exponent)) in
  if PrimFloat.ltb x 0 then - q else q.

(** The columns of a campaign row that reconciliation has no business with. *)
Definition descriptive_columns (r : campaign_row)
  : string * string * Z * string * Z * string * Z * string * string :=
  (c_name r, c_description r, c_target_amount r, c_social_link r, c_image_id r,
   c_creator r, c_created_at r, c_chain r, c_tx_hash r).

(** The database hands back what reconciliation stored: a canonical amount
    written as a number and read again parses to the same number. *)
Definition stores_faithfully (numeric_of_number : float -> Z) (c : contract) : Prop :=
  forall campaignId chainCampaign,
    campaigns_read c campaignId 1%nat = Ok chainCampaign ->
    Float64.parseFloat (numeric_of_number (chainAmountRaised chainCampaign))
      STABLE_TOKEN_DECIMALS
    = chainAmountRaised chainCampaign.

End ReconciliationSpec.
Export ReconciliationSpec.

Module RelaySpec.
Import Relay.

(** The number of pending rows of a wallet. *)
Definition pending_count (address : string) (w : world) : nat :=
  length (List.filter (is_pending_for address) (rows w)).



(** The ways [sendDonationTransaction] can end. *)
Inductive submission (id : Z) (wl : wallet) (e : env) (w : world) : world -> Prop :=
| submission_skipped balance :
    getBalance_send e (wallet_address wl) = Ok balance ->
    balance < hard_floor ->
    submission id wl e w w
| submission_sent tx hash nonce :
    send e tx = Ok hash ->
    submission id wl e w (update_row id (set_submitted hash nonce) (post tx w))
| submission_failed :
    (forall balance, getBalance_send e (wallet_address wl) = Ok balance ->
       hard_floor <= balance) ->
    submission id wl e w (update_row id (set_status failed (now e)) w).

(** The primary key of [direct_donations]: ids are distinct and below the
    serial counter. *)
Definition well_keyed (w : world) : Prop :=
  NoDup (dd_id <$> rows w) /\ Forall (fun i => i < next_id w) (dd_id <$> rows w).

(** [w'] has the same ids and serial counter as [w], and every row of [w]
    whose id is not [id] is still there. *)
Definition touches_only (id : Z) (w w' : world) : Prop :=
  dd_id <$> rows w' = dd_id <$> rows w /\
  next_id w' = next_id w /\
  forall d, d ∈ rows w -> dd_id d <> id -> d ∈ rows w'.

Definition keeps_id (f : direct_donation -> direct_donation) : Prop :=
  forall d, dd_id (f d) = dd_id d.

(** An update that changes neither the wallet nor the status of a row. *)
Definition keeps_pending (f : direct_donation -> direct_donation) : Prop :=
  forall address d, is_pending_for address (f d) = is_pending_for address d.

(** The columns of a donation row that are written once, by the insert. *)
Definition donation_identity (d : direct_donation) : Z * Z * string * float * string * Z :=
  (dd_id d, dd_campaign_id d, dd_wallet_address d, dd_amount d, dd_source_tx_hash d,
   dd_created_at d).

(** An update that leaves the write-once columns alone. *)
Definition keeps_identity (f : direct_donation -> direct_donation) : Prop :=
  forall d, donation_identity (f d) = donation_identity d.

(** What a step may do to the ledger and the outbox: keep the write-once
    columns of every row, add rows only at the end, and hand at most [n]
    more transactions to the node. *)
Definition extends_by (n : nat) (w w2 : world) : Prop :=
  donation_identity <$> rows w `prefix_of` donation_identity <$> rows w2 /\
  exists sent, outbox w2 = outbox w ++ sent /\ (length sent <= n)%nat.

(** ** Sample inputs *)

Definition sample_wallet : wallet := mk_wallet 7 "0xwallet" "0xkey".

Definition sample_fee : feeData := mk_fee (Some 100) (Some 30) (Some 90).

(** A node on which nothing confirms: no receipts, the pending transaction
    is still known with nonce 5, and every submission is accepted. *)
Definition congested : env :=
  mk_env (fun _ => Ok None) (fun _ => Ok (Some (Some 5))) (Ok sample_fee)
    (fun _ => Ok 0) (fun _ => Ok 0) (fun _ _ => Ok 50000) (fun _ => Ok 6)
    (fun _ => Ok "0xreplacement") 100.

(** A wallet whose balance (in wei) is [balance] on a node that accepts
    submissions. *)
Definition funded (balance : Z) : env :=
  mk_env (fun _ => Ok None) (fun _ => Ok None) (Ok sample_fee)
    (fun _ => Ok balance) (fun _ => Ok balance) (fun _ _ => Ok 50000) (fun _ => Ok 6)
    (fun _ => Ok "0xdonation") 100.

Definition submitted_row : direct_donation :=
  mk_dd 1 7 "0xwallet" 2%float pending "balance-check-1" (Some "0xold") (Some 0) (Some 5)
    1 None.

Definition unsent_row : direct_donation :=
  mk_dd 1 7 "0xwallet" 2%float pending "balance-check-1" None (Some 0) None 1 None.

Definition failed_row : direct_donation :=
  mk_dd 1 7 "0xwallet" 2%float failed "balance-check-1" None (Some 0) None 1 (Some 2).

Definition empty_world : world := mk_world [] 1 [].

(** A node that reports the receipt [receipt_status] for every hash. *)
Definition confirming (receipt_status : Z) : env :=
  mk_env (fun _ => Ok (Some receipt_status)) (fun _ => Ok None) (Ok sample_fee)
    (fun _ => Ok 0) (fun _ => Ok 0) (fun _ _ => Ok 50000) (fun _ => Ok 6)
    (fun _ => Ok "0xdonation") 100.

End RelaySpec.
Export RelaySpec.

Module MigrationsSpec.
Import Migrations.

(** A migration is recorded when its name is in the [migrations] table. *)
Definition recorded {Schema} (db : database Schema) (n : string) : Prop :=
  exists names, migrations_table db = Some names /\ n ∈ names.

(** The names in the table, none while it does not exist. *)
Definition recorded_names {Schema} (db : database Schema) : list string :=
  default [] (migrations_table db).

(** The migrations of [ms] that are not in [names], in order. *)
Definition pending {Schema} (names : list string) (ms : list (migration Schema))
  : list (migration Schema) :=
  filter (fun m => name m ∉ names) ms.

(** Running the [up] of each of [ms] in order, until one throws. *)
Fixpoint apply_ups {Schema} (ms : list (migration Schema)) (s : Schema)
  : result unit * Schema :=
  match ms with
  | [] => (Ok tt, s)
  | m :: rest =>
      match up m s with
      | (Ok _, s') => apply_ups rest s'
      | (Throw e, s') => (Throw e, s')
      end
  end.

(** What running the pending migrations [ps] records and leaves. *)
Fixpoint run_pending {Schema} (ps : list (migration Schema)) (names : list string)
  (s : Schema) : result unit * database Schema :=
  match ps with
  | [] => (Ok tt, mk_database (Some names) s)
  | m :: rest =>
      match up m s with
      | (Ok _, s') => run_pending rest (names ++ [name m]) s'
      | (Throw e, s') => (Throw e, mk_database (Some names) s')
      end
  end.

(** Sample modules over a schema that is the list of migrations applied:
    each [up] appends its number, and [up] of 003 throws when [broken]. *)
Definition sample_modules (broken : bool) : migration_modules (list Z) :=
  mk_modules (fun s => (Ok tt, s ++ [1])) (fun s => (Ok tt, s ++ [2]))
    (fun s => if broken then (Throw "relation already exists", s) else (Ok tt, s ++ [3]))
    (fun s => (Ok tt, s ++ [4])).

End MigrationsSpec.

Module StartupSpec.
Import Startup.

(** A network with both its RPC URL and its contract address set. *)
Definition configured (entry : string * network_settings) : Prop :=
  unset (rpc entry.2) = false /\ unset (contractAddress entry.2) = false.

(** Every contract handle comes with the provider it is bound to. *)
Definition contracts_have_providers {Provider Contract} (h : handles Provider Contract) : Prop :=
  forall network, is_Some (contracts h !! network) -> is_Some (providers h !! network).

(** A configuration of a main chain and a remote chain; the remote one has
    no contract address when [complete] is off. *)
Definition sample_networks (complete : bool) : list (string * network_settings) :=
  [("polygon", mk_settings (Some "https://polygon.example") (Some "0xmain") true);
   ("base", mk_settings (Some "https://base.example")
              (if complete then Some "0xremote" else None) false)].

End StartupSpec.

Module ApiSpec.
Import Api.

(** No two wallets share an address, and no campaign has two wallets. *)
Definition wallets_unique (t : tables) : Prop :=
  NoDup (cw_wallet_address <$> campaign_wallets t) /\
  NoDup (cw_campaign_id <$> campaign_wallets t).

(** A stand-in for the key derivation: the digest is the message itself and
    every key has the address [0xaddress-of-] followed by the key. *)
Definition sample_hmac (key message : string) : string := message.
Definition sample_address (privateKey : string) : result string :=
  Ok ("0xaddress-of-" +:+ privateKey).

End ApiSpec.

Module FunditMainSpec.
Import FunditMain.
Local Open Scope N_scope.

(** The states the contract can be in: as the constructor leaves it, and
    after any call that did not revert. *)
Inductive reachable : state -> Prop :=
| reachable_deployed _endpoint _feeWallet _vaultWallet _feeBasisPoints m st :
    constructor _endpoint _feeWallet _vaultWallet _feeBasisPoints m = Ok st ->
    reachable st
| reachable_call x c m st st' :
    reachable st -> exec x c m st = Ok st' -> reachable st'.

(** No account has withdrawn more than its ended campaigns raised. *)
Definition solvent (st : state) : Prop :=
  forall account,
    balance_at (userWithdrawnBalance st) account
    <= balance_at (creatorEndedBalance st) account.

(** The net amount the [DonationMade] events of a log carry for a campaign. *)
Definition donated (campaignId : N) (log : list event) : N :=
  foldr (fun ev acc =>
           match ev with
           | DonationMade id _ netUSDValue => if id =? campaignId then netUSDValue + acc else acc
           | _ => acc
           end) 0 log.

(** The [WithdrawalProcessed] events of a log that name a request. *)
Definition processed_events (requestId : N) (log : list event) : list event :=
  List.filter (fun ev => match ev with
                         | WithdrawalProcessed id _ _ _ _ => id =? requestId
                         | _ => false
                         end) log.

(** ** Sample inputs *)

(** Feeds that price every asset at 2.00000000, tokens of 18 decimals, and
    wallets and tokens that accept every transfer. *)
Definition sample_externals : externals :=
  mk_externals (fun _ => Ok 200000000%Z) (fun _ => Ok 18) (fun _ _ => true)
    (fun _ _ _ => Ok tt) (fun _ _ _ => Ok tt).

Definition owner_account : N := 1000.
Definition creator_account : N := 2000.
Definition donor_account : N := 3000.

(** Calls in order, each by its sender, with its value and with what the
    outside answers at that moment; a call that reverts ends the run. *)
Fixpoint run (calls : list (externals * call * msg)) (st : state) : result state :=
  match calls with
  | [] => Ok st
  | (x, c, m) :: rest => st' ← exec x c m st; run rest st'
  end.

(** Deployment with a fee of 1.4%, the native price feed set, a campaign
    created by [creator_account], and [n] native donations of one coin each. *)
Definition sample_history (n : nat) : result state :=
  st ← constructor 1 10 20 14 (mk_msg owner_account 0);
  run
    ([(sample_externals, SetPriceFeed 0 500, mk_msg owner_account 0);
      (sample_externals, SetPriceFeed 600 700, mk_msg owner_account 0);
      (sample_externals,
       CreateCampaign "Well" 100000000000 "A village well" "https://example.org" 3,
       mk_msg creator_account 0)]
     ++ replicate n (sample_externals, Donate 1 0 0, mk_msg donor_account (10 ^ 18)))
    st.

(** The state [sample_history] leaves. *)
Definition sample_state (n : nat) : state :=
  match sample_history n with
  | Ok st => st
  | Throw _ => mk_state 0 false ∅ 0 ∅ 0 ∅ ∅ ∅ ∅ ∅ 0 0 0 0 ∅ false [] []
  end.

(** The state a run leaves, the state it started from when it reverts. *)
Definition after (calls : list (externals * call * msg)) (st : state) : state :=
  match run calls st with
  | Ok st' => st'
  | Throw _ => st
  end.

(** The creator ends campaign 1 and requests a withdrawal of one token 600;
    the owner processes the request. *)
Definition sample_payout : list (externals * call * msg) :=
  [(sample_externals, EndCampaign 1, mk_msg creator_account 0);
   (sample_externals, RequestWithdrawal (10 ^ 18) 600 137, mk_msg creator_account 0);
   (sample_externals, ProcessWithdrawalRequest 1, mk_msg owner_account 0)].

(** [creator_account] creates a second campaign. *)
Definition sample_creation : externals * call * msg :=
  (sample_externals, CreateCampaign "School" 5000000000 "A school" "" 4,
   mk_msg creator_account 0).

(** ** What a call may change *)

(** What one call that did not revert can have done to the campaigns, the
    withdrawal requests and the log. *)
Definition step_effect (st st' : state) : Prop :=
  campaignCount st <= campaignCount st' /\
  withdrawalRequestCount st <= withdrawalRequestCount st' /\
  exists new,
    events st' = events st ++ new /\
    (forall id, id <= campaignCount st ->
       totalStable (campaign_at st' id) = totalStable (campaign_at st id) + donated id new /\
       (ended (campaign_at st id) = true -> campaign_at st' id = campaign_at st id)) /\
    (forall id, id <= withdrawalRequestCount st -> processed (request_at st id) = true ->
       request_at st' id = request_at st id /\ processed_events id new = []).

(** The campaign ids that the [CampaignCreated] events of a log announce. *)
Definition created_ids (log : list event) : list N :=
  omap (fun ev => match ev with
                  | CampaignCreated campaignId _ => Some campaignId
                  | _ => None
                  end) log.

(** [n] consecutive ids after [count]. *)
Definition next_ids (count : N) (n : nat) : list N :=
  (fun k => count + 1 + N.of_nat k) <$> seq 0 n.

(** The campaigns a step adds are announced with consecutive ids. *)
Definition creates (st st' : state) : Prop :=
  exists new n,
    events st' = events st ++ new /\
    campaignCount st' = campaignCount st + N.of_nat n /\
    created_ids new = next_ids (campaignCount st) n.

End FunditMainSpec.

(** * Properties *)

Ltac result_simpl H :=
  cbn [mbind result_bind mret result_ret] in H; unfold mbind, result_bind in H.

Ltac bind_case H x :=
  match type of H with
  | context [match ?m with Ok _ => _ | Throw _ => _ end] =>
      destruct m as [x|] eqn:?; [|discriminate H]
  end.

(** ** The event categories leave the cursor alone *)

Lemma indexer_state_foldl {B} (step : db -> B -> db) (xs : list B) (d : db) :
  (forall d' x, indexer_state (step d' x) = indexer_state d') ->
  indexer_state (foldl step d xs) = indexer_state d.
Proof.
  intros Hstep. revert d. induction xs as [|x xs IH]; intros d; simpl; [done|].
  by rewrite IH, Hstep.
Qed.

Lemma indexCampaignEvents_body_cursor c network fromBlock toBlock now d d' :
  indexCampaignEvents_body c network fromBlock toBlock now d = Ok d' ->
  indexer_state d' = indexer_state d.
Proof.
  unfold indexCampaignEvents_body. intros H. result_simpl H.
  bind_case H created. bind_case H edited. bind_case H ended.
  bind_case H dataMap. bind_case H txs.
  injection H as <-. simpl.
  rewrite indexer_state_foldl; [done|].
  intros d0 x. unfold edited_step. by destruct (dataMap !! _).
Qed.

Lemma indexDonationEvents_body_cursor c network fromBlock toBlock now d d' :
  indexDonationEvents_body c network fromBlock toBlock now d = Ok d' ->
  indexer_state d' = indexer_state d.
Proof.
  unfold indexDonationEvents_body, insert_donations. intros H. result_simpl H.
  bind_case H evs.
  destruct (forallb _ _); [|done].
  by injection H as <-.
Qed.

Lemma indexWithdrawalEvents_body_cursor c network fromBlock toBlock now d d' :
  indexWithdrawalEvents_body c network fromBlock toBlock now d = Ok d' ->
  indexer_state d' = indexer_state d.
Proof.
  unfold indexWithdrawalEvents_body. intros H. result_simpl H.
  bind_case H reqs. bind_case H procs.
  injection H as <-.
  rewrite indexer_state_foldl; [done|].
  intros d0 x. unfold processed_step. by destruct (withdrawals d0 !! _).
Qed.

Lemma transaction_frame body w r w' :
  (forall d d', body d = Ok d' -> indexer_state d' = indexer_state d) ->
  transaction body w = (r, w') ->
  indexer_state (w_db w') = indexer_state (w_db w) /\ w_journal w' = w_journal w.
Proof.
  unfold transaction. intros Hb H. destruct (body (w_db w)) as [d'|] eqn:E.
  - injection H as <- <-. simpl. eauto.
  - by injection H as <- <-.
Qed.

Lemma indexNetworkChunk_spec cfg network now fromBlock toBlock w :
  exists r w',
    indexNetworkChunk cfg network now fromBlock toBlock w = (r, w') /\
    indexer_state (w_db w') = indexer_state (w_db w) /\
    w_journal w' = w_journal w ++ [ChunkIndexed network fromBlock toBlock] /\
    (forall b, r = Ok b -> b = toBlock).
Proof.
  unfold indexNetworkChunk, bindM, retM, indexCampaignEvents, indexDonationEvents,
    indexWithdrawalEvents.
  destruct (isMain cfg); simpl.
  2: { eexists _, _. split; [done|]. simpl. split_and!; try done. by intros b [= <-]. }
  set (w0 := journal _ w).
  destruct (transaction (indexCampaignEvents_body _ _ _ _ _) w0) as [r1 w1] eqn:E1.
  apply transaction_frame in E1 as [S1 J1]; [|apply indexCampaignEvents_body_cursor].
  destruct r1; [|eexists _, _; split; [done|]; rewrite S1, J1; split_and!; done].
  destruct (transaction (indexDonationEvents_body _ _ _ _ _) w1) as [r2 w2] eqn:E2.
  apply transaction_frame in E2 as [S2 J2]; [|apply indexDonationEvents_body_cursor].
  destruct r2; [|eexists _, _; split; [done|]; rewrite S2, J2, S1, J1; split_and!; done].
  destruct (transaction (indexWithdrawalEvents_body _ _ _ _ _) w2) as [r3 w3] eqn:E3.
  apply transaction_frame in E3 as [S3 J3]; [|apply indexWithdrawalEvents_body_cursor].
  destruct r3; eexists _, _; (split; [done|]); rewrite S3, J3, S2, J2, S1, J1;
    split_and!; try done. by intros b [= <-].
Qed.

(** ** Chunking of a block range *)

Lemma last_end_cons c cs d : last_end (c :: cs) d = last_end cs c.2.
Proof.
  unfold last_end. rewrite fmap_cons. generalize (c.2) as x. generalize (cs.*2) as l.
  clear. intros l. revert d. induction l as [|y l IH]; intros d x; [done|].
  change (List.last (x :: y :: l) d) with (List.last (y :: l) d).
  by rewrite !IH.
Qed.

Lemma chunks_loop_stop fuel i toBlock : toBlock <= i -> chunks_loop fuel i toBlock = [].
Proof.
  intros. destruct fuel; simpl; [done|]. destruct (Z.ltb_spec i toBlock); [lia|done].
Qed.

Lemma chunks_loop_chained fuel i toBlock :
  chained i (chunks_loop fuel i toBlock).
Proof.
  assert (HM : MAX_BLOCK_RANGE = 10000) by done.
  revert i. induction fuel as [|fuel IH]; intros i; simpl; [done|].
  destruct (Z.ltb_spec i toBlock) as [Hlt|Hge]; simpl; [|done].
  split_and!; try lia.
  destruct (Z.le_gt_cases (i + MAX_BLOCK_RANGE - 1) toBlock) as [Hle|Hgt].
  - replace (Z.min (i + MAX_BLOCK_RANGE - 1) toBlock + 1) with (i + MAX_BLOCK_RANGE) by lia.
    apply IH.
  - rewrite chunks_loop_stop by lia. done.
Qed.

Lemma chunks_loop_last fuel i toBlock d :
  (Z.to_nat (toBlock - i) <= fuel)%nat ->
  i < toBlock ->
  toBlock - 1 <= last_end (chunks_loop fuel i toBlock) d <= toBlock /\
  ((toBlock - i) `mod` MAX_BLOCK_RANGE <> 0 ->
   last_end (chunks_loop fuel i toBlock) d = toBlock).
Proof.
  assert (HM : MAX_BLOCK_RANGE = 10000) by done.
  revert i d. induction fuel as [|fuel IH]; intros i d Hfuel Hlt; [lia|].
  simpl. destruct (Z.ltb_spec i toBlock) as [_|]; [|lia].
  rewrite last_end_cons. cbn [snd].
  destruct (Z.ltb_spec (i + MAX_BLOCK_RANGE) toBlock) as [Hmore|Hstop].
  - destruct (IH (i + MAX_BLOCK_RANGE) (Z.min (i + MAX_BLOCK_RANGE - 1) toBlock))
      as [IH1 IH2]; [lia|lia|].
    split; [exact IH1|]. intros Hmod. apply IH2.
    replace (toBlock - (i + MAX_BLOCK_RANGE))
      with (toBlock - i + (-1) * MAX_BLOCK_RANGE) by lia.
    by rewrite Z_mod_plus_full.
  - rewrite chunks_loop_stop by lia. unfold last_end. simpl.
    split; [lia|]. intros Hmod.
    assert (toBlock - i <> MAX_BLOCK_RANGE).
    { intros Heq. rewrite Heq in Hmod. by rewrite Z_mod_same_full in Hmod. }
    lia.
Qed.

Lemma chunks_chained fromBlock toBlock : chained fromBlock (chunks fromBlock toBlock).
Proof. apply chunks_loop_chained. Qed.

Lemma chunks_last fromBlock toBlock d :
  fromBlock < toBlock ->
  toBlock - 1 <= last_end (chunks fromBlock toBlock) d <= toBlock /\
  ((toBlock - fromBlock) `mod` MAX_BLOCK_RANGE <> 0 ->
   last_end (chunks fromBlock toBlock) d = toBlock).
Proof. intros. by apply chunks_loop_last. Qed.

(** The loop stops on its condition, not for lack of fuel: any larger fuel
    gives the same chunks. *)
Lemma chunks_loop_fuel_irrelevant f1 f2 i toBlock :
  (Z.to_nat (toBlock - i) <= f1)%nat ->
  (Z.to_nat (toBlock - i) <= f2)%nat ->
  chunks_loop f1 i toBlock = chunks_loop f2 i toBlock.
Proof.
  assert (HM : MAX_BLOCK_RANGE = 10000) by done.
  revert f2 i. induction f1 as [|f1 IH]; intros f2 i H1 H2.
  - by rewrite !chunks_loop_stop by lia.
  - destruct (Z.le_gt_cases toBlock i) as [Hge|Hlt].
    { by rewrite !chunks_loop_stop by lia. }
    destruct f2 as [|f2]; [lia|]. simpl.
    destruct (Z.ltb_spec i toBlock); [|lia]. f_equal. apply IH; lia.
Qed.

Lemma chunks_loop_fuel fuel i toBlock :
  (Z.to_nat (toBlock - i) <= fuel)%nat ->
  chunks_loop fuel i toBlock = chunks i toBlock.
Proof. intros. by apply chunks_loop_fuel_irrelevant. Qed.

Lemma cursor_upsert network block now w :
  cursor (w_db (upsert_cursor network block now w).2) network = Some block.
Proof. unfold cursor, upsert_cursor. simpl. by rewrite lookup_insert_eq. Qed.

Lemma run_chunks_spec cfg network now cs last w :
  exists r w',
    run_chunks cfg network now cs last w = (r, w') /\
    indexer_state (w_db w') = indexer_state (w_db w) /\
    match r with
    | Ok b => b = last_end cs last /\ w_journal w' = w_journal w ++ entries network cs
    | Throw _ => exists k, w_journal w' = w_journal w ++ entries network (take k cs)
    end.
Proof.
  revert last w. induction cs as [|[chunkFrom chunkTo] rest IH]; intros last w.
  - eexists _, _. split; [done|]. simpl. by rewrite app_nil_r.
  - simpl. unfold bindM.
    destruct (indexNetworkChunk_spec cfg network now chunkFrom chunkTo w)
      as (r & w1 & -> & S1 & J1 & R1).
    destruct r as [b|e].
    + rewrite (R1 b eq_refl).
      destruct (IH chunkTo w1) as (r2 & w2 & -> & S2 & R2).
      eexists _, _. split; [done|]. split; [congruence|].
      destruct r2.
      * destruct R2 as [-> ->]. rewrite last_end_cons, J1, <- app_assoc. done.
      * destruct R2 as [k ->]. exists (S k). rewrite J1, <- app_assoc. done.
    + eexists _, _. split; [done|]. split; [done|]. exists 1%nat.
      rewrite J1. done.
Qed.

(** A range within [MAX_BLOCK_RANGE]: one chunk, then one cursor write. *)
Lemma indexNetwork_small cfg network now fromBlock toBlock w :
  toBlock - fromBlock <= MAX_BLOCK_RANGE ->
  exists r w',
    indexNetwork cfg network now fromBlock toBlock w = (r, w') /\
    match r with
    | Ok b =>
        b = toBlock /\
        cursor (w_db w') network = Some toBlock /\
        w_journal w' = w_journal w
          ++ [ChunkIndexed network fromBlock toBlock; CursorWrite network toBlock]
    | Throw _ =>
        indexer_state (w_db w') = indexer_state (w_db w) /\
        w_journal w' = w_journal w ++ [ChunkIndexed network fromBlock toBlock]
    end.
Proof.
  intros Hsmall. unfold indexNetwork.
  destruct (Z.gtb_spec (toBlock - fromBlock) MAX_BLOCK_RANGE); [lia|].
  unfold bindM.
  destruct (indexNetworkChunk_spec cfg network now fromBlock toBlock w)
    as (r & w1 & -> & S1 & J1 & R1).
  destruct r as [b|e]; eexists _, _; (split; [done|]); [|done].
  rewrite (R1 b eq_refl). cbn [retM upsert_cursor]. split; [done|].
  split; [apply cursor_upsert|]. simpl. rewrite J1, <- app_assoc. done.
Qed.

(** C7 (as the code has it).  A span with [toBlock - fromBlock > 10000] is cut
    into chunks that follow one another from [fromBlock], each of at most
    10000 blocks, ending at [toBlock] whenever [toBlock - fromBlock] is not a
    multiple of 10000 (and at [toBlock] or [toBlock - 1] in any case).
    [indexNetwork] always returns: either every chunk was indexed in order and
    the cursor was then written once, as the last journal entry, with the end
    of the last chunk; or a chunk failed, only a prefix of the chunks was
    started and the cursor was not written at all. *)
Theorem indexNetwork_chunked cfg network now fromBlock toBlock w :
  toBlock - fromBlock > MAX_BLOCK_RANGE ->
  let cs := chunks fromBlock toBlock in
  let last := last_end cs fromBlock in
  chained fromBlock cs /\
  toBlock - 1 <= last <= toBlock /\
  ((toBlock - fromBlock) `mod` MAX_BLOCK_RANGE <> 0 -> last = toBlock) /\
  exists r w',
    indexNetwork cfg network now fromBlock toBlock w = (r, w') /\
    match r with
    | Ok b =>
        b = last /\
        w_journal w' = w_journal w ++ entries network cs ++ [CursorWrite network last] /\
        cursor (w_db w') network = Some last
    | Throw _ =>
        (exists k, w_journal w' = w_journal w ++ entries network (take k cs)) /\
        indexer_state (w_db w') = indexer_state (w_db w)
    end.
Proof.
  intros Hbig cs last.
  assert (HM : MAX_BLOCK_RANGE = 10000) by done.
  split; [apply chunks_chained|].
  destruct (chunks_last fromBlock toBlock fromBlock) as [Hl1 Hl2]; [lia|].
  split; [exact Hl1|]. split; [exact Hl2|].
  unfold indexNetwork. destruct (Z.gtb_spec (toBlock - fromBlock) MAX_BLOCK_RANGE); [|lia].
  unfold bindM.
  destruct (run_chunks_spec cfg network now (chunks fromBlock toBlock) fromBlock w)
    as (r & w1 & -> & S1 & R1).
  destruct r as [b|e]; eexists _, _; (split; [done|]).
  - destruct R1 as [-> J1]. cbn [retM upsert_cursor]. split; [done|].
    split; [|apply cursor_upsert]. simpl. rewrite J1, <- app_assoc. done.
  - done.
Qed.

(** C7 witness: the span [1, 25000]. *)
Lemma indexNetwork_chunked_example :
  let w := mk_world empty_db [] in
  25000 - 1 > MAX_BLOCK_RANGE /\
  let cs := chunks 1 25000 in
  let last := last_end cs 1 in
  chained 1 cs /\
  25000 - 1 <= last <= 25000 /\
  ((25000 - 1) `mod` MAX_BLOCK_RANGE <> 0 -> last = 25000) /\
  exists r w',
    indexNetwork (mk_network true quiet) "polygon" 0 1 25000 w = (r, w') /\
    match r with
    | Ok b =>
        b = last /\
        w_journal w' = w_journal w ++ entries "polygon" cs ++ [CursorWrite "polygon" last] /\
        cursor (w_db w') "polygon" = Some last
    | Throw _ =>
        (exists k, w_journal w' = w_journal w ++ entries "polygon" (take k cs)) /\
        indexer_state (w_db w') = indexer_state (w_db w)
    end.
Proof.
  split; [unfold MAX_BLOCK_RANGE; lia|].
  apply (indexNetwork_chunked (mk_network true quiet) "polygon" 0 1 25000).
  unfold MAX_BLOCK_RANGE; lia.
Defined.

(** C7 as stated fails: the span [1, 10001] has 10001 blocks, more than
    10000, and is indexed as one chunk of 10001 blocks. *)
Lemma span_of_10001_blocks_is_not_split :
  let rw := indexNetwork (mk_network true quiet) "polygon" 0 1 10001 (mk_world empty_db []) in
  10001 - 1 + 1 > 10000 /\
  w_journal rw.2 = [ChunkIndexed "polygon" 1 10001; CursorWrite "polygon" 10001] /\
  ~ (10001 - 1 + 1 <= MAX_BLOCK_RANGE).
Proof. vm_compute. split_and!; [done|done|]. intros H. by apply H. Qed.

(** When [toBlock - fromBlock] is a multiple of 10000 the loop condition
    [i < toBlock] leaves the last block out; the cursor is written as the
    block before it, so the next run starts there. *)
Example aligned_span_skips_last_block :
  let rw := indexNetwork (mk_network true quiet) "polygon" 0 1 20001 (mk_world empty_db []) in
  chunks 1 20001 = [(1, 10000); (10001, 20000)] /\
  w_journal rw.2 = [ChunkIndexed "polygon" 1 10000; ChunkIndexed "polygon" 10001 20000;
                    CursorWrite "polygon" 20000] /\
  cursor (w_db rw.2) "polygon" = Some 20000.
Proof. vm_compute. done. Qed.

(** ** The scheduler *)

Lemma processNetworks_one_network e now w :
  processNetworks [e] now w = (run e now w).2.
Proof. reflexivity. Qed.

Lemma cursor_update_cursor network block now w c :
  cursor (w_db w) network = Some c ->
  cursor (w_db (update_cursor network block now w)) network = Some block.
Proof.
  unfold cursor, update_cursor. simpl. intros H.
  rewrite lookup_alter_eq. by destruct (indexer_state (w_db w) !! network).
Qed.

Lemma read_lastIndexedBlocks_cursor w network :
  read_lastIndexedBlocks w !! network = cursor (w_db w) network.
Proof. unfold read_lastIndexedBlocks, cursor. by rewrite lookup_fmap. Qed.

(** One run on a main chain whose provider answers [head] and whose cursor
    is [c], spelled out. *)
Lemma run_known network ctr now head c w :
  cursor (w_db w) network = Some c ->
  run (entry_of network (mk_input (Ok head) ctr now)) now w =
  let gap := head - c in
  let realtimeMode := gap <=? REALTIME_THRESHOLD in
  let jumpedAhead := gap >? MAX_ACCEPTABLE_GAP in
  let fromBlock :=
    if jumpedAhead then Z.max 1 (head - RECENT_HISTORY_BLOCKS) else c + 1 in
  let w1 := if jumpedAhead then update_cursor network (fromBlock - 1) now w else w in
  if fromBlock >? head then
    (mk_report (Some head) jumpedAhead realtimeMode None None None, w1)
  else
    let batchSize := if realtimeMode then REALTIME_BATCH_SIZE else CATCHUP_BATCH_SIZE in
    let toBlock := fromBlock + Z.min (head - fromBlock + 1) batchSize - 1 in
    let rw := indexNetwork (mk_network true ctr) network now fromBlock toBlock w1 in
    (mk_report (Some head) jumpedAhead realtimeMode (Some batchSize)
       (Some (fromBlock, toBlock))
       (match rw.1 with Ok b => Some b | Throw _ => None end), rw.2).
Proof.
  intros Hc. unfold run, processNetwork, entry_of. cbn.
  rewrite read_lastIndexedBlocks_cursor, Hc. cbn.
  destruct (head - c >? MAX_ACCEPTABLE_GAP); cbn;
    (destruct (_ >? head); [done|]); by destruct (indexNetwork _ _ _ _ _ _).
Qed.

(** C3.  On a run of a main chain whose head is more than 500000 blocks past
    the cursor [c] (with [0 <= c]), the scheduler first writes the cursor
    [max(1, head - 100000) - 1] and then indexes from block
    [max(1, head - 100000)] (a batch of 5000 blocks); the journal of the run is
    that cursor write, the chunk, and the cursor write of the indexer when the
    chunk succeeds. *)
Theorem jump_ahead network ctr now head c w :
  cursor (w_db w) network = Some c ->
  0 <= c ->
  head - c > MAX_ACCEPTABLE_GAP ->
  let target := Z.max 1 (head - RECENT_HISTORY_BLOCKS) in
  let toBlock := target + CATCHUP_BATCH_SIZE - 1 in
  let rw := run (entry_of network (mk_input (Ok head) ctr now)) now w in
  r_jumpedAhead rw.1 = true /\
  r_range rw.1 = Some (target, toBlock) /\
  exists tail,
    w_journal rw.2 =
      w_journal w ++ CursorWrite network (target - 1)
                  :: ChunkIndexed network target toBlock :: tail /\
    ((tail = [] /\ cursor (w_db rw.2) network = Some (target - 1)) \/
     (tail = [CursorWrite network toBlock] /\ cursor (w_db rw.2) network = Some toBlock)).
Proof.
  intros Hc Hpos Hgap target toBlock rw. subst rw.
  rewrite (run_known _ _ _ _ _ _ Hc). cbv zeta.
  unfold MAX_ACCEPTABLE_GAP, RECENT_HISTORY_BLOCKS, CATCHUP_BATCH_SIZE,
    REALTIME_BATCH_SIZE, REALTIME_THRESHOLD in *.
  destruct (Z.gtb_spec (head - c) 500000) as [_|]; [|lia].
  destruct (Z.leb_spec (head - c) 200) as [|_]; [lia|].
  fold target.
  destruct (Z.gtb_spec target head) as [|_]; [lia|].
  replace (target + Z.min (head - target + 1) 5000 - 1) with toBlock by lia.
  set (w1 := update_cursor network (target - 1) now w).
  destruct (indexNetwork_small (mk_network true ctr) network now target toBlock w1)
    as (r & w2 & E & R); [unfold MAX_BLOCK_RANGE; lia|].
  rewrite E. cbn. split; [done|]. split; [done|].
  destruct r as [b|e].
  - destruct R as (-> & Hcur & J). exists [CursorWrite network toBlock].
    split; [|by right]. rewrite J. subst w1. simpl. by rewrite <- app_assoc.
  - destruct R as (S & J). exists []. split.
    + rewrite J. subst w1. simpl. by rewrite <- app_assoc.
    + left. split; [done|]. unfold cursor. rewrite S. subst w1.
      by apply cursor_update_cursor with (c := c).
Qed.

(** C3 witness, scenario B of the specification: head 1000000, cursor 100;
    the cursor jumps to 899999 and indexing resumes at block 900000. *)
Lemma jump_ahead_scenario_B :
  let w := world_at "polygon" 100 in
  let rw := run (entry_of "polygon" (mk_input (Ok 1000000) quiet 1)) 1 w in
  (cursor (w_db w) "polygon" = Some 100 /\ 0 <= 100 /\ 1000000 - 100 > MAX_ACCEPTABLE_GAP) /\
  r_jumpedAhead rw.1 = true /\
  r_range rw.1 = Some (900000, 904999) /\
  exists tail,
    w_journal rw.2 =
      w_journal w ++ CursorWrite "polygon" 899999
                  :: ChunkIndexed "polygon" 900000 904999 :: tail /\
    ((tail = [] /\ cursor (w_db rw.2) "polygon" = Some 899999) \/
     (tail = [CursorWrite "polygon" 904999] /\ cursor (w_db rw.2) "polygon" = Some 904999)).
Proof.
  split.
  - split; [reflexivity|]. unfold MAX_ACCEPTABLE_GAP. lia.
  - apply (jump_ahead "polygon" quiet 1 1000000 100 (world_at "polygon" 100)).
    + reflexivity.
    + lia.
    + unfold MAX_ACCEPTABLE_GAP. lia.
Defined.

Example scenario_B_journal :
  w_journal (run (entry_of "polygon" (mk_input (Ok 1000000) quiet 1)) 1
               (world_at "polygon" 100)).2 =
  [CursorWrite "polygon" 899999; ChunkIndexed "polygon" 900000 904999;
   CursorWrite "polygon" 904999].
Proof. vm_compute. reflexivity. Qed.

(** C6.  On a run without jump-ahead ([head - c <= 500000]) with blocks left
    to index ([c < head]), the batch size is 100 when [head - c <= 200] and
    5000 otherwise, and the range handed to the indexer is
    [[c + 1, min(head, c + 1 + batchSize - 1)]]. *)
Theorem batch_sizing network ctr now head c w :
  cursor (w_db w) network = Some c ->
  head - c <= MAX_ACCEPTABLE_GAP ->
  c < head ->
  let gap := head - c in
  let batchSize :=
    if gap <=? REALTIME_THRESHOLD then REALTIME_BATCH_SIZE else CATCHUP_BATCH_SIZE in
  let fromBlock := c + 1 in
  let toBlock := Z.min head (fromBlock + batchSize - 1) in
  let rw := run (entry_of network (mk_input (Ok head) ctr now)) now w in
  (gap <= 200 -> batchSize = 100) /\
  (gap > 200 -> batchSize = 5000) /\
  r_jumpedAhead rw.1 = false /\
  r_batchSize rw.1 = Some batchSize /\
  r_range rw.1 = Some (fromBlock, toBlock) /\
  exists tail,
    w_journal rw.2 = w_journal w ++ ChunkIndexed network fromBlock toBlock :: tail /\
    ((tail = [] /\ cursor (w_db rw.2) network = Some c) \/
     (tail = [CursorWrite network toBlock] /\ cursor (w_db rw.2) network = Some toBlock)).
Proof.
  intros Hc Hgap Hlt gap batchSize fromBlock toBlock rw. subst rw.
  rewrite (run_known _ _ _ _ _ _ Hc). cbv zeta.
  unfold MAX_ACCEPTABLE_GAP, RECENT_HISTORY_BLOCKS, CATCHUP_BATCH_SIZE,
    REALTIME_BATCH_SIZE, REALTIME_THRESHOLD in *.
  destruct (Z.gtb_spec (head - c) 500000) as [|_]; [lia|].
  destruct (Z.gtb_spec (c + 1) head) as [|_]; [lia|].
  fold gap batchSize fromBlock.
  assert (Hb : (gap <= 200 -> batchSize = 100) /\ (gap > 200 -> batchSize = 5000)).
  { subst batchSize. destruct (Z.leb_spec gap 200); lia. }
  replace (fromBlock + Z.min (head - fromBlock + 1) batchSize - 1) with toBlock by lia.
  destruct (indexNetwork_small (mk_network true ctr) network now fromBlock toBlock w)
    as (r & w2 & E & R); [unfold MAX_BLOCK_RANGE; lia|].
  rewrite E. cbn. split; [apply Hb|]. split; [apply Hb|]. do 3 (split; [done|]).
  destruct r as [b|e].
  - destruct R as (-> & Hcur & J). exists [CursorWrite network toBlock].
    split; [|by right]. by rewrite J.
  - destruct R as (S & J). exists []. split; [done|].
    left. split; [done|]. unfold cursor. by rewrite S.
Qed.

(** C6 witness, scenario A of the specification: head 1000, cursor 950 give
    the range [951, 1000] with batch size 100. *)
Lemma batch_sizing_scenario_A :
  let w := world_at "polygon" 950 in
  let rw := run (entry_of "polygon" (mk_input (Ok 1000) quiet 1)) 1 w in
  (cursor (w_db w) "polygon" = Some 950 /\ 1000 - 950 <= MAX_ACCEPTABLE_GAP /\ 950 < 1000) /\
  (50 <= 200 -> 100 = 100) /\
  (50 > 200 -> 100 = 5000) /\
  r_jumpedAhead rw.1 = false /\
  r_batchSize rw.1 = Some 100 /\
  r_range rw.1 = Some (951, 1000) /\
  exists tail,
    w_journal rw.2 = w_journal w ++ ChunkIndexed "polygon" 951 1000 :: tail /\
    ((tail = [] /\ cursor (w_db rw.2) "polygon" = Some 950) \/
     (tail = [CursorWrite "polygon" 1000] /\ cursor (w_db rw.2) "polygon" = Some 1000)).
Proof.
  split.
  - split; [reflexivity|]. unfold MAX_ACCEPTABLE_GAP. lia.
  - apply (batch_sizing "polygon" quiet 1 1000 950 (world_at "polygon" 950)).
    + reflexivity.
    + unfold MAX_ACCEPTABLE_GAP. lia.
    + lia.
Defined.

Lemma run_cursor network i w c :
  cursor (w_db w) network = Some c ->
  let rw := run (entry_of network i) (ri_now i) w in
  exists c', cursor (w_db rw.2) network = Some c' /\ c <= c' /\
    (r_jumpedAhead rw.1 = true ->
       exists head, ri_head i = Ok head /\ head - c > MAX_ACCEPTABLE_GAP).
Proof.
  intros Hc rw. subst rw. destruct i as [[head|err] ctr now]; cbn [ri_now].
  2: { exists c. by split_and!. }
  rewrite (run_known _ _ _ _ _ _ Hc). cbv zeta.
  unfold MAX_ACCEPTABLE_GAP, RECENT_HISTORY_BLOCKS, CATCHUP_BATCH_SIZE,
    REALTIME_BATCH_SIZE, REALTIME_THRESHOLD in *.
  destruct (Z.gtb_spec (head - c) 500000) as [Hjump|Hno].
  - set (target := Z.max 1 (head - 100000)).
    set (w1 := update_cursor network (target - 1) now w).
    assert (Hc1 : cursor (w_db w1) network = Some (target - 1))
      by (by apply cursor_update_cursor with (c := c)).
    destruct (Z.gtb_spec target head) as [|Hle].
    { exists (target - 1). split_and!; [done|lia|]. intros _. exists head. split; [done|lia]. }
    destruct (Z.leb_spec (head - c) 200) as [|_]; [lia|].
    set (toBlock := target + Z.min (head - target + 1) 5000 - 1).
    destruct (indexNetwork_small (mk_network true ctr) network now target toBlock w1)
      as (r & w2 & E & R); [unfold MAX_BLOCK_RANGE; lia|].
    rewrite E. cbn. destruct r as [b|e].
    + destruct R as (-> & Hcur & _). exists toBlock.
      split_and!; [done|lia|]. intros _. exists head. split; [done|lia].
    + destruct R as (S & _). exists (target - 1). unfold cursor in *. rewrite S.
      split_and!; [done|lia|]. intros _. exists head. split; [done|lia].
  - destruct (Z.gtb_spec (c + 1) head) as [|Hle].
    { exists c. by split_and!. }
    set (batchSize := if head - c <=? 200 then 100 else 5000).
    assert (100 <= batchSize <= 5000) by (subst batchSize; destruct (_ <=? _); lia).
    set (toBlock := c + 1 + Z.min (head - (c + 1) + 1) batchSize - 1).
    destruct (indexNetwork_small (mk_network true ctr) network now (c + 1) toBlock w)
      as (r & w2 & E & R); [unfold MAX_BLOCK_RANGE; lia|].
    rewrite E. cbn. destruct r as [b|e].
    + destruct R as (-> & Hcur & _). exists toBlock. split_and!; [done|lia|done].
    + destruct R as (S & _). exists c. unfold cursor in *. rewrite S. by split_and!.
Qed.

(** C5.  Over any sequence of scheduler runs on a chain, whatever the head,
    the events and the failures of each run: a run that does not take the
    jump-ahead path leaves [last_indexed_block] where it was or further, and a
    run takes the jump-ahead path only when the head is more than 500000
    blocks past the cursor. *)
Theorem cursor_monotone_except_jump network inputs w :
  cursor_discipline network inputs w.
Proof.
  revert w. induction inputs as [|i rest IH]; intros w; simpl; [done|].
  split; [|apply IH].
  intros c Hc. destruct (run_cursor network i w c Hc) as (c' & Hc' & Hle & Hj).
  exists c'. by split_and!.
Qed.

(** In this code even a jump ahead moves the cursor forward: over any
    sequence of runs the cursor never decreases. *)
Lemma runs_cursor_nondecreasing network inputs w c :
  cursor (w_db w) network = Some c ->
  exists c', cursor (w_db (runs network inputs w)) network = Some c' /\ c <= c'.
Proof.
  revert w c. induction inputs as [|i rest IH]; intros w c Hc; simpl.
  - exists c. done.
  - destruct (run_cursor network i w c Hc) as (c1 & Hc1 & Hle & _).
    destruct (IH _ _ Hc1) as (c' & Hc' & Hle'). exists c'. split; [done|lia].
Qed.

(** ** Donation events *)

Lemma donation_steps_lookup now evs (m : gmap Z campaign_row) id :
  c_amount_raised <$> foldl (donation_step now) m evs !! id =
  (fun r => c_amount_raised r + raised_by id evs) <$> m !! id.
Proof.
  revert m. induction evs as [|ev evs IH]; intros m; simpl.
  - destruct (m !! id); simpl; [f_equal; lia|done].
  - rewrite IH. unfold donation_step. rewrite lookup_alter.
    destruct (decide (dm_campaignId ev = id)) as [->|Hne]; simpl.
    + destruct (m !! id); simpl; [f_equal; lia|done].
    + done.
Qed.

Lemma donation_steps_is_Some now evs (m : gmap Z campaign_row) id :
  is_Some (foldl (donation_step now) m evs !! id) <-> is_Some (m !! id).
Proof.
  rewrite <- !(fmap_is_Some c_amount_raised), donation_steps_lookup.
  by rewrite !fmap_is_Some.
Qed.

Lemma foreign_keys_hold network now evs (d : db) :
  (forall ev, ev ∈ evs -> is_Some (campaigns d !! dm_campaignId ev)) ->
  insert_donations (donation_value network now <$> evs) d =
  Ok (set_donations (fun ds => ds ++ (donation_value network now <$> evs)) d).
Proof.
  intros Hfk. unfold insert_donations.
  rewrite (proj2 (forallb_forall _ _)); [done|].
  intros r Hr. apply list_elem_of_In, list_elem_of_fmap in Hr as (ev & -> & Hev).
  apply bool_decide_eq_true. simpl. auto.
Qed.

Lemma indexDonationEvents_body_ok c network fromBlock toBlock now d evs :
  withRetry (queryDonationMade c fromBlock toBlock) = Ok evs ->
  (forall ev, ev ∈ evs -> is_Some (campaigns d !! dm_campaignId ev)) ->
  indexDonationEvents_body c network fromBlock toBlock now d =
  Ok (mk_db (foldl (donation_step now) (campaigns d) evs)
        (donations d ++ (donation_value network now <$> evs))
        (transactions d ++ (donation_tx_value network now <$> evs))
        (withdrawals d) (indexer_state d)).
Proof.
  intros Hq Hfk. unfold indexDonationEvents_body. rewrite Hq. cbn.
  rewrite foreign_keys_hold by done. done.
Qed.

(** C1.  When the range holds the donation events [evs], all for mirrored
    campaigns (the foreign key of [donations]), each pass of the donation
    indexer succeeds, appends one donation row per event and adds to every
    campaign the net amounts of its events: after one pass [amount_raised] has
    grown by their sum, after a second pass over the same range by twice their
    sum, and the donation rows are there twice. *)
Theorem donation_replay_counts_twice c network fromBlock toBlock now1 now2 evs w :
  withRetry (queryDonationMade c fromBlock toBlock) = Ok evs ->
  (forall ev, ev ∈ evs -> is_Some (campaigns (w_db w) !! dm_campaignId ev)) ->
  let cfg := mk_network true c in
  let once := indexDonationEvents cfg network fromBlock toBlock now1 w in
  let twice := indexDonationEvents cfg network fromBlock toBlock now2 once.2 in
  once.1 = Ok tt /\ twice.1 = Ok tt /\
  donations (w_db once.2) = donations (w_db w) ++ (donation_value network now1 <$> evs) /\
  donations (w_db twice.2) =
    donations (w_db once.2) ++ (donation_value network now2 <$> evs) /\
  forall campaignId r,
    campaigns (w_db w) !! campaignId = Some r ->
    c_amount_raised <$> campaigns (w_db once.2) !! campaignId
      = Some (c_amount_raised r + raised_by campaignId evs) /\
    c_amount_raised <$> campaigns (w_db twice.2) !! campaignId
      = Some (c_amount_raised r + 2 * raised_by campaignId evs).
Proof.
  intros Hq Hfk cfg once twice.
  assert (E1 : once = (Ok tt, set_db (fun _ =>
      mk_db (foldl (donation_step now1) (campaigns (w_db w)) evs)
        (donations (w_db w) ++ (donation_value network now1 <$> evs))
        (transactions (w_db w) ++ (donation_tx_value network now1 <$> evs))
        (withdrawals (w_db w)) (indexer_state (w_db w))) w)).
  { subst once cfg. unfold indexDonationEvents. cbn [isMain negb contract_of].
    unfold transaction. by rewrite (indexDonationEvents_body_ok _ _ _ _ _ _ evs). }
  clearbody once. subst once. cbn [snd set_db w_db] in twice.
  set (d1 := mk_db _ _ _ _ _) in *.
  assert (Hfk1 : forall ev, ev ∈ evs -> is_Some (campaigns d1 !! dm_campaignId ev)).
  { intros ev Hev. apply donation_steps_is_Some. auto. }
  assert (E2 : twice = (Ok tt, set_db (fun _ =>
      mk_db (foldl (donation_step now2) (campaigns d1) evs)
        (donations d1 ++ (donation_value network now2 <$> evs))
        (transactions d1 ++ (donation_tx_value network now2 <$> evs))
        (withdrawals d1) (indexer_state d1)) (mk_world d1 (w_journal w)))).
  { subst twice cfg. unfold indexDonationEvents. cbn [isMain negb contract_of].
    unfold transaction. cbn [w_db].
    by rewrite (indexDonationEvents_body_ok _ _ _ _ _ _ evs). }
  clearbody twice. subst twice. cbn [fst snd set_db w_db donations campaigns].
  split_and!; try done.
  intros campaignId r Hr. rewrite !donation_steps_lookup.
  subst d1. cbn [campaigns].
  pose proof (donation_steps_lookup now1 evs (campaigns (w_db w)) campaignId) as H1.
  rewrite Hr in H1.
  destruct (foldl (donation_step now1) (campaigns (w_db w)) evs !! campaignId) as [r1|];
    simpl in H1 |- *; [|done].
  injection H1 as H1. split; f_equal; lia.
Qed.

(** C1 witness: one donation of 5.00000000 to campaign 7. *)
Lemma donation_replay_example :
  let w := world_with_campaign 0 in
  let evs := [mk_donationMade 7 "0xdonor" 500000000 "0xdonated"] in
  let cfg := mk_network true busy in
  let once := indexDonationEvents cfg "polygon" 1 100 10 w in
  let twice := indexDonationEvents cfg "polygon" 1 100 20 once.2 in
  (withRetry (queryDonationMade busy 1 100) = Ok evs /\
   (forall ev, ev ∈ evs -> is_Some (campaigns (w_db w) !! dm_campaignId ev))) /\
  once.1 = Ok tt /\ twice.1 = Ok tt /\
  donations (w_db once.2) = donations (w_db w) ++ (donation_value "polygon" 10 <$> evs) /\
  donations (w_db twice.2) =
    donations (w_db once.2) ++ (donation_value "polygon" 20 <$> evs) /\
  forall campaignId r,
    campaigns (w_db w) !! campaignId = Some r ->
    c_amount_raised <$> campaigns (w_db once.2) !! campaignId
      = Some (c_amount_raised r + raised_by campaignId evs) /\
    c_amount_raised <$> campaigns (w_db twice.2) !! campaignId
      = Some (c_amount_raised r + 2 * raised_by campaignId evs).
Proof.
  assert (Hfk : forall ev, ev ∈ [mk_donationMade 7 "0xdonor" 500000000 "0xdonated"] ->
            is_Some (campaigns (w_db (world_with_campaign 0)) !! dm_campaignId ev)).
  { intros ev Hev. apply list_elem_of_singleton in Hev. subst ev. by eexists. }
  split; [split; [reflexivity|exact Hfk]|].
  apply (donation_replay_counts_twice busy "polygon" 1 100 10 20
           [mk_donationMade 7 "0xdonor" 500000000 "0xdonated"] (world_with_campaign 0)).
  - reflexivity.
  - exact Hfk.
Defined.

Example donation_replay_amounts :
  let cfg := mk_network true busy in
  let once := indexDonationEvents cfg "polygon" 1 100 10 (world_with_campaign 0) in
  let twice := indexDonationEvents cfg "polygon" 1 100 20 once.2 in
  c_amount_raised <$> campaigns (w_db once.2) !! 7 = Some 500000000 /\
  c_amount_raised <$> campaigns (w_db twice.2) !! 7 = Some 1000000000 /\
  length (donations (w_db twice.2)) = 2%nat.
Proof. vm_compute. done. Qed.

(** ** Campaign lifecycle events *)

Section Overwrites.

Context {A B P : Type}.
Variable target : B -> option (Z * P).
Variable apply : P -> A -> A.
Hypothesis absorb : forall p q x, apply p (apply q x) = apply p x.

Lemma table_steps_lookup evs (m : gmap Z A) id :
  foldl (table_step target apply) m evs !! id =
  (fun r => foldl (row_step target apply id) r evs) <$> m !! id.
Proof.
  revert m. induction evs as [|ev evs IH]; intros m; simpl.
  - by destruct (m !! id).
  - rewrite IH. unfold table_step.
    assert (Hrow : forall r, row_step target apply id r ev =
              match target ev with
              | Some (id', p) => if decide (id' = id) then apply p r else r
              | None => r
              end) by done.
    destruct (target ev) as [[id' p]|].
    + rewrite lookup_alter. destruct (decide (id' = id)) as [->|].
      * destruct (m !! id); simpl; [|done]. by rewrite Hrow.
      * destruct (m !! id); simpl; [|done]. by rewrite Hrow.
    + destruct (m !! id); simpl; [|done]. by rewrite Hrow.
Qed.


End Overwrites.



Lemma campaigns_edited_steps dataMap network now evs d :
  campaigns (foldl (edited_step dataMap network now) d evs) =
  foldl (table_step (edited_target dataMap) (fun p => edit_row p now)) (campaigns d) evs.
Proof.
  revert d. induction evs as [|ev evs IH]; intros d; simpl; [done|].
  rewrite IH. f_equal. unfold edited_step, table_step, edited_target.
  by destruct (dataMap !! ce_campaignId ev).
Qed.

Lemma ended_steps_table now evs (m : gmap Z campaign_row) :
  foldl (ended_step now) m evs =
  foldl (table_step ended_target (fun p => end_row p now)) m evs.
Proof. done. Qed.



Lemma insert_campaign_keeps (kvs : list (Z * campaign_row)) (m : gmap Z campaign_row) id :
  is_Some (m !! id) -> is_Some (foldl insert_campaign m kvs !! id).
Proof.
  revert m. induction kvs as [|kv kvs IH]; intros m H; simpl; [done|].
  apply IH. unfold insert_campaign. destruct (m !! kv.1) eqn:E; [done|].
  rewrite lookup_insert_is_Some. destruct (decide (kv.1 = id)); auto.
Qed.

Lemma insert_campaign_inserted (kvs : list (Z * campaign_row)) (m : gmap Z campaign_row) kv :
  kv ∈ kvs -> is_Some (foldl insert_campaign m kvs !! kv.1).
Proof.
  revert m. induction kvs as [|kv' kvs IH]; intros m H; [by apply elem_of_nil in H|].
  apply elem_of_cons in H as [->|H]; simpl; [|by apply IH].
  apply insert_campaign_keeps. unfold insert_campaign.
  destruct (m !! kv'.1) eqn:E; [by rewrite E|]. by rewrite lookup_insert_eq.
Qed.



Lemma ended_tx_value_None (m : gmap Z campaign_row) network now ev :
  m !! cn_campaignId ev = None ->
  is_ok (ended_tx_value m network now ev) = false.
Proof. unfold ended_tx_value. by intros ->. Qed.


Lemma ended_txs_present (m : gmap Z campaign_row) network now evs txs :
  mapM (ended_tx_value m network now) evs = Ok txs ->
  forall ev, ev ∈ evs -> is_Some (m !! cn_campaignId ev).
Proof.
  revert txs. induction evs as [|ev evs IH]; intros txs H ev' Hin;
    [by apply elem_of_nil in Hin|].
  simpl in H.
  destruct (m !! cn_campaignId ev) eqn:E.
  - destruct (mapM _ evs) eqn:E2.
    + apply elem_of_cons in Hin as [->|Hin]; [by rewrite E|]. by eapply IH.
    + by destruct (ended_tx_value m network now ev).
  - pose proof (ended_tx_value_None _ network now _ E) as Hn.
    by destruct (ended_tx_value m network now ev).
Qed.

Lemma lifecycle_table_lookup dataMap network created edited ended now m id :
  lifecycle_table dataMap network created edited ended now m !! id =
  lifecycle_row dataMap edited ended now id
    <$> foldl insert_campaign m (omap (created_value dataMap network now) created) !! id.
Proof.
  unfold lifecycle_table, lifecycle_row. rewrite ended_steps_table.
  rewrite !table_steps_lookup. by destruct (_ !! id).
Qed.

Lemma indexCampaignEvents_body_campaigns c network fromBlock toBlock now d d' :
  indexCampaignEvents_body c network fromBlock toBlock now d = Ok d' ->
  exists created edited ended dataMap,
    withRetry (queryCampaignCreated c fromBlock toBlock) = Ok created /\
    withRetry (queryCampaignEdited c fromBlock toBlock) = Ok edited /\
    withRetry (queryCampaignEnded c fromBlock toBlock) = Ok ended /\
    prefetch_batches c
      (batches BATCH_SIZE
         (foldl set_add (foldl set_add [] (cc_campaignId <$> created))
            (ce_campaignId <$> edited))) ∅ = Ok dataMap /\
    campaigns d' = lifecycle_table dataMap network created edited ended now (campaigns d) /\
    (forall ev, ev ∈ ended -> is_Some (campaigns d' !! cn_campaignId ev)).
Proof.
  unfold indexCampaignEvents_body. intros H. result_simpl H.
  bind_case H created. bind_case H edited. bind_case H ended.
  bind_case H dataMap. bind_case H txs.
  injection H as <-. exists created, edited, ended, dataMap.
  split_and!; try done.
  - cbn [campaigns set_transactions set_campaigns]. unfold lifecycle_table.
    by rewrite campaigns_edited_steps.
  - cbn [campaigns set_transactions set_campaigns]. by eapply ended_txs_present.
Qed.






Example campaign_replay_rows :
  let cfg := mk_network true busy in
  let once := indexCampaignEvents cfg "polygon" 1 100 10 (Indexer.mk_world empty_db []) in
  let twice := indexCampaignEvents cfg "polygon" 1 100 20 once.2 in
  campaigns (w_db once.2) !! 7 =
    Some (mk_campaign "Well" "A village well" 100000000000 "https://example.org" 3
            "0xcreator" true 9000000 10 10 "polygon" "0xcreated" None) /\
  campaigns (w_db twice.2) !! 7 =
    Some (mk_campaign "Well" "A village well" 100000000000 "https://example.org" 3
            "0xcreator" true 9000000 10 20 "polygon" "0xcreated" None) /\
  length (transactions (w_db once.2)) = 3%nat /\
  length (transactions (w_db twice.2)) = 6%nat.
Proof. vm_compute. done. Qed.

(** ** The retry wrapper and the prefetch batches *)

Lemma withRetry_loop_spec {A} (fn : nat -> result A) (n a : nat) (e0 : error) :
  match withRetry_loop fn a n e0 with
  | Ok r =>
      exists k, (a <= k < a + n)%nat /\ fn k = Ok r /\
        forall j, (a <= j < k)%nat -> is_ok (fn j) = false
  | Throw e =>
      (forall j, (a <= j < a + n)%nat -> is_ok (fn j) = false) /\
      match n with
      | O => e = e0
      | S m => fn (a + m)%nat = Throw e
      end
  end.
Proof.
  revert a e0. induction n as [|n IH]; intros a e0; simpl.
  - split; [lia|done].
  - destruct (fn a) as [r|e] eqn:E.
    + exists a. split; [lia|]. split; [done|]. lia.
    + specialize (IH (S a) e).
      destruct (withRetry_loop fn (S a) n e) as [r|e'].
      * destruct IH as (k & Hk & Hfn & Hbefore). exists k. split; [lia|]. split; [done|].
        intros j Hj. destruct (decide (j = a)) as [->|]; [by rewrite E|]. apply Hbefore. lia.
      * destruct IH as [Hall Hlast]. split.
        -- intros j Hj. destruct (decide (j = a)) as [->|]; [by rewrite E|]. apply Hall. lia.
        -- destruct n as [|m]; [subst; by rewrite Nat.add_0_r|].
           by replace (a + S m)%nat with (S a + m)%nat by lia.
  Qed.

(** [withRetry] returns the result of the first attempt that succeeds among
    attempts 1, 2 and 3; when all three fail it throws the error of the
    third; it never makes a fourth attempt. *)
Theorem withRetry_first_success_or_last_error {A} (fn : nat -> result A) :
  (forall r, withRetry fn = Ok r ->
     exists k, (1 <= k <= 3)%nat /\ fn k = Ok r /\
       forall j, (1 <= j < k)%nat -> is_ok (fn j) = false) /\
  (forall e, withRetry fn = Throw e ->
     fn 3%nat = Throw e /\ is_ok (fn 1%nat) = false /\ is_ok (fn 2%nat) = false) /\
  (forall gn : nat -> result A,
     (forall k, (1 <= k <= 3)%nat -> gn k = fn k) -> withRetry gn = withRetry fn).
Proof.
  split_and!.
  - intros r H. pose proof (withRetry_loop_spec fn MAX_RETRY_COUNT 1 "undefined") as S.
    unfold withRetry in H. rewrite H in S. destruct S as (k & Hk & ? & ?).
    exists k. unfold MAX_RETRY_COUNT in Hk. split; [lia|done].
  - intros e H. pose proof (withRetry_loop_spec fn MAX_RETRY_COUNT 1 "undefined") as S.
    unfold withRetry in H. rewrite H in S. destruct S as [Hall Hlast].
    unfold MAX_RETRY_COUNT in *. simpl in Hlast. split; [done|].
    split; apply Hall; lia.
  - intros gn H. unfold withRetry, MAX_RETRY_COUNT. simpl.
    rewrite !H by lia. done.
Qed.


Lemma batches_loop_spec {A} (n fuel : nat) (xs : list A) :
  (0 < n)%nat -> (length xs <= fuel)%nat ->
  concat (batches_loop fuel n xs) = xs /\
  Forall (fun b => (0 < length b <= n)%nat) (batches_loop fuel n xs) /\
  length (batches_loop fuel n xs) = ((length xs + n - 1) / n)%nat.
Proof.
  intros Hn. revert xs. induction fuel as [|fuel IH]; intros xs Hf.
  - destruct xs; [|simpl in Hf; lia]. simpl. split_and!; [done|done|].
    symmetry. apply Nat.div_small. lia.
  - destruct xs as [|x xs]; simpl.
    + split_and!; [done|done|]. symmetry. apply Nat.div_small. lia.
    + destruct n as [|n]; [lia|].
      destruct (IH (drop n xs)) as (Hc & Hall & Hlen).
      { rewrite length_drop. simpl in Hf. lia. }
      simpl. split_and!.
      * f_equal. rewrite Hc. apply take_drop.
      * constructor; [|done]. simpl. rewrite length_take. lia.
      * rewrite Hlen, length_drop. clear.
        set (len := length xs).
        change (S ((len - n + S n - 1) `div` S n) = ((S len + S n - 1) `div` S n))%nat.
        destruct (decide (len < n)%nat).
        -- replace (len - n + S n - 1)%nat with n by lia.
           rewrite (Nat.div_small n) by lia.
           replace (S len + S n - 1)%nat with (len + 1 * S n)%nat by lia.
           rewrite Nat.div_add by lia. rewrite Nat.div_small by lia. done.
        -- replace (S len + S n - 1)%nat
             with ((len - n + S n - 1) + 1 * S n)%nat by lia.
           rewrite Nat.div_add by lia. lia.
Qed.

(** The slice loop that cuts a list into batches of [n] loses nothing and
    keeps the order: the batches concatenate to the list, every batch holds
    between 1 and [n] items, and there are [ceil(length / n)] of them. *)
Theorem batches_partition {A} (n : nat) (xs : list A) :
  (0 < n)%nat ->
  concat (batches n xs) = xs /\
  Forall (fun b => (0 < length b <= n)%nat) (batches n xs) /\
  length (batches n xs) = ((length xs + n - 1) / n)%nat.
Proof. intros Hn. by apply batches_loop_spec. Qed.

Lemma batches_partition_example :
  (0 < BATCH_SIZE)%nat /\
  concat (batches BATCH_SIZE (seqZ 1 45)) = seqZ 1 45 /\
  Forall (fun b => (0 < length b <= BATCH_SIZE)%nat) (batches BATCH_SIZE (seqZ 1 45)) /\
  length (batches BATCH_SIZE (seqZ 1 45)) = ((length (seqZ 1 45) + BATCH_SIZE - 1) / BATCH_SIZE)%nat.
Proof.
  assert (H : (0 < BATCH_SIZE)%nat) by (unfold BATCH_SIZE; lia).
  split; [exact H|]. exact (batches_partition BATCH_SIZE (seqZ 1 45) H).
Defined.


(** ** Events of campaigns that are not mirrored *)

Lemma insert_campaign_absent (kvs : list (Z * campaign_row)) (m : gmap Z campaign_row) id :
  m !! id = None -> id ∉ kvs.*1 -> foldl insert_campaign m kvs !! id = None.
Proof.
  revert m. induction kvs as [|kv kvs IH]; intros m Hm Hid; simpl; [done|].
  apply not_elem_of_cons in Hid as [Hne Hid]. apply IH; [|done].
  unfold insert_campaign. destruct (m !! kv.1); [done|].
  by rewrite lookup_insert_ne.
Qed.

Lemma created_values_keys dataMap network now created :
  (omap (created_value dataMap network now) created).*1 ⊆ cc_campaignId <$> created.
Proof.
  intros id Hid. apply list_elem_of_fmap in Hid as (kv & -> & Hkv).
  apply list_elem_of_omap in Hkv as (ev & Hev & Hcv).
  unfold created_value in Hcv. destruct (dataMap !! _); simpl in Hcv; [|done].
  injection Hcv as <-. simpl. apply list_elem_of_fmap. eauto.
Qed.

(** A [CampaignEnded] event for a campaign that is neither mirrored nor
    created in the same range aborts the campaign pass: the audit insert
    finds no creator, the transaction is rolled back and the error is thrown
    on; the chunk then fails before donations and withdrawals are looked at,
    and no table has changed. *)
Theorem ended_event_of_unmirrored_campaign_aborts cfg network fromBlock toBlock now w
  created ended ev :
  isMain cfg = true ->
  withRetry (queryCampaignCreated (contract_of cfg) fromBlock toBlock) = Ok created ->
  withRetry (queryCampaignEnded (contract_of cfg) fromBlock toBlock) = Ok ended ->
  ev ∈ ended ->
  campaigns (w_db w) !! cn_campaignId ev = None ->
  cn_campaignId ev ∉ cc_campaignId <$> created ->
  (exists e, indexCampaignEvents cfg network fromBlock toBlock now w = (Throw e, w)) /\
  (exists e, indexNetworkChunk cfg network now fromBlock toBlock w =
             (Throw e, journal (ChunkIndexed network fromBlock toBlock) w)).
Proof.
  intros Hmain Hcreated Hended Hev Hnone Hfresh.
  assert (Hbody : forall d, campaigns d = campaigns (w_db w) ->
            is_ok (indexCampaignEvents_body (contract_of cfg) network fromBlock toBlock now d)
            = false).
  { intros d Hd.
    destruct (indexCampaignEvents_body _ _ _ _ _ d) as [d'|] eqn:E; [|done].
    apply indexCampaignEvents_body_campaigns in E
      as (created' & edited & ended' & dataMap & Q1 & Q2 & Q3 & Q4 & Hc & Hpresent).
    rewrite Hcreated in Q1. injection Q1 as <-.
    rewrite Hended in Q3. injection Q3 as <-.
    destruct (Hpresent ev Hev) as [r Hr].
    rewrite Hc, lifecycle_table_lookup, insert_campaign_absent in Hr; [done|by rewrite Hd|].
    intros Hin. by apply created_values_keys in Hin. }
  assert (Hpass : forall w0, campaigns (w_db w0) = campaigns (w_db w) ->
            exists e, indexCampaignEvents cfg network fromBlock toBlock now w0 = (Throw e, w0)).
  { intros w0 Hw0. unfold indexCampaignEvents, transaction. rewrite Hmain. simpl.
    specialize (Hbody (w_db w0) Hw0).
    destruct (indexCampaignEvents_body _ _ _ _ _ _) as [d'|e]; [done|]. by exists e. }
  split; [by apply Hpass|].
  unfold indexNetworkChunk, bindM. rewrite Hmain. simpl.
  destruct (Hpass (journal (ChunkIndexed network fromBlock toBlock) w)) as [e ->]; [done|].
  by exists e.
Qed.

Lemma ended_event_of_unmirrored_campaign_example :
  (exists e, indexCampaignEvents (mk_network true orphan_end) "polygon" 1 100 5
               (world_at "polygon" 0)
             = (Throw e, world_at "polygon" 0)) /\
  (exists e, indexNetworkChunk (mk_network true orphan_end) "polygon" 5 1 100
               (world_at "polygon" 0)
             = (Throw e, journal (ChunkIndexed "polygon" 1 100) (world_at "polygon" 0))).
Proof.
  apply (ended_event_of_unmirrored_campaign_aborts (mk_network true orphan_end) "polygon"
           1 100 5 (world_at "polygon" 0) [] [mk_ended 7 9000000 "0xended"]
           (mk_ended 7 9000000 "0xended")).
  - reflexivity.
  - reflexivity.
  - reflexivity.
  - apply list_elem_of_singleton. reflexivity.
  - reflexivity.
  - apply not_elem_of_nil.
Defined.

(** A [DonationMade] event for a campaign that is not mirrored aborts the
    donation pass: the insert violates the foreign key of [donations], the
    transaction is rolled back and the error is thrown on; no donation of
    the range is recorded and no amount is changed. *)
Theorem donation_to_unmirrored_campaign_aborts cfg network fromBlock toBlock now w evs ev :
  isMain cfg = true ->
  withRetry (queryDonationMade (contract_of cfg) fromBlock toBlock) = Ok evs ->
  ev ∈ evs ->
  campaigns (w_db w) !! dm_campaignId ev = None ->
  exists e, indexDonationEvents cfg network fromBlock toBlock now w = (Throw e, w).
Proof.
  intros Hmain Hevs Hev Hnone.
  unfold indexDonationEvents, transaction, indexDonationEvents_body. rewrite Hmain. simpl.
  rewrite Hevs. cbn [mbind result_bind]. unfold insert_donations.
  destruct (forallb _ _) eqn:E; [|by eexists].
  rewrite forallb_forall in E.
  specialize (E (donation_value network now ev)).
  rewrite bool_decide_eq_true in E. simpl in E. rewrite Hnone in E.
  destruct E as [? ?]; [|done].
  apply list_elem_of_In, list_elem_of_fmap. eauto.
Qed.

Lemma donation_to_unmirrored_campaign_example :
  exists e, indexDonationEvents (mk_network true orphan_donation) "polygon" 1 100 5
              (world_at "polygon" 0)
            = (Throw e, world_at "polygon" 0).
Proof.
  apply (donation_to_unmirrored_campaign_aborts (mk_network true orphan_donation) "polygon"
           1 100 5 (world_at "polygon" 0) [mk_donationMade 7 "0xdonor" 500000000 "0xdonated"]
           (mk_donationMade 7 "0xdonor" 500000000 "0xdonated")).
  - reflexivity.
  - reflexivity.
  - apply list_elem_of_singleton. reflexivity.
  - reflexivity.
Defined.


(** ** The audit trail of a campaign pass *)

Lemma mapM_result_length {A B} (f : A -> result B) (xs : list A) (ys : list B) :
  mapM f xs = Ok ys -> length ys = length xs.
Proof.
  revert ys. induction xs as [|x xs IH]; intros ys H; simpl in H.
  - by injection H as <-.
  - result_simpl H. bind_case H y. bind_case H ys'. injection H as <-.
    simpl. f_equal. by apply IH.
Qed.

Lemma store_batch_keeps (m : gmap Z campaign_struct) batch results id :
  is_Some (m !! id) -> is_Some (store_batch m batch results !! id).
Proof.
  unfold store_batch. generalize (zip batch results). intros kvs. revert m.
  induction kvs as [|kv kvs IH]; intros m H; simpl; [done|].
  apply IH. rewrite lookup_insert_is_Some. destruct (decide (kv.1 = id)); auto.
Qed.

Lemma store_batch_stores (m : gmap Z campaign_struct) batch results id :
  length results = length batch -> id ∈ batch ->
  is_Some (store_batch m batch results !! id).
Proof.
  revert m results. induction batch as [|x batch IH]; intros m results Hlen Hid;
    [by apply elem_of_nil in Hid|].
  destruct results as [|r results]; [done|]. injection Hlen as Hlen.
  apply elem_of_cons in Hid as [->|Hid].
  - change (store_batch m (x :: batch) (r :: results))
      with (store_batch (<[x := r]> m) batch results).
    apply store_batch_keeps. by rewrite lookup_insert_eq.
  - change (store_batch m (x :: batch) (r :: results))
      with (store_batch (<[x := r]> m) batch results).
    by apply IH.
Qed.

Lemma prefetch_batches_covers c bs (m m' : gmap Z campaign_struct) id :
  prefetch_batches c bs m = Ok m' ->
  is_Some (m !! id) \/ id ∈ concat bs -> is_Some (m' !! id).
Proof.
  revert m. induction bs as [|batch bs IH]; intros m H Hid; simpl in H.
  - injection H as <-. destruct Hid as [?|Hid]; [done|by apply elem_of_nil in Hid].
  - result_simpl H. bind_case H results. apply (IH _ H).
    destruct Hid as [Hid|Hid]; [left; by apply store_batch_keeps|].
    simpl in Hid. apply elem_of_app in Hid as [Hid|Hid]; [|by right].
    left. apply store_batch_stores; [|done].
    unfold fetch_batch in *. by eapply mapM_result_length.
Qed.

Lemma set_add_elem s x id : id ∈ set_add s x <-> id ∈ s \/ id = x.
Proof.
  unfold set_add. destruct (decide (x ∈ s)).
  - split; [auto|]. intros [?| ->]; done.
  - rewrite elem_of_app, list_elem_of_singleton. done.
Qed.

Lemma set_adds_elem xs s id : id ∈ foldl set_add s xs <-> id ∈ s \/ id ∈ xs.
Proof.
  revert s. induction xs as [|x xs IH]; intros s; simpl.
  - split; [auto|]. intros [?|H]; [done|by apply elem_of_nil in H].
  - rewrite IH, set_add_elem, elem_of_cons. tauto.
Qed.

Lemma batches_elem {A} (n : nat) (xs : list A) x :
  (0 < n)%nat -> x ∈ concat (batches n xs) <-> x ∈ xs.
Proof.
  intros Hn. unfold batches. generalize (le_n (length xs)).
  generalize (length xs) at 2 3. intros fuel. revert xs.
  induction fuel as [|fuel IH]; intros xs Hf.
  - destruct xs; [done|simpl in Hf; lia].
  - destruct xs as [|y ys]; [done|].
    change (batches_loop (S fuel) n (y :: ys))
      with (take n (y :: ys) :: batches_loop fuel n (drop n (y :: ys))).
    simpl concat. rewrite elem_of_app, IH.
    + rewrite <- elem_of_app, take_drop. done.
    + rewrite length_drop. simpl in *. lia.
Qed.

Lemma created_values_all dataMap network now created :
  (forall ev, ev ∈ created -> is_Some (dataMap !! cc_campaignId ev)) ->
  kind_and_hash <$> omap (created_tx_value dataMap network now) created =
    (fun ev => ("Campaign Created", cc_transactionHash ev)) <$> created /\
  (omap (created_value dataMap network now) created).*1 = cc_campaignId <$> created.
Proof.
  induction created as [|ev evs IH]; intros H; [done|].
  destruct (H ev) as [s Hs]; [by left|].
  destruct IH as [IH1 IH2]; [intros; apply H; by right|].
  split.
  - simpl. unfold created_tx_value at 1. rewrite Hs. simpl. f_equal. exact IH1.
  - simpl. unfold created_value at 1. rewrite Hs. simpl. f_equal. exact IH2.
Qed.

Lemma edited_steps_logged dataMap network now edited d :
  (forall ev, ev ∈ edited -> is_Some (dataMap !! ce_campaignId ev)) ->
  exists txs,
    transactions (foldl (edited_step dataMap network now) d edited) = transactions d ++ txs /\
    kind_and_hash <$> txs = (fun ev => ("Campaign Edited", ce_transactionHash ev)) <$> edited.
Proof.
  revert d. induction edited as [|ev evs IH]; intros d H; simpl.
  - exists []. by rewrite app_nil_r.
  - destruct (H ev) as [s Hs]; [by left|].
    destruct (IH (edited_step dataMap network now d ev)) as (txs & E1 & E2);
      [intros; apply H; by right|].
    rewrite E1. unfold edited_step. rewrite Hs.
    cbn [transactions set_transactions set_campaigns].
    eexists (_ :: txs). rewrite <- app_assoc. split; [done|].
    simpl. f_equal. exact E2.
Qed.

Lemma ended_txs_logged (m : gmap Z campaign_row) network now ended txs :
  mapM (ended_tx_value m network now) ended = Ok txs ->
  kind_and_hash <$> txs = (fun ev => ("Campaign Ended", cn_transactionHash ev)) <$> ended.
Proof.
  revert txs. induction ended as [|ev evs IH]; intros txs H; simpl in H.
  - by injection H as <-.
  - result_simpl H. bind_case H t. bind_case H ts. injection H as <-.
    simpl. f_equal; [|by apply IH].
    unfold ended_tx_value in *. destruct (m !! _); [|done].
    match goal with E : Ok _ = Ok t |- _ => by injection E as <- end.
Qed.

(** A campaign pass that commits has skipped no event: the chain data of
    every created and edited campaign was fetched, every created campaign is
    in the mirror afterwards, and the audit table has grown by exactly one
    row per event, in the order created, edited, ended, each carrying the
    transaction hash of its event. *)
Theorem campaign_pass_logs_every_event c network fromBlock toBlock now d d' :
  indexCampaignEvents_body c network fromBlock toBlock now d = Ok d' ->
  exists created edited ended appended,
    withRetry (queryCampaignCreated c fromBlock toBlock) = Ok created /\
    withRetry (queryCampaignEdited c fromBlock toBlock) = Ok edited /\
    withRetry (queryCampaignEnded c fromBlock toBlock) = Ok ended /\
    (forall ev, ev ∈ created -> is_Some (campaigns d' !! cc_campaignId ev)) /\
    transactions d' = transactions d ++ appended /\
    kind_and_hash <$> appended =
      ((fun ev => ("Campaign Created", cc_transactionHash ev)) <$> created)
      ++ ((fun ev => ("Campaign Edited", ce_transactionHash ev)) <$> edited)
      ++ ((fun ev => ("Campaign Ended", cn_transactionHash ev)) <$> ended).
Proof.
  intros H.
  pose proof (indexCampaignEvents_body_campaigns _ _ _ _ _ _ _ H)
    as (created & edited & ended & dataMap & Q1 & Q2 & Q3 & Q4 & Hc & _).
  assert (Hall : forall id, id ∈ (cc_campaignId <$> created) \/ id ∈ (ce_campaignId <$> edited) ->
                            is_Some (dataMap !! id)).
  { intros id Hid. apply (prefetch_batches_covers _ _ _ _ id Q4). right.
    apply batches_elem; [unfold BATCH_SIZE; lia|].
    apply set_adds_elem. destruct Hid as [Hid|Hid]; [left|by right].
    apply set_adds_elem. by right. }
  assert (Hcr : forall ev, ev ∈ created -> is_Some (dataMap !! cc_campaignId ev)).
  { intros ev Hev. apply Hall. left. apply list_elem_of_fmap. eauto. }
  assert (Hed : forall ev, ev ∈ edited -> is_Some (dataMap !! ce_campaignId ev)).
  { intros ev Hev. apply Hall. right. apply list_elem_of_fmap. eauto. }
  destruct (created_values_all dataMap network now created Hcr) as [Hc1 Hc2].
  unfold indexCampaignEvents_body in H. rewrite Q1, Q2, Q3 in H.
  cbn [mbind result_bind] in H. rewrite Q4 in H. cbn [mbind result_bind] in H.
  result_simpl H. bind_case H txs. injection H as <-.
  match goal with E : mapM _ _ = Ok txs |- _ => apply ended_txs_logged in E as Hen end.
  destruct (edited_steps_logged dataMap network now edited
              (set_transactions
                 (fun ts => ts ++ omap (created_tx_value dataMap network now) created)
                 (set_campaigns
                    (fun m => foldl insert_campaign m
                                (omap (created_value dataMap network now) created)) d)) Hed)
    as (etxs & E1 & E2).
  exists created, edited, ended,
    (omap (created_tx_value dataMap network now) created ++ etxs ++ txs).
  split_and!; try done.
  - intros ev Hev. rewrite Hc, lifecycle_table_lookup. apply fmap_is_Some.
    assert (Hk : cc_campaignId ev ∈ (omap (created_value dataMap network now) created).*1).
    { rewrite Hc2. apply list_elem_of_fmap. eauto. }
    apply list_elem_of_fmap in Hk as (kv & -> & Hkv). by apply insert_campaign_inserted.
  - cbn [transactions set_transactions set_campaigns]. rewrite E1.
    cbn [transactions set_transactions set_campaigns]. by rewrite <- !app_assoc.
  - by rewrite !fmap_app, Hc1, E2, Hen.
Qed.

Lemma campaign_pass_logs_every_event_example :
  indexCampaignEvents_body busy "polygon" 1 100 5 empty_db
    = Ok (w_db (indexCampaignEvents (mk_network true busy) "polygon" 1 100 5
                  (mk_world empty_db [])).2) /\
  exists created edited ended appended,
    withRetry (queryCampaignCreated busy 1 100) = Ok created /\
    withRetry (queryCampaignEdited busy 1 100) = Ok edited /\
    withRetry (queryCampaignEnded busy 1 100) = Ok ended /\
    (forall ev, ev ∈ created ->
       is_Some (campaigns (w_db (indexCampaignEvents (mk_network true busy) "polygon" 1 100 5
                  (mk_world empty_db [])).2) !! cc_campaignId ev)) /\
    transactions (w_db (indexCampaignEvents (mk_network true busy) "polygon" 1 100 5
                  (mk_world empty_db [])).2) = transactions empty_db ++ appended /\
    kind_and_hash <$> appended =
      ((fun ev => ("Campaign Created", cc_transactionHash ev)) <$> created)
      ++ ((fun ev => ("Campaign Edited", ce_transactionHash ev)) <$> edited)
      ++ ((fun ev => ("Campaign Ended", cn_transactionHash ev)) <$> ended).
Proof.
  assert (H : indexCampaignEvents_body busy "polygon" 1 100 5 empty_db
    = Ok (w_db (indexCampaignEvents (mk_network true busy) "polygon" 1 100 5
                  (mk_world empty_db [])).2)) by (vm_compute; reflexivity).
  split; [exact H|].
  exact (campaign_pass_logs_every_event busy "polygon" 1 100 5 empty_db _ H).
Defined.


(** ** Withdrawal events *)

Lemma insert_withdrawal_keeps (kvs : list (Z * withdrawal_row)) (m : gmap Z withdrawal_row) id r :
  m !! id = Some r -> foldl insert_withdrawal m kvs !! id = Some r.
Proof.
  revert m. induction kvs as [|kv kvs IH]; intros m H; simpl; [done|].
  apply IH. unfold insert_withdrawal. destruct (m !! kv.1) eqn:E; [done|].
  rewrite lookup_insert_ne; [done|]. intros Heq. rewrite Heq in E. congruence.
Qed.

Lemma insert_withdrawal_dom (kvs : list (Z * withdrawal_row)) (m : gmap Z withdrawal_row) id :
  is_Some (foldl insert_withdrawal m kvs !! id) <-> is_Some (m !! id) \/ id ∈ kvs.*1.
Proof.
  revert m. induction kvs as [|kv kvs IH]; intros m; simpl.
  - split; [auto|]. intros [?|H]; [done|by apply elem_of_nil in H].
  - rewrite IH, elem_of_cons. unfold insert_withdrawal.
    destruct (m !! kv.1) eqn:E.
    + split; [tauto|]. intros [?|[Heq|?]]; auto. left. rewrite Heq. by rewrite E.
    + rewrite lookup_insert_is_Some. destruct (decide (kv.1 = id)) as [Heq|Hne].
      * split; auto.
      * split; [intros [[?|[_ ?]]|?]; auto|]. intros [?|[?|?]]; auto; congruence.
Qed.

Lemma processed_steps_lookup network now processed (d : db) id :
  withdrawals (foldl (processed_step network now) d processed) !! id =
  foldl (fun r ev => if decide (wp_requestId ev = id)
                     then process_row (wp_transactionHash ev) now <$> r else r)
        (withdrawals d !! id) processed.
Proof.
  revert d. induction processed as [|ev evs IH]; intros d; simpl; [done|].
  rewrite IH. f_equal. unfold processed_step.
  destruct (withdrawals d !! wp_requestId ev) as [r|] eqn:E.
  - cbn [withdrawals set_transactions set_withdrawals]. rewrite lookup_alter.
    by destruct (decide (wp_requestId ev = id)) as [->|].
  - destruct (decide (wp_requestId ev = id)) as [<-|]; [by rewrite E|done].
Qed.

Lemma processed_fold_row now processed id (o : option withdrawal_row) r :
  o = Some r ->
  exists r',
    foldl (fun r ev => if decide (wp_requestId ev = id)
                       then process_row (wp_transactionHash ev) now <$> r else r)
          o processed = Some r' /\
    request_data r' = request_data r /\
    (w_status r = Processed -> w_status r' = Processed) /\
    (id ∈ wp_requestId <$> processed ->
       w_status r' = Processed /\ w_processed_timestamp r' = Some now /\
       exists ev, ev ∈ processed /\ wp_requestId ev = id /\
                  w_processed_tx_hash r' = Some (wp_transactionHash ev)) /\
    (id ∉ wp_requestId <$> processed -> r' = r).
Proof.
  revert o r. induction processed as [|ev evs IH]; intros o r ->; simpl.
  - exists r. split_and!; try done. intros H. by apply elem_of_nil in H.
  - destruct (decide (wp_requestId ev = id)) as [Heq|Hne].
    + destruct (IH _ (process_row (wp_transactionHash ev) now r) eq_refl)
        as (r' & -> & Hd & Hs & Hin & Hout).
      exists r'. split_and!; try done.
      * intros _. by apply Hs.
      * intros _. destruct (decide (id ∈ wp_requestId <$> evs)) as [Hi|Hi].
        -- destruct (Hin Hi) as (? & ? & ev' & ? & ? & ?). split_and!; try done.
           exists ev'. split_and!; try done. by right.
        -- rewrite (Hout Hi). simpl. split_and!; try done.
           exists ev. split_and!; try done. by left.
      * intros Hn. exfalso. apply Hn. apply elem_of_cons. by left.
    + destruct (IH _ r eq_refl) as (r' & -> & Hd & Hs & Hin & Hout).
      exists r'. split_and!; try done.
      * intros Hi. apply elem_of_cons in Hi as [Hi|Hi]; [congruence|].
        destruct (Hin Hi) as (? & ? & ev' & ? & ? & ?). split_and!; try done.
        exists ev'. split_and!; try done. by right.
      * intros Hn. apply Hout. intros Hi. apply Hn. by right.
Qed.

Lemma processed_fold_None now processed id :
  foldl (fun (r : option withdrawal_row) ev =>
           if decide (wp_requestId ev = id)
           then process_row (wp_transactionHash ev) now <$> r else r)
        None processed = None.
Proof. induction processed as [|ev evs IH]; simpl; [done|]. by destruct (decide _). Qed.

(** A withdrawal pass never rewrites what a request recorded and never takes
    a withdrawal back: every row that was there keeps its requester, amount,
    token, target chain, request time, chain and request hash, a processed row
    stays processed, and a row whose request is not processed in the range is
    left exactly as it was. *)
Theorem withdrawal_rows_never_regress c network fromBlock toBlock now d d' id r :
  indexWithdrawalEvents_body c network fromBlock toBlock now d = Ok d' ->
  withdrawals d !! id = Some r ->
  exists r' processed,
    withRetry (queryWithdrawalProcessed c fromBlock toBlock) = Ok processed /\
    withdrawals d' !! id = Some r' /\
    request_data r' = request_data r /\
    (w_status r = Processed -> w_status r' = Processed) /\
    (id ∉ wp_requestId <$> processed -> r' = r).
Proof.
  unfold indexWithdrawalEvents_body. intros H Hr. result_simpl H.
  bind_case H requests. bind_case H processed. injection H as <-.
  rewrite processed_steps_lookup. cbn [withdrawals set_transactions set_withdrawals].
  destruct (processed_fold_row now processed id _ r
              (insert_withdrawal_keeps (request_value network now <$> requests) _ _ _ Hr))
    as (r' & E & Hd & Hs & _ & Hout).
  exists r', processed. by split_and!.
Qed.

(** What a [WithdrawalProcessed] event does.  When its request is in the
    table, from before or requested in the same range, the row ends the pass
    as processed, stamped now and carrying the hash of a processed event of
    that request.  When its request was never indexed, the event is dropped
    without an error: the pass commits and no row exists for it. *)
Theorem withdrawal_processed_event c network fromBlock toBlock now d d' processed ev :
  indexWithdrawalEvents_body c network fromBlock toBlock now d = Ok d' ->
  withRetry (queryWithdrawalProcessed c fromBlock toBlock) = Ok processed ->
  ev ∈ processed ->
  exists requests,
    withRetry (queryWithdrawalRequested c fromBlock toBlock) = Ok requests /\
    (is_Some (withdrawals d !! wp_requestId ev)
     \/ wp_requestId ev ∈ wr_requestId <$> requests ->
     exists r',
       withdrawals d' !! wp_requestId ev = Some r' /\
       w_status r' = Processed /\ w_processed_timestamp r' = Some now /\
       is_Some (w_processed_tx_hash r')) /\
    (withdrawals d !! wp_requestId ev = None ->
     wp_requestId ev ∉ wr_requestId <$> requests ->
     withdrawals d' !! wp_requestId ev = None).
Proof.
  unfold indexWithdrawalEvents_body. intros H Hq Hev. result_simpl H.
  bind_case H requests. rewrite Hq in H. injection H as <-.
  exists requests. split; [done|].
  rewrite processed_steps_lookup. cbn [withdrawals set_transactions set_withdrawals].
  assert (Hkeys : (request_value network now <$> requests).*1 = wr_requestId <$> requests).
  { rewrite <- list_fmap_compose. done. }
  split.
  - intros Hknown.
    assert (Hs : is_Some (foldl insert_withdrawal (withdrawals d)
                            (request_value network now <$> requests) !! wp_requestId ev)).
    { apply insert_withdrawal_dom. by rewrite Hkeys. }
    destruct Hs as [r Hr].
    destruct (processed_fold_row now processed (wp_requestId ev) _ r Hr)
      as (r' & E & _ & _ & Hin & _).
    destruct Hin as (? & ? & ev' & _ & _ & Hh); [apply list_elem_of_fmap; eauto|].
    exists r'. split_and!; try done.
  - intros Hnone Hfresh.
    assert (Hn : foldl insert_withdrawal (withdrawals d)
                   (request_value network now <$> requests) !! wp_requestId ev = None).
    { apply eq_None_not_Some. rewrite insert_withdrawal_dom, Hkeys.
      intros [[? ?]|?]; [congruence|done]. }
    rewrite Hn. apply processed_fold_None.
Qed.

Lemma withdrawal_rows_never_regress_example :
  let d := set_withdrawals <[3 := settled_withdrawal]> empty_db in
  let d' := (w_db (indexWithdrawalEvents (mk_network true (withdrawing false)) "polygon"
                     1 100 5 (mk_world d [])).2) in
  indexWithdrawalEvents_body (withdrawing false) "polygon" 1 100 5 d = Ok d' /\
  withdrawals d !! 3 = Some settled_withdrawal /\
  exists r' processed,
    withRetry (queryWithdrawalProcessed (withdrawing false) 1 100) = Ok processed /\
    withdrawals d' !! 3 = Some r' /\
    request_data r' = request_data settled_withdrawal /\
    (w_status settled_withdrawal = Processed -> w_status r' = Processed) /\
    (3 ∉ wp_requestId <$> processed -> r' = settled_withdrawal).
Proof.
  intros d d'.
  assert (H : indexWithdrawalEvents_body (withdrawing false) "polygon" 1 100 5 d = Ok d')
    by (vm_compute; reflexivity).
  assert (Hr : withdrawals d !! 3 = Some settled_withdrawal) by reflexivity.
  split; [exact H|]. split; [exact Hr|].
  exact (withdrawal_rows_never_regress (withdrawing false) "polygon" 1 100 5 d d' 3
           settled_withdrawal H Hr).
Defined.

Lemma withdrawal_processed_event_example :
  let ev := mk_withdrawalProcessed 3 "0xprocessed" in
  let d' := (w_db (indexWithdrawalEvents (mk_network true (withdrawing true)) "polygon"
                     1 100 5 (mk_world empty_db [])).2) in
  indexWithdrawalEvents_body (withdrawing true) "polygon" 1 100 5 empty_db = Ok d' /\
  exists requests,
    withRetry (queryWithdrawalRequested (withdrawing true) 1 100) = Ok requests /\
    (is_Some (withdrawals empty_db !! wp_requestId ev)
     \/ wp_requestId ev ∈ wr_requestId <$> requests ->
     exists r',
       withdrawals d' !! wp_requestId ev = Some r' /\
       w_status r' = Processed /\ w_processed_timestamp r' = Some 5 /\
       is_Some (w_processed_tx_hash r')) /\
    (withdrawals empty_db !! wp_requestId ev = None ->
     wp_requestId ev ∉ wr_requestId <$> requests ->
     withdrawals d' !! wp_requestId ev = None).
Proof.
  intros ev d'.
  assert (H : indexWithdrawalEvents_body (withdrawing true) "polygon" 1 100 5 empty_db = Ok d')
    by (vm_compute; reflexivity).
  split; [exact H|].
  apply (withdrawal_processed_event (withdrawing true) "polygon" 1 100 5 empty_db d'
           [ev] ev H).
  - reflexivity.
  - apply list_elem_of_singleton. reflexivity.
Defined.


(** ** The first run, the idle run and the networks passed over *)

(** The first run on a chain, which has no cursor row yet: it starts
    [RECENT_HISTORY_BLOCKS] behind the head (at block 1 on a short chain),
    takes a catch-up batch of at most 5000 blocks, and leaves the cursor at
    the end of that batch when indexing succeeds and absent when it fails. *)
Theorem first_run_starts_from_recent_history network ctr now head w :
  cursor (w_db w) network = None ->
  1 <= head ->
  let fromBlock := Z.max 1 (head - RECENT_HISTORY_BLOCKS) in
  let toBlock := Z.min head (fromBlock + CATCHUP_BATCH_SIZE - 1) in
  let rw := run (entry_of network (mk_input (Ok head) ctr now)) now w in
  r_jumpedAhead rw.1 = false /\
  r_realtimeMode rw.1 = false /\
  r_range rw.1 = Some (fromBlock, toBlock) /\
  exists tail,
    w_journal rw.2 = w_journal w ++ ChunkIndexed network fromBlock toBlock :: tail /\
    ((tail = [] /\ cursor (w_db rw.2) network = None) \/
     (tail = [CursorWrite network toBlock] /\ cursor (w_db rw.2) network = Some toBlock)).
Proof.
  intros Hc Hhead fromBlock toBlock rw. subst rw.
  unfold run, processNetwork, entry_of. cbn.
  rewrite read_lastIndexedBlocks_cursor, Hc. cbn.
  fold fromBlock.
  unfold RECENT_HISTORY_BLOCKS, CATCHUP_BATCH_SIZE in *.
  destruct (Z.gtb_spec fromBlock head) as [|_]; [lia|].
  replace (fromBlock + Z.min (head - fromBlock + 1) 5000 - 1) with toBlock by lia.
  destruct (indexNetwork_small (mk_network true ctr) network now fromBlock toBlock w)
    as (r & w2 & E & R); [unfold MAX_BLOCK_RANGE; lia|].
  rewrite E. cbn. do 3 (split; [done|]).
  destruct r as [b|e].
  - destruct R as (-> & Hcur & J). exists [CursorWrite network toBlock].
    split; [|by right]. by rewrite J.
  - destruct R as (S & J). exists []. split; [done|].
    left. split; [done|]. unfold cursor in *. by rewrite S.
Qed.

Lemma first_run_example :
  let rw := run (entry_of "polygon" (mk_input (Ok 250000) quiet 1)) 1 fresh_world in
  (cursor (w_db fresh_world) "polygon" = None /\ 1 <= 250000) /\
  r_jumpedAhead rw.1 = false /\
  r_realtimeMode rw.1 = false /\
  r_range rw.1 = Some (Z.max 1 (250000 - RECENT_HISTORY_BLOCKS),
                       Z.min 250000 (Z.max 1 (250000 - RECENT_HISTORY_BLOCKS)
                                     + CATCHUP_BATCH_SIZE - 1)) /\
  exists tail,
    w_journal rw.2 = w_journal fresh_world
      ++ ChunkIndexed "polygon" (Z.max 1 (250000 - RECENT_HISTORY_BLOCKS))
           (Z.min 250000 (Z.max 1 (250000 - RECENT_HISTORY_BLOCKS)
                          + CATCHUP_BATCH_SIZE - 1)) :: tail /\
    ((tail = [] /\ cursor (w_db rw.2) "polygon" = None) \/
     (tail = [CursorWrite "polygon"
                (Z.min 250000 (Z.max 1 (250000 - RECENT_HISTORY_BLOCKS)
                               + CATCHUP_BATCH_SIZE - 1))]
      /\ cursor (w_db rw.2) "polygon"
         = Some (Z.min 250000 (Z.max 1 (250000 - RECENT_HISTORY_BLOCKS)
                               + CATCHUP_BATCH_SIZE - 1)))).
Proof.
  split.
  - split; [reflexivity|lia].
  - apply (first_run_starts_from_recent_history "polygon" quiet 1 250000 fresh_world).
    + reflexivity.
    + lia.
Defined.

(** A run that finds the cursor at or past the head does nothing: no range is
    chosen, the indexer is not called and no table is written. *)
Theorem caught_up_run_is_idle network ctr now head c w :
  cursor (w_db w) network = Some c ->
  head <= c ->
  let rw := run (entry_of network (mk_input (Ok head) ctr now)) now w in
  rw.2 = w /\ r_range rw.1 = None /\ r_indexed rw.1 = None /\ r_jumpedAhead rw.1 = false.
Proof.
  intros Hc Hle rw. subst rw. rewrite (run_known _ _ _ _ _ _ Hc). cbv zeta.
  unfold MAX_ACCEPTABLE_GAP.
  destruct (Z.gtb_spec (head - c) 500000) as [|_]; [lia|].
  destruct (Z.gtb_spec (c + 1) head) as [_|]; [|lia].
  done.
Qed.

Lemma caught_up_run_example :
  let w := world_at "polygon" 1000 in
  let rw := run (entry_of "polygon" (mk_input (Ok 1000) busy 1)) 1 w in
  (cursor (w_db w) "polygon" = Some 1000 /\ 1000 <= 1000) /\
  rw.2 = w /\ r_range rw.1 = None /\ r_indexed rw.1 = None /\ r_jumpedAhead rw.1 = false.
Proof.
  split.
  - split; [reflexivity|lia].
  - apply (caught_up_run_is_idle "polygon" busy 1 1000 1000 (world_at "polygon" 1000)).
    + reflexivity.
    + lia.
Defined.

Lemma processNetwork_not_indexed lastIndexedBlocks e now w :
  indexed_by_worker e = false -> (processNetwork lastIndexedBlocks e now w).2 = w.
Proof.
  unfold indexed_by_worker, processNetwork. destruct (ne_provider e) as [p|]; [|done].
  rewrite bool_decide_eq_true_2 by eauto. simpl. by intros ->.
Qed.

(** A scheduler run only acts on main chains with a provider: every other
    network of the configuration is passed over without reading or writing
    anything, so the run is the run over the networks that remain, in their
    order.  A network whose head cannot be read is passed over as well. *)
Theorem worker_skips_other_networks NETWORKS now w :
  processNetworks NETWORKS now w = processNetworks (filter indexed_by_worker NETWORKS) now w /\
  forall e p err,
    ne_provider e = Some p -> getBlockNumber p = Throw err ->
    processNetworks (e :: NETWORKS) now w = processNetworks NETWORKS now w.
Proof.
  split.
  - unfold processNetworks. generalize (read_lastIndexedBlocks w). intros blocks.
    revert w. induction NETWORKS as [|e es IH]; intros w; [done|].
    simpl foldl. destruct (indexed_by_worker e) eqn:E.
    + rewrite filter_cons_True by (rewrite E; exact I). simpl. apply IH.
    + rewrite filter_cons_False by (rewrite E; intros []).
      rewrite processNetwork_not_indexed by done. apply IH.
  - intros e p err Hp He. unfold processNetworks. simpl. f_equal.
    unfold processNetwork. rewrite Hp, He. by destruct (negb _).
Qed.


(** ** Reconciliation *)

Import Reconciliation.

Example exact_units_samples :
  exact_units 0.04 = 4000000 /\ exact_units 0.03 = 3000000 /\
  exact_units 12345.678 = 1234567800000 /\ exact_units 0 = 0 /\
  exact_units (-2.5) = -250000000.
Proof. vm_compute. done. Qed.

Example parseFloat_samples :
  Float64.parseFloat 4000000 8 = 0.04%float /\
  Float64.parseFloat 3000000 8 = 0.03%float /\
  Float64.parseFloat 1 1 = 0.1%float /\
  Float64.parseFloat (10 ^ 18) 18 = 1%float /\
  Float64.parseFloat (10 ^ 18 - 1) 18 = 1%float /\
  Float64.parseFloat 2500000000000000000 18 = 2.5%float.
Proof. vm_compute. done. Qed.

Lemma batches_loop_foldl {A St} (f : St -> A -> St) (n : nat) (fuel : nat) (xs : list A) (acc : St) :
  (0 < n)%nat -> (length xs <= fuel)%nat ->
  foldl (fun acc' batch => foldl f acc' batch) acc (batches_loop fuel n xs) = foldl f acc xs.
Proof.
  intros Hn. revert xs acc. induction fuel as [|fuel IH]; intros xs acc Hlen.
  - by destruct xs; [|simpl in Hlen; lia].
  - destruct xs as [|x xs]; [done|].
    change (batches_loop (S fuel) n (x :: xs))
      with (take n (x :: xs) :: batches_loop fuel n (drop n (x :: xs))).
    cbn [foldl]. rewrite IH.
    + by rewrite <- foldl_app, take_drop.
    + rewrite length_drop. simpl in *. lia.
Qed.

Lemma batches_foldl {A St} (f : St -> A -> St) (n : nat) (xs : list A) (acc : St) :
  (0 < n)%nat ->
  foldl (fun acc' batch => foldl f acc' batch) acc (batches n xs) = foldl f acc xs.
Proof. intros. by apply batches_loop_foldl. Qed.

Section WithDatabase.

Variable numeric_of_number : float -> Z.

Lemma count_verdict_cons c v kv rows :
  count_verdict c v (kv :: rows) =
  ((if decide (verdict_of c kv = v) then 1 else 0) + count_verdict c v rows)%nat.
Proof. unfold count_verdict. rewrite filter_cons. by destruct (decide _). Qed.

Lemma reconcile_fold c now rows st t :
  foldl (reconcile_one numeric_of_number c now) (st, t) rows =
  (mk_state
     (foldl (table_step (healing numeric_of_number c now) (fun f => f)) (s_campaigns st) rows)
     (s_reconciliation_log st ++ omap (logged numeric_of_number c now) rows),
   mk_tally (updatedCount t + count_verdict c Updated rows)
     (errorCount t + count_verdict c Failed rows)
     (matchCount t + count_verdict c Matched rows)).
Proof.
  revert st t. induction rows as [|kv rows IH]; intros [m l] [u e k].
  - cbn. rewrite app_nil_r. unfold count_verdict. cbn. by rewrite !Nat.add_0_r.
  - cbn [foldl]. rewrite !count_verdict_cons.
    unfold reconcile_one at 2, table_step at 2, healing at 2, verdict_of.
    cbn [omap list_omap]. unfold logged at 1.
    destruct (campaigns_read c kv.1 1%nat) as [chainCampaign|err].
    + destruct (needs_reconciliation chainCampaign kv.2).
      * rewrite IH. cbn. repeat (case_decide; try done). rewrite <- app_assoc.
        f_equal. f_equal; lia.
      * rewrite IH. cbn. repeat (case_decide; try done). f_equal. f_equal; lia.
    + rewrite IH. cbn. repeat (case_decide; try done). f_equal. f_equal; lia.
Qed.

(** With one row per id, the row of [id] is touched by its own step only. *)
Lemma healing_row_steps c now rows id r x :
  NoDup rows.*1 -> (id, r) ∈ rows ->
  foldl (row_step (healing numeric_of_number c now) (fun f => f) id) x rows =
  match healing numeric_of_number c now (id, r) with
  | Some (_, f) => f x
  | None => x
  end.
Proof.
  revert x. induction rows as [|kv rows IH]; intros x Hnd Hin;
    [by apply elem_of_nil in Hin|].
  rewrite fmap_cons in Hnd. apply NoDup_cons in Hnd as [Hnotin Hnd].
  assert (Hother : forall y kv', kv'.1 <> id ->
            row_step (healing numeric_of_number c now) (fun f => f) id y kv' = y).
  { intros y kv' Hne. unfold row_step, healing.
    destruct (campaigns_read c kv'.1 1%nat); [|done].
    destruct (needs_reconciliation _ _); [|done]. by rewrite decide_False. }
  apply elem_of_cons in Hin as [<-|Hin]; cbn [foldl].
  - assert (Hrest : forall y, foldl (row_step (healing numeric_of_number c now) (fun f => f) id) y rows = y).
    { clear -Hnotin Hother. cbn [fst] in Hnotin. intros y.
      induction rows as [|kv rows IH]; [done|]. cbn [foldl].
      rewrite fmap_cons, not_elem_of_cons in Hnotin. destruct Hnotin as [Hne Hnotin].
      rewrite Hother by done. by apply IH. }
    rewrite Hrest. unfold row_step. destruct (healing numeric_of_number c now (id, r)) as [[id' f]|] eqn:E; [|done].
    assert (id' = id) as ->.
    { unfold healing in E. cbn [fst] in E.
      destruct (campaigns_read c id 1%nat); [|done].
      destruct (needs_reconciliation _ _); [|done]. by injection E as <- _. }
    by rewrite decide_True.
  - rewrite Hother; [by apply IH|].
    intros Heq. apply Hnotin. rewrite Heq. apply list_elem_of_fmap. by exists (id, r).
Qed.



End WithDatabase.

(** The difference is the one the pass computes in binary64: with 0.04 on
    chain, a mirror of 0.03 or 0.05 computes as 0.010000000000000002 and is
    healed, a mirror of 0.03000001 is not. *)
Example threshold_samples :
  needs_reconciliation sample_struct (sample_row 4000000) = false /\
  needs_reconciliation sample_struct (sample_row 3000000) = true /\
  needs_reconciliation sample_struct (sample_row 3000001) = false /\
  needs_reconciliation sample_struct (sample_row 5000000) = true /\
  needs_reconciliation sample_struct (sample_row 5000001) = true /\
  needs_reconciliation sample_struct (sample_row 2999999) = true.
Proof. vm_compute. done. Qed.

Example reconciliation_heals_sample :
  let st := mk_state {[7 := sample_row 3000000]} [] in
  Z.abs (cs_totalStable sample_struct - c_amount_raised (sample_row 3000000)) <= 1000000 /\
  needs_reconciliation sample_struct (sample_row 3000000) = true /\
  exists s st2,
    reconcileCampaigns exact_units (Some busy) 50 st = Ok (s, st2) /\
    matched s = 0%nat /\ updated s = 1%nat /\
    s_reconciliation_log st2 = [mk_log 7 3000000 4000000 1000000 50] /\
    c_last_reconciled <$> s_campaigns st2 !! 7 = Some (Some 50).
Proof.
  split; [cbn; lia|]. split; [by vm_compute|].
  eexists _, _. split; [vm_compute; reflexivity|]. by vm_compute.
Qed.

(** ** A pass over the mirror and the pass after it *)

Lemma count_verdict_partition c rows :
  length rows =
  (count_verdict c Updated rows + count_verdict c Matched rows
   + count_verdict c Failed rows)%nat.
Proof.
  induction rows as [|kv rows IH]; [done|].
  rewrite !count_verdict_cons. simpl. rewrite IH.
  destruct (verdict_of c kv); repeat (case_decide; try done); lia.
Qed.

Lemma logged_length numeric_of_number c now rows :
  length (omap (logged numeric_of_number c now) rows) = count_verdict c Updated rows.
Proof.
  induction rows as [|kv rows IH]; [done|].
  rewrite count_verdict_cons. cbn [omap list_omap]. unfold logged at 1, verdict_of.
  destruct (campaigns_read c kv.1 1%nat) as [chainCampaign|];
    [destruct (needs_reconciliation chainCampaign kv.2)|];
    repeat (case_decide; try done); simpl; by rewrite IH.
Qed.

(** What one pass leaves in the row of [id]. *)
Lemma reconciled_row numeric_of_number c now (m : gmap Z campaign_row) id :
  foldl (table_step (healing numeric_of_number c now) (fun f => f)) m (map_to_list m) !! id =
  (fun r => match healing numeric_of_number c now (id, r) with
            | Some (_, f) => f r
            | None => r
            end) <$> m !! id.
Proof.
  rewrite table_steps_lookup. destruct (m !! id) as [r|] eqn:E; [|done]. simpl. f_equal.
  apply healing_row_steps; [apply NoDup_fst_map_to_list|by apply elem_of_map_to_list].
Qed.

(** A pass accounts for every mirrored campaign exactly once, as updated,
    matched or failed, and the log grows by one row per update.  It neither
    adds nor removes campaigns, it never changes a campaign's name,
    description, target, link, image, creator, creation time, chain or
    creation hash, and a campaign whose canonical record cannot be read is
    left exactly as it was. *)
Theorem reconciliation_accounts_for_every_campaign numeric_of_number c now st s st' :
  reconcileCampaigns numeric_of_number (Some c) now st = Ok (s, st') ->
  total s = (updated s + matched s + errors s)%nat /\
  length (s_reconciliation_log st') = (length (s_reconciliation_log st) + updated s)%nat /\
  forall campaignId,
    match s_campaigns st !! campaignId with
    | None => s_campaigns st' !! campaignId = None
    | Some r =>
        exists r',
          s_campaigns st' !! campaignId = Some r' /\
          descriptive_columns r' = descriptive_columns r /\
          (is_ok (campaigns_read c campaignId 1%nat) = false -> r' = r)
    end.
Proof.
  unfold reconcileCampaigns, reconcile_batches.
  rewrite batches_foldl by (unfold BATCH_SIZE; lia).
  rewrite reconcile_fold. intros [= <- <-].
  cbn [total updated matched errors updatedCount matchCount errorCount s_campaigns
       s_reconciliation_log Nat.add].
  split; [apply count_verdict_partition|].
  split; [by rewrite length_app, logged_length|].
  intros campaignId. rewrite reconciled_row.
  destruct (s_campaigns st !! campaignId) as [r|]; [|done]. simpl.
  eexists. split; [done|]. unfold healing. cbn [fst snd].
  destruct (campaigns_read c campaignId 1%nat) as [chainCampaign|]; [|done].
  by destruct (needs_reconciliation chainCampaign r).
Qed.

Lemma reconciliation_accounts_example :
  let st := mk_state {[7 := sample_row 3000000]} [] in
  let pass := reconcileCampaigns exact_units (Some busy) 50 st in
  let s := match pass with Ok p => p.1 | Throw _ => mk_summary 0 0 0 0 end in
  let st' := match pass with Ok p => p.2 | Throw _ => st end in
  pass = Ok (s, st') /\
  total s = (updated s + matched s + errors s)%nat /\
  length (s_reconciliation_log st') = (length (s_reconciliation_log st) + updated s)%nat /\
  forall campaignId,
    match s_campaigns st !! campaignId with
    | None => s_campaigns st' !! campaignId = None
    | Some r =>
        exists r',
          s_campaigns st' !! campaignId = Some r' /\
          descriptive_columns r' = descriptive_columns r /\
          (is_ok (campaigns_read busy campaignId 1%nat) = false -> r' = r)
    end.
Proof.
  intros st pass s st'.
  assert (H : pass = Ok (s, st')) by (vm_compute; reflexivity).
  split; [exact H|].
  exact (reconciliation_accounts_for_every_campaign exact_units busy 50 st s st' H).
Defined.

Lemma self_difference_below_threshold (x : float) :
  PrimFloat.ltb RECONCILIATION_THRESHOLD (PrimFloat.abs (x - x)) = false.
Proof.
  unfold RECONCILIATION_THRESHOLD.
  rewrite FloatAxioms.ltb_spec, FloatAxioms.abs_spec, FloatAxioms.sub_spec.
  destruct (FloatOps.Prim2SF x) as [s|s| |s m e].
  - by destruct s.
  - by destruct s.
  - done.
  - unfold FloatAxioms.SF64sub, SpecFloat.SFsub. rewrite Z.sub_diag. done.
Qed.

Lemma no_healing_steps numeric_of_number c now (rows : list (Z * campaign_row))
  (m : gmap Z campaign_row) :
  (forall kv, kv ∈ rows -> verdict_of c kv <> Updated) ->
  foldl (table_step (healing numeric_of_number c now) (fun f => f)) m rows = m /\
  omap (logged numeric_of_number c now) rows = [] /\
  count_verdict c Updated rows = 0%nat.
Proof.
  induction rows as [|kv rows IH]; intros H; [done|].
  destruct IH as (IH1 & IH2 & IH3); [intros; apply H; by right|].
  assert (Hkv : verdict_of c kv <> Updated) by (apply H; by left).
  rewrite count_verdict_cons, IH3, decide_False by done. cbn [foldl omap list_omap].
  unfold table_step at 2, healing at 2, logged at 1. unfold verdict_of in Hkv.
  destruct (campaigns_read c kv.1 1%nat) as [chainCampaign|];
    [destruct (needs_reconciliation chainCampaign kv.2); [done|]|];
    by rewrite IH1, IH2.
Qed.

(** Reconciliation settles: where the database hands back the amounts it was
    given, a second pass right after a first one (the chain answering the
    same) finds nothing to update, writes no log row and leaves every
    campaign as the first pass left it. *)
Theorem reconciliation_settles numeric_of_number c now1 now2 st s1 st1 :
  stores_faithfully numeric_of_number c ->
  reconcileCampaigns numeric_of_number (Some c) now1 st = Ok (s1, st1) ->
  exists s2,
    reconcileCampaigns numeric_of_number (Some c) now2 st1 = Ok (s2, st1) /\
    updated s2 = 0%nat /\
    total s2 = total s1.
Proof.
  intros Hdb. unfold reconcileCampaigns, reconcile_batches.
  rewrite !batches_foldl by (unfold BATCH_SIZE; lia).
  rewrite !reconcile_fold. intros [= <- <-].
  cbn [total updated matched errors updatedCount matchCount errorCount s_campaigns
       s_reconciliation_log Nat.add].
  set (m1 := foldl _ (s_campaigns st) _).
  assert (Hsettled : forall kv, kv ∈ map_to_list m1 -> verdict_of c kv <> Updated).
  { intros [id r1] Hin. apply elem_of_map_to_list in Hin.
    subst m1. rewrite reconciled_row in Hin.
    destruct (s_campaigns st !! id) as [r|]; [|done]. simpl in Hin. injection Hin as <-.
    unfold verdict_of, healing. cbn [fst snd].
    destruct (campaigns_read c id 1%nat) as [chainCampaign|] eqn:Eread; [|done].
    destruct (needs_reconciliation chainCampaign r) eqn:En; [|by rewrite En].
    unfold needs_reconciliation, discrepancy, dbAmountRaised, reconcile_row.
    cbn [c_amount_raised]. rewrite (Hdb _ _ Eread).
    by rewrite self_difference_below_threshold. }
  destruct (no_healing_steps numeric_of_number c now2 _ m1 Hsettled) as (-> & -> & ->).
  rewrite app_nil_r. eexists. split; [done|]. split; [done|].
  simpl. rewrite !length_map_to_list.
  assert (Hdom : dom m1 = dom (s_campaigns st)).
  { apply set_eq. intros id. rewrite !elem_of_dom. subst m1. rewrite reconciled_row.
    by rewrite fmap_is_Some. }
  by rewrite <- !size_dom, Hdom.
Qed.

Lemma reconciliation_settles_example :
  let st := mk_state {[7 := sample_row 3000000]} [] in
  let pass := reconcileCampaigns exact_units (Some busy) 50 st in
  let s1 := match pass with Ok p => p.1 | Throw _ => mk_summary 0 0 0 0 end in
  let st1 := match pass with Ok p => p.2 | Throw _ => st end in
  (stores_faithfully exact_units busy /\ pass = Ok (s1, st1) /\ updated s1 = 1%nat) /\
  exists s2,
    reconcileCampaigns exact_units (Some busy) 60 st1 = Ok (s2, st1) /\
    updated s2 = 0%nat /\
    total s2 = total s1.
Proof.
  intros st pass s1 st1.
  assert (Hdb : stores_faithfully exact_units busy).
  { intros campaignId chainCampaign [= <-]. vm_compute. reflexivity. }
  assert (H : pass = Ok (s1, st1)) by (vm_compute; reflexivity).
  split; [split_and!; [exact Hdb|exact H|reflexivity]|].
  exact (reconciliation_settles exact_units busy 50 60 st s1 st1 Hdb H).
Defined.


(** ** The donation relay *)

Import Relay.







Lemma post_pending t address w : pending_count address (post t w) = pending_count address w.
Proof. done. Qed.


Lemma sendDonationTransaction_cases id wl e w :
  submission id wl e w (sendDonationTransaction id wl e w).
Proof.
  unfold sendDonationTransaction.
  destruct (getBalance_send e (wallet_address wl)) as [balance|err] eqn:Eb; cbn.
  2: { apply submission_failed. intros b Hb. congruence. }
  destruct (Z.ltb_spec balance hard_floor) as [Hlow|Hok];
    [by eapply submission_skipped|].
  assert (Hfloor : forall b, getBalance_send e (wallet_address wl) = Ok b -> hard_floor <= b).
  { intros b Hb. rewrite Eb in Hb. by injection Hb as <-. }
  destruct (getFeeData e) as [f|]; cbn; [|by apply submission_failed].
  destruct (boosted_maxFee f GAS_PRICE_BOOST) as [maxFee|]; cbn;
    [|by apply submission_failed].
  destruct (boosted_priorityFee f GAS_PRICE_BOOST) as [maxPriority|]; cbn;
    [|by apply submission_failed].
  destruct (estimateGas e wl hard_floor) as [gasEstimate|]; cbn;
    [|by apply submission_failed].
  destruct (bigint _) as [price|]; cbn; [|by apply submission_failed].
  destruct (_ <=? 0); [by apply submission_failed|].
  destruct (getNonce e wl) as [nonce|]; cbn; [|by apply submission_failed].
  destruct (send e _) as [hash|] eqn:Es; cbn; [|by apply submission_failed].
  by eapply submission_sent.
Qed.




Lemma is_pending_for_inj a b d :
  is_pending_for a d = true -> is_pending_for b d = true -> a = b.
Proof.
  unfold is_pending_for. rewrite !andb_true_iff, !bool_decide_eq_true.
  intros [<- _] [<- _]. done.
Qed.




Lemma touches_only_refl id w : touches_only id w w.
Proof. by split_and!. Qed.

Lemma touches_only_trans id w1 w2 w3 :
  touches_only id w1 w2 -> touches_only id w2 w3 -> touches_only id w1 w3.
Proof.
  intros (I1 & N1 & R1) (I2 & N2 & R2). split_and!; [congruence|congruence|].
  intros d Hd Hne. by apply R2; [apply R1|].
Qed.

Lemma update_row_touches id f w : keeps_id f -> touches_only id w (update_row id f w).
Proof.
  intros Hf. unfold update_row. split_and!; simpl; [|done|].
  - rewrite <- list_fmap_compose. apply list_fmap_ext. intros i d _. simpl.
    destruct (decide (dd_id d = id)); [apply Hf|done].
  - intros d Hd Hne. apply list_elem_of_fmap. exists d. by rewrite decide_False.
Qed.

Lemma post_touches id t w : touches_only id w (post t w).
Proof. by split_and!. Qed.

Lemma replaceStuckTransaction_touches id wl e nonce w :
  touches_only id w (replaceStuckTransaction id wl e nonce w).
Proof.
  unfold replaceStuckTransaction.
  destruct (getFeeData e) as [f|]; cbn; [|apply touches_only_refl].
  destruct (boosted_maxFee f 150) as [maxFee|]; cbn; [|apply touches_only_refl].
  destruct (boosted_priorityFee f 150) as [maxPriority|]; cbn; [|apply touches_only_refl].
  destruct (send e _) as [hash|]; cbn; [|apply touches_only_refl].
  eapply touches_only_trans; [apply post_touches|]. by apply update_row_touches.
Qed.

Lemma sendDonationTransaction_touches id wl e w :
  touches_only id w (sendDonationTransaction id wl e w).
Proof.
  destruct (sendDonationTransaction_cases id wl e w).
  - apply touches_only_refl.
  - eapply touches_only_trans; [apply post_touches|]. by apply update_row_touches.
  - by apply update_row_touches.
Qed.

Lemma handlePendingDonation_touches donation wl e w :
  touches_only (sel_id donation) w (handlePendingDonation donation wl e w).
Proof.
  unfold handlePendingDonation.
  destruct (tx_hash_of donation) as [txHash|]; [|apply sendDonationTransaction_touches].
  destruct (getTransactionReceipt e txHash) as [[receipt_status|]|];
    [by apply update_row_touches| |apply touches_only_refl].
  set (w1 := update_row _ _ w).
  assert (H1 : touches_only (sel_id donation) w w1) by (by apply update_row_touches).
  destruct (_ >=? MAX_PENDING_CHECKS); [|done].
  destruct (sel_tx_nonce donation) as [nonce|].
  { eapply touches_only_trans; [done|apply replaceStuckTransaction_touches]. }
  destruct (getTransaction e txHash) as [[[nonce|]|]|]; try done.
  eapply touches_only_trans; [done|apply replaceStuckTransaction_touches].
Qed.

Lemma touches_only_well_keyed id w w' :
  touches_only id w w' -> well_keyed w -> well_keyed w'.
Proof.
  intros (I & N & _) [Hnd Hlt]. unfold well_keyed. by rewrite I, N.
Qed.

Lemma select_pending_Some address w donation :
  select_pending address w = Some donation ->
  exists d, d ∈ rows w /\ is_pending_for address d = true /\
    donation = mk_selected (dd_id d) (dd_contract_tx_hash d) (dd_check_count d) None.
Proof.
  unfold select_pending. destruct (List.find _ _) as [d|] eqn:E; [|done].
  intros [= <-]. apply find_some in E as [Hin Hp].
  exists d. split_and!; [by apply list_elem_of_In|done|done].
Qed.

(** A row that is no longer pending is left alone by every later poll. *)
Lemma processWallet_settled wl e w d :
  well_keyed w -> d ∈ rows w -> dd_status d <> pending ->
  well_keyed (processWallet wl e w) /\ d ∈ rows (processWallet wl e w).
Proof.
  intros Hwk Hd Hs. unfold processWallet.
  destruct (select_pending (wallet_address wl) w) as [donation|] eqn:Esel.
  - pose proof (handlePendingDonation_touches donation wl e w) as Ht.
    split; [by eapply touches_only_well_keyed|].
    apply Ht; [done|].
    apply select_pending_Some in Esel as (d0 & Hd0 & Hp & ->). simpl.
    intros Heq.
    assert (d = d0) as ->.
    { destruct Hwk as [Hnd _]. 
      apply list_elem_of_lookup in Hd as [i Hi]. apply list_elem_of_lookup in Hd0 as [j Hj].
      assert (i = j) as ->.
      { eapply NoDup_lookup; [exact Hnd| |]; rewrite list_lookup_fmap.
        - by rewrite Hi.
        - rewrite Hj. simpl. by rewrite Heq. }
      congruence. }
    unfold is_pending_for in Hp. apply andb_true_iff in Hp as [_ Hp].
    by apply bool_decide_eq_true in Hp.
  - unfold checkBalanceAndCreateDonation.
    destruct (getBalance_check e (wallet_address wl)) as [balance|]; [|done].
    destruct (below_minimum balance); [done|].
    set (w1 := mk_world _ _ _).
    assert (Hwk1 : well_keyed w1).
    { destruct Hwk as [Hnd Hlt]. split; simpl.
      - rewrite fmap_app. simpl. apply NoDup_app. split_and!; [done| |apply NoDup_singleton].
        intros x Hx Hx'. apply list_elem_of_singleton in Hx'. subst x.
        rewrite Forall_forall in Hlt. specialize (Hlt _ Hx). lia.
      - rewrite fmap_app. apply Forall_app. split.
        + eapply Forall_impl; [exact Hlt|]. simpl. intros. lia.
        + apply Forall_singleton. simpl. lia. }
    pose proof (sendDonationTransaction_touches (next_id w) wl e w1) as Ht.
    split; [by eapply touches_only_well_keyed|].
    apply Ht.
    + subst w1. simpl. apply elem_of_app. by left.
    + destruct Hwk as [_ Hlt]. rewrite Forall_forall in Hlt.
      assert (dd_id d < next_id w) by (apply Hlt, list_elem_of_fmap; eauto). lia.
Qed.

Lemma ticks_settled wallets es w d :
  well_keyed w -> d ∈ rows w -> dd_status d <> pending ->
  well_keyed (ticks wallets es w) /\ d ∈ rows (ticks wallets es w).
Proof.
  unfold ticks, checkWalletsAndProcess.
  revert w. induction es as [|e es IH]; intros w Hwk Hd Hs; simpl; [done|].
  assert (Htick : well_keyed (foldl (fun w' wl => processWallet wl e w') w wallets) /\
                  d ∈ rows (foldl (fun w' wl => processWallet wl e w') w wallets)).
  { clear IH. revert w Hwk Hd. induction wallets as [|wl wallets IHw]; intros w Hwk Hd;
      simpl; [done|].
    destruct (processWallet_settled wl e w d Hwk Hd Hs). by apply IHw. }
  destruct Htick. by apply IH.
Qed.

Lemma find_fmap {A} (P : A -> bool) (g : A -> A) (l : list A) :
  (forall x, P (g x) = P x) ->
  List.find P (g <$> l) = g <$> List.find P l.
Proof.
  intros Hg. induction l as [|x l IH]; [done|]. cbn. rewrite Hg.
  destruct (P x); [done|]. exact IH.
Qed.

Lemma select_pending_update_row address w id f hash count :
  keeps_pending f -> keeps_id f ->
  select_pending address w = Some (mk_selected id hash count None) ->
  exists d,
    select_pending address (update_row id f w) =
      Some (mk_selected id (dd_contract_tx_hash (f d)) (dd_check_count (f d)) None) /\
    dd_contract_tx_hash d = hash /\ dd_check_count d = count.
Proof.
  intros Hp Hid. unfold select_pending, update_row. cbn [rows].
  rewrite find_fmap by (intros d; destruct (decide (dd_id d = id)); [apply Hp|done]).
  destruct (List.find _ (rows w)) as [d|]; [|done]. cbn.
  intros [= Hd Hh Hc]. exists d. rewrite decide_True by done.
  by rewrite Hid, Hd.
Qed.

Lemma tx_hash_of_Some id h count nonce :
  h <> "" -> tx_hash_of (mk_selected id (Some h) count nonce) = Some h.
Proof. intros Hh. unfold tx_hash_of. cbn. by rewrite decide_False. Qed.

(** One poll that finds no receipt, below the replacement threshold. *)
Lemma poll_unconfirmed wl e w id h count :
  select_pending (wallet_address wl) w = Some (mk_selected id (Some h) count None) ->
  h <> "" ->
  getTransactionReceipt e h = Ok None ->
  default 0 count + 1 < MAX_PENDING_CHECKS ->
  let w' := processWallet wl e w in
  outbox w' = outbox w /\
  select_pending (wallet_address wl) w' =
    Some (mk_selected id (Some h) (Some (default 0 count + 1)) None).
Proof.
  intros Hsel Hh Hr Hlt. cbv zeta. unfold processWallet. rewrite Hsel.
  unfold handlePendingDonation. rewrite tx_hash_of_Some by done. rewrite Hr.
  cbn [sel_check_count sel_id].
  destruct (Z.geb_spec (default 0 count + 1) MAX_PENDING_CHECKS); [lia|].
  split; [done|].
  destruct (select_pending_update_row (wallet_address wl) w id
              (set_check_count (default 0 count + 1)) (Some h) count)
    as (d & -> & Hd & _); try done.
  cbn. by rewrite Hd.
Qed.

(** Polls in a row that find no receipt, all below the threshold. *)
Lemma polls_unconfirmed wl es w id h (n : Z) :
  select_pending (wallet_address wl) w = Some (mk_selected id (Some h) (Some n) None) ->
  h <> "" ->
  0 <= n ->
  Forall (fun e => getTransactionReceipt e h = Ok None) es ->
  n + Z.of_nat (length es) < MAX_PENDING_CHECKS ->
  outbox (polls wl es w) = outbox w /\
  select_pending (wallet_address wl) (polls wl es w) =
    Some (mk_selected id (Some h) (Some (n + Z.of_nat (length es))) None).
Proof.
  intros Hsel Hh. unfold polls. revert w n Hsel.
  induction es as [|e es IH]; intros w n Hsel Hn Hall Hlt; cbn [foldl length].
  - by rewrite Z.add_0_r.
  - apply Forall_cons in Hall as [He Hall].
    assert (Hlt1 : n + 1 + Z.of_nat (length es) < MAX_PENDING_CHECKS)
      by (rewrite length_cons in Hlt; lia).
    destruct (poll_unconfirmed wl e w id h (Some n) Hsel Hh He) as [Ho Hs];
      [unfold MAX_PENDING_CHECKS in *; simpl; lia|].
    simpl in Hs.
    destruct (IH _ _ Hs) as [Ho2 Hs2]; [lia|done|done|].
    split; [congruence|]. rewrite Hs2. do 3 f_equal. lia.
Qed.

(** The poll on which the count reaches [MAX_PENDING_CHECKS]. *)
Lemma poll_stuck wl e w id h count nonce f maxFee maxPriority newHash :
  select_pending (wallet_address wl) w = Some (mk_selected id (Some h) count None) ->
  h <> "" ->
  getTransactionReceipt e h = Ok None ->
  MAX_PENDING_CHECKS <= default 0 count + 1 ->
  getTransaction e h = Ok (Some (Some nonce)) ->
  getFeeData e = Ok f ->
  boosted_maxFee f 150 = Ok maxFee ->
  boosted_priorityFee f 150 = Ok maxPriority ->
  let replacementTx :=
    SelfTransfer (private_key wl) (wallet_address wl) 0 nonce maxFee maxPriority 21000 in
  send e replacementTx = Ok newHash ->
  let w2 := processWallet wl e w in
  outbox w2 = outbox w ++ [replacementTx] /\
  select_pending (wallet_address wl) w2 = Some (mk_selected id (Some newHash) (Some 0) None).
Proof.
  intros Hsel Hh Hr Hge Htx Hfee Hmax Hprio replacementTx Hsend. cbv zeta.
  unfold processWallet. rewrite Hsel.
  unfold handlePendingDonation. rewrite tx_hash_of_Some by done. rewrite Hr.
  cbn [sel_check_count sel_id sel_tx_nonce].
  destruct (Z.geb_spec (default 0 count + 1) MAX_PENDING_CHECKS); [|lia].
  rewrite Htx. unfold replaceStuckTransaction. rewrite Hfee. cbn [mbind result_bind].
  rewrite Hmax. cbn [mbind result_bind]. rewrite Hprio. cbn [mbind result_bind].
  fold replacementTx. rewrite Hsend. cbn [mbind result_bind].
  split; [done|].
  destruct (select_pending_update_row (wallet_address wl) w id
              (set_check_count (default 0 count + 1)) (Some h) count)
    as (d & Hs1 & Hd & _); try done.
  destruct (select_pending_update_row (wallet_address wl)
              (post replacementTx (update_row id (set_check_count (default 0 count + 1)) w))
              id (set_replacement newHash) _ _ ltac:(done) ltac:(done) Hs1)
    as (d2 & -> & _). done.
Qed.

Lemma boosted_maxFee_value f boost m :
  boosted_maxFee f boost = Ok m ->
  exists estimate,
    js_or (maxFeePerGas f) (gasPrice f) = Some estimate /\
    m = Z.quot (estimate * boost) 100.
Proof.
  unfold boosted_maxFee. destruct (js_or _ _) as [x|]; cbn; [|done].
  intros [= <-]. eauto.
Qed.

Lemma boosted_priorityFee_value f boost m :
  boosted_priorityFee f boost = Ok m ->
  exists estimate,
    (js_or (maxPriorityFeePerGas f) None = Some estimate \/
     (js_or (maxPriorityFeePerGas f) None = None /\
      exists g, gasPrice f = Some g /\ estimate = Z.quot g 2)) /\
    m = Z.quot (estimate * boost) 100.
Proof.
  unfold boosted_priorityFee. destruct (js_or (maxPriorityFeePerGas f) None) as [x|]; cbn.
  - intros [= <-]. eauto.
  - destruct (gasPrice f) as [g|]; cbn; [|done]. intros [= <-]. eauto 10.
Qed.

(** C8 (as the code has it).  For a pending row with a stored transaction
    hash and [check_count = 0]: 14 polls in a row that find no receipt submit
    nothing and bring [check_count] to 14; the 15th such poll, when the node
    still returns the pending transaction with its nonce and accepts the
    replacement, submits a zero-value transfer from the wallet to itself at
    that nonce, with gas limit 21000 and with max fee and priority fee equal
    to 150% (rounded down) of the node's current estimates, stores the hash
    of the replacement on the row and resets [check_count] to 0. *)
Theorem stuck_transaction_replaced_on_fifteenth_poll
  wl w id h es e nonce f maxFee maxPriority newHash :
  select_pending (wallet_address wl) w = Some (mk_selected id (Some h) (Some 0) None) ->
  h <> "" ->
  length es = 14%nat ->
  Forall (fun e' => getTransactionReceipt e' h = Ok None) es ->
  getTransactionReceipt e h = Ok None ->
  getTransaction e h = Ok (Some (Some nonce)) ->
  getFeeData e = Ok f ->
  boosted_maxFee f 150 = Ok maxFee ->
  boosted_priorityFee f 150 = Ok maxPriority ->
  let replacementTx :=
    SelfTransfer (private_key wl) (wallet_address wl) 0 nonce maxFee maxPriority 21000 in
  send e replacementTx = Ok newHash ->
  let w14 := polls wl es w in
  let w15 := processWallet wl e w14 in
  outbox w14 = outbox w /\
  select_pending (wallet_address wl) w14 = Some (mk_selected id (Some h) (Some 14) None) /\
  outbox w15 = outbox w ++ [replacementTx] /\
  select_pending (wallet_address wl) w15 =
    Some (mk_selected id (Some newHash) (Some 0) None) /\
  (exists estimate,
     js_or (maxFeePerGas f) (gasPrice f) = Some estimate /\
     maxFee = Z.quot (estimate * 150) 100) /\
  (exists estimate,
     (js_or (maxPriorityFeePerGas f) None = Some estimate \/
      (js_or (maxPriorityFeePerGas f) None = None /\
       exists g, gasPrice f = Some g /\ estimate = Z.quot g 2)) /\
     maxPriority = Z.quot (estimate * 150) 100).
Proof.
  intros Hsel Hh Hlen Hall Hr Htx Hfee Hmax Hprio replacementTx Hsend w14 w15.
  destruct (polls_unconfirmed wl es w id h 0 Hsel Hh) as [Ho14 Hs14];
    [lia|done|rewrite Hlen; unfold MAX_PENDING_CHECKS; lia|].
  rewrite Hlen in Hs14. change (0 + Z.of_nat 14) with 14 in Hs14.
  fold w14 in Ho14, Hs14.
  destruct (poll_stuck wl e w14 id h (Some 14) nonce f maxFee maxPriority newHash
              Hs14 Hh Hr) as [Ho15 Hs15]; try done.
  fold replacementTx w15 in Ho15, Hs15.
  split_and!; try done.
  - by rewrite Ho15, Ho14.
  - by apply boosted_maxFee_value.
  - by apply boosted_priorityFee_value.
Qed.

(** C8 witness: a row submitted as [0xold] on a congested node. *)
Lemma stuck_transaction_example :
  let w := mk_world [submitted_row] 2 [] in
  let es := replicate 14 congested in
  let replacementTx := SelfTransfer "0xkey" "0xwallet" 0 5 150 45 21000 in
  let w14 := polls sample_wallet es w in
  let w15 := processWallet sample_wallet congested w14 in
  (select_pending "0xwallet" w = Some (mk_selected 1 (Some "0xold") (Some 0) None) /\
   "0xold" <> "" /\
   length es = 14%nat /\
   Forall (fun e' => getTransactionReceipt e' "0xold" = Ok None) es /\
   send congested replacementTx = Ok "0xreplacement") /\
  outbox w14 = outbox w /\
  select_pending "0xwallet" w14 = Some (mk_selected 1 (Some "0xold") (Some 14) None) /\
  outbox w15 = outbox w ++ [replacementTx] /\
  select_pending "0xwallet" w15 =
    Some (mk_selected 1 (Some "0xreplacement") (Some 0) None) /\
  (exists estimate,
     js_or (maxFeePerGas sample_fee) (gasPrice sample_fee) = Some estimate /\
     150 = Z.quot (estimate * 150) 100) /\
  (exists estimate,
     (js_or (maxPriorityFeePerGas sample_fee) None = Some estimate \/
      (js_or (maxPriorityFeePerGas sample_fee) None = None /\
       exists g, gasPrice sample_fee = Some g /\ estimate = Z.quot g 2)) /\
     45 = Z.quot (estimate * 150) 100).
Proof.
  assert (Hall : Forall (fun e' => getTransactionReceipt e' "0xold" = Ok None)
                   (replicate 14 congested)) by (repeat constructor).
  split; [split_and!; done|].
  apply (stuck_transaction_replaced_on_fifteenth_poll sample_wallet
           (mk_world [submitted_row] 2 []) 1 "0xold" (replicate 14 congested) congested
           5 sample_fee 150 45 "0xreplacement"); done.
Defined.

(** C8 as stated fails: the replacement goes out during the 15th poll that
    finds no receipt, and the poll after these 15 submits nothing (it is the
    first check of the replacement). *)
Lemma replacement_is_not_left_to_the_sixteenth_poll :
  let w := mk_world [submitted_row] 2 [] in
  let w15 := polls sample_wallet (replicate 15 congested) w in
  let w16 := processWallet sample_wallet congested w15 in
  outbox (polls sample_wallet (replicate 14 congested) w) = [] /\
  outbox w15 = [SelfTransfer "0xkey" "0xwallet" 0 5 150 45 21000] /\
  dd_check_count <$> rows w15 = [Some 0] /\
  outbox w16 = outbox w15 /\
  dd_check_count <$> rows w16 = [Some 1].
Proof. vm_compute. done. Qed.





Example funded_wallet_gets_one_pending_row :
  let w1 := ticks [sample_wallet] [funded (2 * 10 ^ 18)] empty_world in
  let w2 := ticks [sample_wallet] [funded (2 * 10 ^ 18)] w1 in
  dd_status <$> rows w1 = [pending] /\
  dd_contract_tx_hash <$> rows w1 = [Some "0xdonation"] /\
  dd_status <$> rows w2 = [pending] /\
  dd_check_count <$> rows w2 = [Some 1].
Proof. vm_compute. done. Qed.

(** The relay compares the balance as a double: 0.999999999999999999
    MATIC parses to 1 and passes the minimum, 56 wei less does not. *)
Example balance_threshold_samples :
  below_minimum (10 ^ 18) = false /\
  below_minimum (10 ^ 18 - 1) = false /\
  below_minimum (10 ^ 18 - 55) = false /\
  below_minimum (10 ^ 18 - 56) = true /\
  below_minimum 0 = true.
Proof. vm_compute. done. Qed.



Example failing_node_marks_failed :
  let broken := mk_env (fun _ => Ok None) (fun _ => Ok None) (Throw "rpc down")
                  (fun _ => Ok (2 * 10 ^ 18)) (fun _ => Ok (2 * 10 ^ 18))
                  (fun _ _ => Ok 50000) (fun _ => Ok 6) (fun _ => Ok "0xdonation") 100 in
  let w1 := processWallet sample_wallet broken (mk_world [unsent_row] 2 []) in
  dd_status <$> rows w1 = [failed] /\ outbox w1 = [].
Proof. vm_compute. done. Qed.

(** ** What the relay sends and what it keeps *)

Lemma quot_buffer a k : 0 <= a -> 100 <= k -> a <= Z.quot (a * k) 100.
Proof.
  intros Ha Hk. rewrite Z.quot_div_nonneg by lia.
  apply Z.div_le_lower_bound; nia.
Qed.

Lemma quot_nonneg a k : 0 <= a -> 0 <= k -> 0 <= Z.quot (a * k) 100.
Proof. intros. apply Z.quot_pos; nia. Qed.

Lemma js_or_nonneg a b x :
  (forall y, a = Some y -> 0 <= y) -> (forall y, b = Some y -> 0 <= y) ->
  js_or a b = Some x -> 0 <= x.
Proof.
  intros Ha Hb. unfold js_or. destruct a as [y|]; [|by apply Hb].
  destruct (y =? 0); [by apply Hb|]. intros [= <-]. by apply Ha.
Qed.

(** Whenever [sendDonationTransaction] hands a donation to the node, the
    wallet held at least 0.1 and the value sent is positive, leaves the
    minimum reserve of 0.05 in the wallet, and leaves enough to pay the gas
    limit at the maximum fee of the transaction (the node's answers being
    non-negative amounts).  Otherwise it hands nothing to the node. *)
Theorem donation_leaves_the_gas_reserve id wl e w balance f gasEstimate :
  getBalance_send e (wallet_address wl) = Ok balance ->
  getFeeData e = Ok f ->
  estimateGas e wl hard_floor = Ok gasEstimate ->
  0 <= gasEstimate ->
  (forall x, maxFeePerGas f = Some x -> 0 <= x) ->
  (forall x, gasPrice f = Some x -> 0 <= x) ->
  let w2 := sendDonationTransaction id wl e w in
  outbox w2 = outbox w \/
  exists value maxFee maxPriority gasLimit nonce,
    outbox w2 = outbox w ++ [Donate (private_key wl) (campaign_id wl) value maxFee
                               maxPriority gasLimit nonce] /\
    hard_floor <= balance /\
    0 < value /\
    value + minReserve <= balance /\
    value + gasLimit * maxFee <= balance.
Proof.
  intros Hb Hf Hg Hg0 Hmax Hprice w2. subst w2. unfold sendDonationTransaction.
  rewrite Hb. cbn [mbind result_bind].
  destruct (Z.ltb_spec balance hard_floor) as [|Hfloor]; [by left|].
  rewrite Hf. cbn [mbind result_bind].
  unfold boosted_maxFee.
  destruct (js_or (maxFeePerGas f) (gasPrice f)) as [base|] eqn:Ebase; cbn; [|by left].
  assert (Hbase : 0 <= base)
    by (eapply js_or_nonneg; [exact Hmax|exact Hprice|exact Ebase]).
  set (maxFee := Z.quot (base * GAS_PRICE_BOOST) 100).
  assert (HmaxFee : 0 <= maxFee) by (apply quot_nonneg; [done|unfold GAS_PRICE_BOOST; lia]).
  destruct (boosted_priorityFee f GAS_PRICE_BOOST) as [maxPriority|]; cbn; [|by left].
  rewrite Hg. cbn.
  set (gasLimit := Z.quot (gasEstimate * 130) 100).
  assert (HgasLimit : 0 <= gasLimit) by (apply quot_nonneg; lia).
  destruct (bigint _) as [price|] eqn:Eprice; cbn; [|by left].
  assert (Hp : gasLimit * maxFee <= gasLimit * price).
  { unfold bigint in Eprice.
    destruct (Z.eqb_spec maxFee 0) as [Hz|Hnz].
    - rewrite Hz. destruct (gasPrice f) as [g|] eqn:Eg; [|done].
      injection Eprice as <-. assert (0 <= g) by (by apply Hprice). nia.
    - injection Eprice as <-. lia. }
  set (gasCost := gasLimit * price) in *.
  assert (Hcost : 0 <= gasCost) by nia.
  assert (Hbuf : gasCost <= Z.quot (gasCost * 150) 100) by (apply quot_buffer; lia).
  set (reserve := if _ >? minReserve then _ else minReserve).
  assert (Hres : minReserve <= reserve /\ gasCost <= reserve).
  { subst reserve. destruct (Z.gtb_spec (Z.quot (gasCost * 150) 100) minReserve); lia. }
  destruct (Z.leb_spec (balance - reserve) 0) as [|Hpos]; [by left|].
  destruct (getNonce e wl) as [nonce|]; cbn; [|by left].
  destruct (send e _) as [hash|]; cbn; [|by left].
  right. exists (balance - reserve), maxFee, maxPriority, gasLimit, nonce.
  split; [done|]. split; [done|]. split; [done|]. split; lia.
Qed.

Lemma donation_leaves_the_gas_reserve_example :
  let e := funded (2 * 10 ^ 18) in
  let w := mk_world [unsent_row] 2 [] in
  let w2 := sendDonationTransaction 1 sample_wallet e w in
  (getBalance_send e (wallet_address sample_wallet) = Ok (2 * 10 ^ 18) /\
   getFeeData e = Ok sample_fee /\
   estimateGas e sample_wallet hard_floor = Ok 50000 /\
   0 <= 50000) /\
  (outbox w2 = outbox w \/
   exists value maxFee maxPriority gasLimit nonce,
     outbox w2 = outbox w ++ [Donate (private_key sample_wallet) (campaign_id sample_wallet)
                                value maxFee maxPriority gasLimit nonce] /\
     hard_floor <= 2 * 10 ^ 18 /\
     0 < value /\
     value + minReserve <= 2 * 10 ^ 18 /\
     value + gasLimit * maxFee <= 2 * 10 ^ 18).
Proof.
  intros e w w2. split.
  - split_and!; [reflexivity|reflexivity|reflexivity|lia].
  - apply (donation_leaves_the_gas_reserve 1 sample_wallet e w (2 * 10 ^ 18) sample_fee 50000).
    + reflexivity.
    + reflexivity.
    + reflexivity.
    + lia.
    + intros x [= <-]. lia.
    + intros x [= <-]. lia.
Defined.


Lemma extends_by_refl w : extends_by 0 w w.
Proof. split; [done|]. exists []. by rewrite app_nil_r. Qed.

Lemma extends_by_weaken n m w w2 : (n <= m)%nat -> extends_by n w w2 -> extends_by m w w2.
Proof. intros Hle (Hp & sent & Ho & Hl). split; [done|]. exists sent. split; [done|lia]. Qed.

Lemma extends_by_trans n m w1 w2 w3 :
  extends_by n w1 w2 -> extends_by m w2 w3 -> extends_by (n + m) w1 w3.
Proof.
  intros (Hp1 & s1 & Ho1 & Hl1) (Hp2 & s2 & Ho2 & Hl2). split; [by etrans|].
  exists (s1 ++ s2). rewrite Ho2, Ho1, <- app_assoc, length_app. split; [done|lia].
Qed.

Lemma update_row_extends id f w : keeps_identity f -> extends_by 0 w (update_row id f w).
Proof.
  intros Hf. split.
  - unfold update_row. simpl. rewrite <- list_fmap_compose.
    erewrite list_fmap_ext; [done|]. intros i d _. simpl.
    destruct (decide (dd_id d = id)); [by rewrite Hf|done].
  - exists []. by rewrite app_nil_r.
Qed.

Lemma post_extends t w : extends_by 1 w (post t w).
Proof. split; [done|]. exists [t]. done. Qed.

Lemma replaceStuckTransaction_extends id wl e nonce w :
  extends_by 1 w (replaceStuckTransaction id wl e nonce w).
Proof.
  unfold replaceStuckTransaction.
  destruct (getFeeData e) as [f|]; cbn; [|apply (extends_by_weaken 0); [lia|apply extends_by_refl]].
  destruct (boosted_maxFee f 150) as [maxFee|]; cbn;
    [|apply (extends_by_weaken 0); [lia|apply extends_by_refl]].
  destruct (boosted_priorityFee f 150) as [maxPriority|]; cbn;
    [|apply (extends_by_weaken 0); [lia|apply extends_by_refl]].
  destruct (send e _) as [hash|]; cbn;
    [|apply (extends_by_weaken 0); [lia|apply extends_by_refl]].
  eapply (extends_by_trans 1 0); [apply post_extends|]. by apply update_row_extends.
Qed.

Lemma sendDonationTransaction_extends id wl e w :
  extends_by 1 w (sendDonationTransaction id wl e w).
Proof.
  destruct (sendDonationTransaction_cases id wl e w).
  - apply (extends_by_weaken 0); [lia|apply extends_by_refl].
  - eapply (extends_by_trans 1 0); [apply post_extends|]. by apply update_row_extends.
  - apply (extends_by_weaken 0); [lia|]. by apply update_row_extends.
Qed.

Lemma handlePendingDonation_extends donation wl e w :
  extends_by 1 w (handlePendingDonation donation wl e w).
Proof.
  unfold handlePendingDonation.
  destruct (tx_hash_of donation) as [txHash|]; [|apply sendDonationTransaction_extends].
  destruct (getTransactionReceipt e txHash) as [[receipt_status|]|].
  - apply (extends_by_weaken 0); [lia|]. by apply update_row_extends.
  - set (w1 := update_row _ _ w).
    assert (H1 : extends_by 0 w w1) by (by apply update_row_extends).
    destruct (_ >=? MAX_PENDING_CHECKS); [|by apply (extends_by_weaken 0); [lia|]].
    destruct (sel_tx_nonce donation) as [nonce|].
    { eapply (extends_by_trans 0 1); [done|apply replaceStuckTransaction_extends]. }
    destruct (getTransaction e txHash) as [[[nonce|]|]|];
      try (by apply (extends_by_weaken 0); [lia|]).
    eapply (extends_by_trans 0 1); [done|apply replaceStuckTransaction_extends].
  - apply (extends_by_weaken 0); [lia|apply extends_by_refl].
Qed.

Lemma processWallet_extends wl e w : extends_by 1 w (processWallet wl e w).
Proof.
  unfold processWallet.
  destruct (select_pending (wallet_address wl) w) as [donation|];
    [apply handlePendingDonation_extends|].
  unfold checkBalanceAndCreateDonation.
  destruct (getBalance_check e (wallet_address wl)) as [balance|];
    [|apply (extends_by_weaken 0); [lia|apply extends_by_refl]].
  destruct (below_minimum balance); [apply (extends_by_weaken 0); [lia|apply extends_by_refl]|].
  eapply (extends_by_trans 0 1); [|apply sendDonationTransaction_extends].
  split; simpl.
  - rewrite fmap_app. by apply prefix_app_r.
  - exists []. by rewrite app_nil_r.
Qed.

Lemma checkWalletsAndProcess_extends wallets e w :
  extends_by (length wallets) w (checkWalletsAndProcess wallets e w).
Proof.
  unfold checkWalletsAndProcess. revert w.
  induction wallets as [|wl wallets IH]; intros w; simpl; [apply extends_by_refl|].
  eapply (extends_by_trans 1 (length wallets)); [apply processWallet_extends|apply IH].
Qed.

(** The relay never sends two transactions for one wallet in one poll, and a
    tick over the wallets sends at most one per wallet; sent transactions are
    only ever added to. *)
Theorem wallet_poll_submits_at_most_one_transaction wallets wl e w :
  (outbox (processWallet wl e w) = outbox w \/
   exists t, outbox (processWallet wl e w) = outbox w ++ [t]) /\
  exists sent,
    outbox (checkWalletsAndProcess wallets e w) = outbox w ++ sent /\
    (length sent <= length wallets)%nat.
Proof.
  split.
  - destruct (processWallet_extends wl e w) as (_ & sent & -> & Hl).
    destruct sent as [|t [|]]; [left; by rewrite app_nil_r|right; by exists t|simpl in Hl; lia].
  - apply checkWalletsAndProcess_extends.
Qed.

(** The donation ledger is append-only: whatever the node answers over any
    number of ticks, no row is deleted or reordered, new rows come at the
    end, and the id, campaign, wallet, amount, source hash and creation time
    of a row never change. *)
Theorem donation_ledger_is_append_only wallets es w :
  donation_identity <$> rows w `prefix_of` donation_identity <$> rows (ticks wallets es w).
Proof.
  unfold ticks. revert w. induction es as [|e es IH]; intros w; simpl; [done|].
  etrans; [|apply IH]. apply (checkWalletsAndProcess_extends wallets e w).
Qed.


Lemma update_row_member id f w d :
  d ∈ rows w -> dd_id d = id -> f d ∈ rows (update_row id f w).
Proof.
  intros Hd Hid. unfold update_row. simpl. apply list_elem_of_fmap.
  exists d. by rewrite decide_True.
Qed.

(** When the node reports a receipt for the transaction of a wallet's
    pending donation, that poll settles the row, as completed when the
    receipt status is 1 and as failed otherwise, stamps it and sends nothing;
    from then on no tick changes the row again. *)
Theorem receipt_settles_the_donation_for_good wl e w donation txHash receipt_status :
  well_keyed w ->
  select_pending (wallet_address wl) w = Some donation ->
  tx_hash_of donation = Some txHash ->
  getTransactionReceipt e txHash = Ok (Some receipt_status) ->
  let newStatus := if receipt_status =? 1 then completed else failed in
  let w1 := processWallet wl e w in
  exists d,
    d ∈ rows w /\ dd_id d = sel_id donation /\ dd_status d = pending /\
    outbox w1 = outbox w /\
    forall wallets es,
      set_status newStatus (now e) d ∈ rows (ticks wallets es w1).
Proof.
  intros Hwk Hsel Hhash Hreceipt newStatus w1.
  pose proof (select_pending_Some _ _ _ Hsel) as (d & Hd & Hp & Hdon).
  exists d. split; [done|]. split; [by rewrite Hdon|].
  unfold is_pending_for in Hp. apply andb_true_iff in Hp as [_ Hp].
  apply bool_decide_eq_true in Hp. split; [done|].
  assert (Hw1 : w1 = update_row (sel_id donation) (set_status newStatus (now e)) w).
  { subst w1. unfold processWallet, handlePendingDonation.
    by rewrite Hsel, Hhash, Hreceipt. }
  split; [by rewrite Hw1|].
  intros wallets es. apply ticks_settled.
  - rewrite Hw1. eapply touches_only_well_keyed; [|done].
    by apply update_row_touches.
  - rewrite Hw1. apply update_row_member; [done|by rewrite Hdon].
  - simpl. subst newStatus. by destruct (_ =? 1).
Qed.

Lemma receipt_settles_the_donation_example :
  let w := mk_world [submitted_row] 2 [] in
  let w1 := processWallet sample_wallet (confirming 1) w in
  (well_keyed w /\
   select_pending (wallet_address sample_wallet) w
     = Some (mk_selected 1 (Some "0xold") (Some 0) None)) /\
  exists d,
    d ∈ rows w /\ dd_id d = 1 /\ dd_status d = pending /\
    outbox w1 = outbox w /\
    forall wallets es,
      set_status completed 100 d ∈ rows (ticks wallets es w1).
Proof.
  intros w w1.
  assert (Hwk : well_keyed w).
  { split; simpl; [apply NoDup_singleton|]. apply Forall_singleton. lia. }
  split; [split; [exact Hwk|reflexivity]|].
  apply (receipt_settles_the_donation_for_good sample_wallet (confirming 1) w
           (mk_selected 1 (Some "0xold") (Some 0) None) "0xold" 1 Hwk).
  - reflexivity.
  - reflexivity.
  - reflexivity.
Defined.


(** ** The migration runner *)

Import Migrations MigrationsSpec.

Section RunnerProperties.

Context {Schema : Type}.
Implicit Types (ms : list (migration Schema)) (names : list string) (s : Schema).

Lemma pending_ext names names' ms :
  (forall m, m ∈ ms -> name m ∈ names <-> name m ∈ names') ->
  pending names ms = pending names' ms.
Proof.
  unfold pending. induction ms as [|m ms IH]; intros H; [done|].
  rewrite !filter_cons.
  assert (Hm : name m ∈ names <-> name m ∈ names') by (apply H; by left).
  rewrite IH by (intros; apply H; by right).
  destruct (decide (name m ∉ names)), (decide (name m ∉ names')); tauto.
Qed.

Lemma pending_app_fresh names extra ms :
  (forall m, m ∈ ms -> name m ∉ extra) ->
  pending (names ++ extra) ms = pending names ms.
Proof.
  intros H. apply pending_ext. intros m Hm. rewrite elem_of_app.
  specialize (H m Hm). tauto.
Qed.

Lemma run_all_pending ms names s :
  NoDup (name <$> ms) ->
  run_all ms (mk_database (Some names) s) = run_pending (pending names ms) names s.
Proof.
  revert names s. induction ms as [|m ms IH]; intros names s Hnd; [done|].
  rewrite fmap_cons in Hnd. apply NoDup_cons in Hnd as [Hfresh Hnd].
  simpl run_all. unfold bindQ, run_migration, bindQ, checkMigrationStatus. simpl.
  destruct (decide (name m ∈ names)) as [Hin|Hout].
  - rewrite bool_decide_eq_true_2 by done. simpl.
    unfold pending. rewrite filter_cons_False by (intros ?; done).
    by apply IH.
  - rewrite bool_decide_eq_false_2 by done. simpl.
    unfold pending. rewrite filter_cons_True by done. fold (pending names ms).
    unfold run_up. simpl. destruct (up m s) as [[[]|e] s'] eqn:E; simpl; [|done].
    unfold markMigrationExecuted. simpl. rewrite bool_decide_eq_false_2 by done.
    rewrite IH by done. f_equal.
    apply pending_app_fresh. intros m' Hm' Hin. apply list_elem_of_singleton in Hin.
    apply Hfresh. rewrite <- Hin. apply list_elem_of_fmap. eauto.
Qed.

Lemma run_pending_ok ps names s db' :
  run_pending ps names s = (Ok tt, db') ->
  migrations_table db' = Some (names ++ (name <$> ps)) /\
  apply_ups ps s = (Ok tt, schema db').
Proof.
  revert names s. induction ps as [|m ps IH]; intros names s H; simpl in *.
  - injection H as <-. by rewrite app_nil_r.
  - destruct (up m s) as [[[]|e] s'] eqn:E; [|done].
    apply IH in H as [-> ->]. by rewrite <- app_assoc.
Qed.

Lemma run_pending_throw ps names s e db' :
  run_pending ps names s = (Throw e, db') ->
  exists done_ m rest s0,
    ps = done_ ++ m :: rest /\
    migrations_table db' = Some (names ++ (name <$> done_)) /\
    apply_ups done_ s = (Ok tt, s0) /\
    up m s0 = (Throw e, schema db').
Proof.
  revert names s. induction ps as [|m ps IH]; intros names s H; simpl in *; [done|].
  destruct (up m s) as [[[]|e'] s'] eqn:E.
  - apply IH in H as (done_ & m' & rest & s0 & -> & Ht & Ha & Hu).
    exists (m :: done_), m', rest, s0. simpl. rewrite E.
    split_and!; try done. by rewrite Ht, <- app_assoc.
  - injection H as <- <-. exists [], m, ps, s. simpl. by rewrite app_nil_r.
Qed.

Lemma migrations_names_distinct (mods : migration_modules Schema) :
  NoDup (name <$> migrations mods).
Proof. simpl. apply (bool_decide_unpack _). by vm_compute. Qed.

Lemma runMigrations_pending (mods : migration_modules Schema) (db : database Schema) :
  runMigrations mods db =
  run_pending (pending (recorded_names db) (migrations mods)) (recorded_names db) (schema db).
Proof.
  unfold runMigrations, bindQ, ensureMigrationsTable.
  by rewrite run_all_pending by apply migrations_names_distinct.
Qed.

Lemma pending_resumes names (done_ rest : list (migration Schema)) m ms :
  NoDup (name <$> ms) ->
  pending names ms = done_ ++ m :: rest ->
  pending (names ++ (name <$> done_)) ms = m :: rest.
Proof.
  revert names done_. induction ms as [|x ms IH]; intros names done_ Hnd Hp.
  { by destruct done_. }
  rewrite fmap_cons in Hnd. apply NoDup_cons in Hnd as [Hfresh Hnd].
  unfold pending in *. rewrite filter_cons in Hp |- *.
  destruct (decide (name x ∉ names)) as [Hout|Hin].
  - destruct done_ as [|d done_]; simpl in Hp; injection Hp as <- Hp.
    + simpl. rewrite app_nil_r. by rewrite decide_True, Hp.
    + rewrite decide_False.
      2: { intros Hn. apply Hn. rewrite elem_of_app. right. by left. }
      rewrite <- (IH names done_ Hnd Hp). apply pending_ext.
      intros m' Hm'. rewrite !elem_of_app, fmap_cons, elem_of_cons.
      assert (name m' <> name x).
      { intros Heq. apply Hfresh. rewrite <- Heq. apply list_elem_of_fmap. eauto. }
      tauto.
  - rewrite decide_False.
    2: { intros Hn. apply Hin. intros ?. apply Hn. apply elem_of_app. by left. }
    by apply IH.
Qed.

Lemma pending_none names ms :
  (forall m, m ∈ ms -> name m ∈ names) -> pending names ms = [].
Proof.
  unfold pending. induction ms as [|m ms IH]; intros H; [done|].
  rewrite filter_cons_False; [apply IH; intros; apply H; by right|].
  intros Hn. apply Hn, H. by left.
Qed.

(** A run that succeeds has run, in the order of the list, the [up] of
    exactly the migrations that were not recorded, and recorded each after
    its [up]; afterwards all four migrations are recorded, and a further run
    calls no [up] at all and leaves the database as it is. *)
Theorem runMigrations_runs_each_pending_migration_once
  (mods mods' : migration_modules Schema) (db db' : database Schema) :
  runMigrations mods db = (Ok tt, db') ->
  let todo := pending (recorded_names db) (migrations mods) in
  migrations_table db' = Some (recorded_names db ++ (name <$> todo)) /\
  apply_ups todo (schema db) = (Ok tt, schema db') /\
  (forall m, m ∈ migrations mods -> recorded db' (name m)) /\
  runMigrations mods' db' = (Ok tt, db').
Proof.
  rewrite runMigrations_pending. intros H todo.
  apply run_pending_ok in H as [Ht Hs]. fold todo in Ht, Hs.
  assert (Hall : forall n, n ∈ name <$> migrations mods ->
                           n ∈ recorded_names db ++ (name <$> todo)).
  { intros n Hn. apply list_elem_of_fmap in Hn as (m & -> & Hm). rewrite elem_of_app.
    destruct (decide (name m ∈ recorded_names db)); [by left|right].
    apply list_elem_of_fmap. exists m. split; [done|]. by apply list_elem_of_filter. }
  split; [done|]. split; [done|]. split.
  - intros m Hm. eexists. split; [done|]. apply Hall, list_elem_of_fmap. eauto.
  - rewrite runMigrations_pending. unfold recorded_names at 1 2. rewrite Ht. simpl.
    rewrite pending_none; [destruct db'; simpl in *; by rewrite Ht|].
    intros m Hm. apply Hall. simpl in *.
    repeat (apply elem_of_cons in Hm as [->|Hm]; [set_solver|]).
    by apply elem_of_nil in Hm.
Qed.

(** A run that fails has stopped at the first pending migration whose [up]
    threw, with the error of that [up]: the pending migrations before it were
    run and recorded, the failing one is not recorded, and the next run starts
    again with it. *)
Theorem runMigrations_stops_at_the_failing_migration
  (mods : migration_modules Schema) (db db' : database Schema) (e : error) :
  runMigrations mods db = (Throw e, db') ->
  exists done_ m rest s0,
    pending (recorded_names db) (migrations mods) = done_ ++ m :: rest /\
    migrations_table db' = Some (recorded_names db ++ (name <$> done_)) /\
    apply_ups done_ (schema db) = (Ok tt, s0) /\
    up m s0 = (Throw e, schema db') /\
    pending (recorded_names db') (migrations mods) = m :: rest.
Proof.
  rewrite runMigrations_pending. intros H.
  apply run_pending_throw in H as (done_ & m & rest & s0 & Hp & Ht & Ha & Hu).
  exists done_, m, rest, s0. split_and!; try done.
  unfold recorded_names at 1. rewrite Ht. simpl.
  apply pending_resumes; [apply migrations_names_distinct|done].
Qed.

End RunnerProperties.

Lemma runMigrations_runs_each_pending_migration_once_example :
  let db := mk_database (Some ["001_initial_schema"]) [1] in
  let db' := (runMigrations (sample_modules false) db).2 in
  let todo := pending (recorded_names db) (migrations (sample_modules false)) in
  runMigrations (sample_modules false) db = (Ok tt, db') /\
  migrations_table db' = Some (recorded_names db ++ (name <$> todo)) /\
  apply_ups todo (schema db) = (Ok tt, schema db') /\
  (forall m, m ∈ migrations (sample_modules false) -> recorded db' (name m)) /\
  runMigrations (sample_modules true) db' = (Ok tt, db').
Proof.
  intros db db' todo.
  assert (H : runMigrations (sample_modules false) db = (Ok tt, db')) by reflexivity.
  split; [exact H|].
  exact (runMigrations_runs_each_pending_migration_once (sample_modules false)
           (sample_modules true) db db' H).
Defined.

Lemma runMigrations_stops_at_the_failing_migration_example :
  let db := mk_database None [] in
  let db' := (runMigrations (sample_modules true) db).2 in
  runMigrations (sample_modules true) db = (Throw "relation already exists", db') /\
  exists done_ m rest s0,
    pending (recorded_names db) (migrations (sample_modules true)) = done_ ++ m :: rest /\
    migrations_table db' = Some (recorded_names db ++ (name <$> done_)) /\
    apply_ups done_ (schema db) = (Ok tt, s0) /\
    up m s0 = (Throw "relation already exists", schema db') /\
    pending (recorded_names db') (migrations (sample_modules true)) = m :: rest.
Proof.
  intros db db'.
  assert (H : runMigrations (sample_modules true) db
              = (Throw "relation already exists", db')) by reflexivity.
  split; [exact H|].
  exact (runMigrations_stops_at_the_failing_migration (sample_modules true) db db' _ H).
Defined.


(** ** Start-up *)

Import Startup StartupSpec.

Section StartupProperties.

Context {Provider Contract : Type}.
Variable JsonRpcProvider : string -> result Provider.
Variable new_Contract : string -> bool -> Provider -> result Contract.

Lemma issues_of_nil entry : issues_of entry = [] <-> configured entry.
Proof.
  unfold issues_of, configured.
  destruct (unset (rpc entry.2)), (unset (contractAddress entry.2)); simpl; split;
    try done; by intros [? ?].
Qed.

Lemma issues_nil NETWORKS :
  concat (issues_of <$> NETWORKS) = [] <-> Forall configured NETWORKS.
Proof.
  induction NETWORKS as [|entry rest IH]; [split; [constructor|done]|].
  rewrite fmap_cons, Forall_cons, <- issues_of_nil, <- IH.
  change (concat (issues_of entry :: (issues_of <$> rest)))
    with (issues_of entry ++ concat (issues_of <$> rest)).
  split.
  - by intros [? ?]%app_eq_nil.
  - by intros [-> ->].
Qed.

Lemma validateEnvironment_ok NETWORKS :
  validateEnvironment NETWORKS = Ok tt <-> Forall configured NETWORKS.
Proof.
  rewrite <- issues_nil. unfold validateEnvironment.
  destruct (concat (issues_of <$> NETWORKS)) as [|i is_]; [done|].
  rewrite bool_decide_eq_true_2 by (simpl; lia). done.
Qed.

Lemma initialize_network_keeps (h : handles Provider Contract) entry :
  contracts_have_providers h ->
  contracts_have_providers (initialize_network JsonRpcProvider new_Contract h entry).
Proof.
  intros Hh. unfold initialize_network.
  destruct (rpc entry.2) as [url|]; [|done].
  destruct (contractAddress entry.2) as [address|]; [|done].
  destruct (_ || _); [done|].
  destruct (JsonRpcProvider url) as [p|]; [|done].
  assert (H1 : contracts_have_providers
                 (mk_handles (<[entry.1 := p]> (providers h)) (contracts h))).
  { intros network Hc. simpl in *. rewrite lookup_insert_is_Some.
    destruct (decide (entry.1 = network)); [by left|right]. split; [done|by apply Hh]. }
  destruct (new_Contract address _ p) as [c|]; [|done].
  intros network Hc. simpl in *. rewrite lookup_insert_is_Some in Hc.
  destruct Hc as [->|[Hne Hc]].
  - by rewrite lookup_insert_eq.
  - by apply H1.
Qed.

(** [initialize] goes through only when every network of the configuration,
    main or not, has both its RPC URL and its contract address: one missing
    setting makes it throw before any provider is created.  When it goes
    through, a contract handle is never left without its provider. *)
Theorem initialize_needs_every_network_configured NETWORKS (h : handles Provider Contract) :
  let rh := initialize JsonRpcProvider new_Contract NETWORKS h in
  (rh.1 = Ok tt <-> Forall configured NETWORKS) /\
  (rh.1 <> Ok tt -> rh.2 = h) /\
  (contracts_have_providers h -> contracts_have_providers rh.2).
Proof.
  intros rh. subst rh. unfold initialize.
  pose proof (validateEnvironment_ok NETWORKS) as Hv.
  destruct (validateEnvironment NETWORKS) as [[]|e]; simpl.
  - split; [done|]. split; [done|]. unfold initializeProviders. clear Hv.
    revert h. induction NETWORKS as [|entry rest IH]; intros h Hh; simpl; [done|].
    apply IH. by apply initialize_network_keeps.
  - split; [|done]. split; [done|]. intros Hall. by apply Hv in Hall.
Qed.

End StartupProperties.

Example initialize_rejects_incomplete_configuration :
  (initialize (fun url => Ok url) (fun address _ p => Ok (address, p))
     (sample_networks false) (mk_handles ∅ ∅)).1
  = Throw "Environment validation failed: Missing contract address for base" /\
  (initialize (fun url => Ok url) (fun address _ p => Ok (address, p))
     (sample_networks true) (mk_handles ∅ ∅)).1 = Ok tt.
Proof. split; reflexivity. Qed.

(** ** The direct-donation wallet endpoint *)

Import Api ApiSpec.

Section ApiProperties.

Variable hmac_sha256 : string -> string -> string.
Variable address_of_key : string -> result string.

Lemma find_wallet_app id ws row :
  List.find (fun w => bool_decide (cw_campaign_id w = id)) ws = None ->
  cw_campaign_id row = id ->
  List.find (fun w => bool_decide (cw_campaign_id w = id)) (ws ++ [row]) = Some row.
Proof.
  intros Hnone Hrow. induction ws as [|w ws IH]; simpl in *.
  - by rewrite bool_decide_eq_true_2.
  - destruct (bool_decide (cw_campaign_id w = id)); [done|]. by apply IH.
Qed.

Lemma find_wallet_None id ws :
  List.find (fun w => bool_decide (cw_campaign_id w = id)) ws = None ->
  id ∉ cw_campaign_id <$> ws.
Proof.
  induction ws as [|w ws IH]; simpl; [intros _; apply not_elem_of_nil|].
  destruct (bool_decide (cw_campaign_id w = id)) eqn:E; [done|].
  apply bool_decide_eq_false in E. intros H. apply not_elem_of_cons. split; [done|].
  by apply IH.
Qed.

(** The endpoint is get-or-create.  Once it has answered with a wallet for
    a campaign, every later request for that campaign answers with the same
    address and changes nothing, whatever the master seed is by then; a
    request adds at most one row, and only when it answers with a wallet
    that was not there. *)
Theorem direct_wallet_is_get_or_create id seed seed' t t' address network token :
  direct_wallet hmac_sha256 address_of_key id seed t
    = (wallet_json id address network token, t') ->
  direct_wallet hmac_sha256 address_of_key id seed' t'
    = (wallet_json id address "polygon" "POL", t') /\
  (t' = t \/
   exists privateKey,
     token = "MATIC" /\
     (id ∉ cw_campaign_id <$> campaign_wallets t) /\
     t' = mk_tables (campaign_ids t) (campaign_wallets t ++ [mk_wallet_row id address privateKey])).
Proof.
  unfold direct_wallet at 1.
  destruct (bool_decide (id ∈ campaign_ids t)) eqn:Eid; [|done].
  destruct (List.find _ (campaign_wallets t)) as [w|] eqn:Efind.
  - intros [= <- <- <- <-]. split; [|by left].
    unfold direct_wallet. by rewrite Eid, Efind.
  - destruct seed as [s|]; [|done]. destruct (bool_decide (s = "")); [done|].
    destruct (generateCampaignWallet _ _ id (Some s)) as [[a k]|]; [|done].
    unfold insert_wallet. simpl. destruct (bool_decide (a ∈ _)); [done|].
    intros [= <- <- <- <-]. split.
    + unfold direct_wallet. simpl. rewrite Eid.
      by rewrite (find_wallet_app id _ (mk_wallet_row id a k) Efind).
    + right. exists k. split; [done|]. split; [by apply find_wallet_None|done].
Qed.

(** No request breaks the uniqueness of wallets: addresses stay distinct and
    no campaign gets a second wallet; and a request that does not answer
    with a wallet leaves the tables as they are. *)
Theorem direct_wallet_keeps_wallets_unique id seed t :
  let answer := direct_wallet hmac_sha256 address_of_key id seed t in
  (wallets_unique t -> wallets_unique answer.2) /\
  campaign_ids answer.2 = campaign_ids t /\
  (forall code error, answer.1 = status_json code error -> answer.2 = t).
Proof.
  intros answer. subst answer. unfold direct_wallet.
  destruct (bool_decide (id ∈ campaign_ids t)) eqn:Eid; [|done].
  destruct (List.find _ (campaign_wallets t)) as [w|] eqn:Efind; [done|].
  destruct seed as [s|]; [|done]. destruct (bool_decide (s = "")); [done|].
  destruct (generateCampaignWallet _ _ id (Some s)) as [[a k]|]; [|done].
  unfold insert_wallet. simpl. destruct (bool_decide (a ∈ _)) eqn:Ea; [done|].
  apply bool_decide_eq_false in Ea. simpl. split; [|done].
  intros [Ha Hc]. split; simpl; rewrite fmap_app; apply NoDup_app.
  - split_and!; [done| |apply NoDup_singleton].
    intros x Hx Hx'. apply list_elem_of_singleton in Hx'. by subst x.
  - split_and!; [done| |apply NoDup_singleton].
    intros x Hx Hx'. apply list_elem_of_singleton in Hx'. subst x.
    by apply find_wallet_None in Efind.
Qed.

End ApiProperties.

Lemma direct_wallet_is_get_or_create_example :
  let t := mk_tables ["7"] [] in
  let answer := direct_wallet sample_hmac sample_address "7" (Some "seed") t in
  answer = (wallet_json "7" "0xaddress-of-0xcampaign-7" "polygon" "MATIC", answer.2) /\
  direct_wallet sample_hmac sample_address "7" None answer.2
    = (wallet_json "7" "0xaddress-of-0xcampaign-7" "polygon" "POL", answer.2) /\
  (answer.2 = t \/
   exists privateKey,
     "MATIC" = "MATIC" /\
     ("7" ∉ cw_campaign_id <$> campaign_wallets t) /\
     answer.2 = mk_tables (campaign_ids t)
                  (campaign_wallets t
                   ++ [mk_wallet_row "7" "0xaddress-of-0xcampaign-7" privateKey])).
Proof.
  intros t answer.
  assert (H : answer
              = (wallet_json "7" "0xaddress-of-0xcampaign-7" "polygon" "MATIC", answer.2))
    by reflexivity.
  split; [exact H|].
  exact (direct_wallet_is_get_or_create sample_hmac sample_address "7" (Some "seed") None
           t answer.2 _ _ _ H).
Defined.

(** ** The main-chain contract *)

Import FunditMain FunditMainSpec.

Local Open Scope N_scope.

Lemma require_Ok condition reason u : require condition reason = Ok u -> condition = true.
Proof. unfold require. by destruct condition. Qed.

Lemma checked_add_Ok a b c : checked_add a b = Ok c -> c = a + b /\ a + b <= uint256_max.
Proof. unfold checked_add. destruct (N.leb_spec (a + b) uint256_max); [|done]. by intros [= <-]. Qed.

Lemma checked_sub_Ok a b c : checked_sub a b = Ok c -> c = a - b /\ b <= a.
Proof. unfold checked_sub. destruct (N.leb_spec b a); [|done]. by intros [= <-]. Qed.

Lemma checked_mul_Ok a b c : checked_mul a b = Ok c -> c = a * b /\ a * b <= uint256_max.
Proof. unfold checked_mul. destruct (N.leb_spec (a * b) uint256_max); [|done]. by intros [= <-]. Qed.

Lemma checked_div_Ok a b c : checked_div a b = Ok c -> c = a / b /\ b <> 0.
Proof. unfold checked_div. destruct (N.eqb_spec b 0); [done|]. by intros [= <-]. Qed.

(** Takes a successful run of straight-line contract code apart, one
    statement at a time. *)
Ltac contract_steps H :=
  unfold mbind, result_bind in H; cbv zeta in H;
  repeat match type of H with
    | match ?m with Ok _ => _ | Throw _ => _ end = _ =>
        let E := fresh "E" in destruct m eqn:E; [|discriminate H]
    end;
  repeat match goal with
    | E : require _ _ = Ok _ |- _ => apply require_Ok in E
    | E : checked_add _ _ = Ok _ |- _ => apply checked_add_Ok in E as [-> ?]
    | E : checked_sub _ _ = Ok _ |- _ => apply checked_sub_Ok in E as [-> ?]
    | E : checked_mul _ _ = Ok _ |- _ => apply checked_mul_Ok in E as [-> ?]
    | E : checked_div _ _ = Ok _ |- _ => apply checked_div_Ok in E as [-> ?]
    end.

Lemma balance_at_insert (balances : gmap N N) account v a :
  balance_at (<[account := v]> balances) a = if decide (account = a) then v else balance_at balances a.
Proof.
  unfold balance_at. destruct (decide (account = a)) as [->|].
  - by rewrite lookup_insert_eq.
  - by rewrite lookup_insert_ne.
Qed.

Lemma campaign_at_insert st st' id campaign a :
  campaigns st' = <[id := campaign]> (campaigns st) ->
  campaign_at st' a = if decide (id = a) then campaign else campaign_at st a.
Proof.
  unfold campaign_at. intros ->. destruct (decide (id = a)) as [->|].
  - by rewrite lookup_insert_eq.
  - by rewrite lookup_insert_ne.
Qed.

Lemma credit_effect campaignId donor netUsd st st' :
  credit campaignId donor netUsd st = Ok st' ->
  userWithdrawnBalance st' = userWithdrawnBalance st /\
  creatorEndedBalance st' = creatorEndedBalance st /\
  feeBasisPoints st' = feeBasisPoints st /\
  campaignCount st' = campaignCount st /\
  withdrawalRequestCount st' = withdrawalRequestCount st /\
  withdrawalRequests st' = withdrawalRequests st /\
  outgoing st' = outgoing st /\
  events st' = events st ++ [DonationMade campaignId donor netUsd] /\
  campaigns st' =
    <[campaignId :=
        mk_Campaign (name (campaign_at st campaignId)) (target (campaign_at st campaignId))
          (description (campaign_at st campaignId)) (socialLink (campaign_at st campaignId))
          (imageId (campaign_at st campaignId)) (creator (campaign_at st campaignId))
          (ended (campaign_at st campaignId))
          (totalStable (campaign_at st campaignId) + netUsd)]> (campaigns st).
Proof.
  unfold credit. intros H. contract_steps H. injection H as <-. by split_and!.
Qed.

Lemma donate_effect x campaignId token amount m st st' :
  donate x campaignId token amount m st = Ok st' ->
  ended (campaign_at st campaignId) = false /\
  exists netUsd st0,
    credit campaignId (sender m) netUsd st0 = Ok st' /\
    campaigns st0 = campaigns st /\
    userWithdrawnBalance st0 = userWithdrawnBalance st /\
    creatorEndedBalance st0 = creatorEndedBalance st /\
    feeBasisPoints st0 = feeBasisPoints st /\
    campaignCount st0 = campaignCount st /\
    withdrawalRequestCount st0 = withdrawalRequestCount st /\
    withdrawalRequests st0 = withdrawalRequests st /\
    events st0 = events st.
Proof.
  unfold donate. intros H. unfold mbind, result_bind in H; cbv zeta in H.
  destruct (whenNotPaused st) eqn:Ep; [|done].
  destruct (require (negb (ended (campaign_at st campaignId))) _) eqn:Ee; [|done].
  apply require_Ok, negb_true_iff in Ee. split; [done|].
  destruct (token =? 0); contract_steps H; eexists _, _; (split; [exact H|]); by split_and!.
Qed.

Lemma lzReceive_effect srcEid origin_sender payload st st' :
  _lzReceive srcEid origin_sender payload st = Ok st' ->
  exists campaignId donationAmount,
    payload = Ok (campaignId, donationAmount) /\
    0 < campaignId <= campaignCount st /\
    ended (campaign_at st campaignId) = false /\
    credit campaignId (bytes32ToAddress origin_sender) donationAmount st = Ok st'.
Proof.
  unfold _lzReceive. intros H. unfold mbind, result_bind in H; cbv zeta in H.
  destruct (require (origin_sender =? _) _) eqn:E1; [|done].
  destruct payload as [[campaignId donationAmount]|]; [|done]. simpl in H.
  destruct (require (_ && _) _) eqn:E2; [|done].
  destruct (require (negb _) _) eqn:E3; [|done].
  apply require_Ok, andb_true_iff in E2 as [?%N.ltb_lt ?%N.leb_le].
  apply require_Ok, negb_true_iff in E3.
  exists campaignId, donationAmount. by split_and!.
Qed.

(** Unfolds the function a call runs. *)
Ltac head_of t :=
  lazymatch t with
  | ?f _ => head_of f
  | _ => t
  end.

Ltac unfold_call H :=
  lazymatch type of H with
  | ?lhs = _ => let f := head_of lhs in unfold f in H
  end.

Lemma emergencyRescue_effect x token amount m st st' :
  emergencyRescue x token amount m st = Ok st' ->
  exists t, st' = record t st.
Proof.
  unfold emergencyRescue. intros H. unfold mbind, result_bind in H.
  destruct (nonpayable m); [|done]. destruct (onlyOwner m st); [|done].
  destruct (token =? 0); contract_steps H; injection H as <-; by eexists.
Qed.

(** The solvency of withdrawals.  In every state the contract can reach, no
    account has requested withdrawals worth more than its ended campaigns
    raised, and the fee rate is below the divisor: the subtraction that
    computes the withdrawable balance cannot underflow, and a fee never
    exceeds the amount it is taken from. *)
Theorem withdrawals_stay_within_ended_funds st :
  reachable st -> solvent st /\ feeBasisPoints st < BASIS_POINTS_DIVISOR.
Proof.
  induction 1 as [e f v bp m st H|x c m st st' Hr [IHs IHf] H].
  - unfold constructor in H. contract_steps H. injection H as <-. split.
    + intros account. done.
    + simpl. by apply N.ltb_lt.
  - destruct c; simpl in H.
    all: lazymatch type of H with
         | donate _ _ _ _ _ _ = _ =>
             apply donate_effect in H as (_ & netUsd & st0 & H & _ & Hw & He & Hf & _);
             apply credit_effect in H as (Hw' & He' & Hf' & _);
             unfold solvent; rewrite Hw', He', Hf', Hw, He, Hf; by split
         | _lzReceive _ _ _ _ = _ =>
             apply lzReceive_effect in H as (? & ? & _ & _ & _ & H);
             apply credit_effect in H as (Hw' & He' & Hf' & _);
             unfold solvent; rewrite Hw', He', Hf'; by split
         | emergencyRescue _ _ _ _ _ = _ =>
             apply emergencyRescue_effect in H as [t ->]; by split
         | updateFeeBasisPoints _ _ _ = _ =>
             unfold_call H; contract_steps H; injection H as <-;
             split; [exact IHs|simpl; by apply N.ltb_lt]
         | endCampaign _ _ _ = _ => idtac
         | requestWithdrawal _ _ _ _ _ _ = _ => idtac
         | _ => unfold_call H; contract_steps H; injection H as <-; by split
         end.
    + (* endCampaign *)
      unfold_call H. contract_steps H. injection H as <-. split; [|done].
      intros account. simpl. rewrite balance_at_insert. specialize (IHs account).
      destruct (decide _) as [->|]; lia.
    + (* requestWithdrawal *)
      unfold_call H. contract_steps H. injection H as <-. split; [|done].
      intros account. simpl. rewrite balance_at_insert. specialize (IHs account).
      destruct (decide _) as [<-|]; [|done].
      match goal with E : (_ <=? _) = true |- _ => apply N.leb_le in E end. lia.
Qed.

Lemma request_at_insert st st' id request a :
  withdrawalRequests st' = <[id := request]> (withdrawalRequests st) ->
  request_at st' a = if decide (id = a) then request else request_at st a.
Proof.
  unfold request_at. intros ->. destruct (decide (id = a)) as [->|].
  - by rewrite lookup_insert_eq.
  - by rewrite lookup_insert_ne.
Qed.

Lemma donated_app id l1 l2 : donated id (l1 ++ l2) = donated id l1 + donated id l2.
Proof.
  induction l1 as [|ev l1 IH]; [done|]. simpl. rewrite IH.
  destruct ev; try done. destruct (_ =? id); lia.
Qed.

Lemma processed_events_app id l1 l2 :
  processed_events id (l1 ++ l2) = processed_events id l1 ++ processed_events id l2.
Proof. apply List.filter_app. Qed.

Lemma credit_step campaignId donor netUsd st st' :
  ended (campaign_at st campaignId) = false ->
  credit campaignId donor netUsd st = Ok st' ->
  step_effect st st'.
Proof.
  intros Hopen H. apply credit_effect in H as (_ & _ & _ & Hc & Hw & Hr & _ & He & Hcs).
  unfold step_effect. rewrite Hc, Hw. split; [done|]. split; [done|].
  eexists. split; [exact He|]. split.
  - intros id _. rewrite (campaign_at_insert _ _ _ _ id Hcs). simpl.
    destruct (decide (campaignId = id)) as [->|Hne]; simpl.
    + rewrite N.eqb_refl. split; [lia|]. intros Hended. congruence.
    + rewrite (proj2 (N.eqb_neq _ _)) by done. split; [lia|done].
  - intros id _ _. unfold request_at. by rewrite Hr.
Qed.

Lemma step_effect_frame st st' new :
  campaignCount st' = campaignCount st ->
  campaigns st' = campaigns st ->
  withdrawalRequestCount st' = withdrawalRequestCount st ->
  withdrawalRequests st' = withdrawalRequests st ->
  events st' = events st ++ new ->
  (forall id, donated id new = 0) ->
  (forall id, processed_events id new = []) ->
  step_effect st st'.
Proof.
  intros Hc Hcs Hw Hws He Hd Hp. unfold step_effect. rewrite Hc, Hw.
  split; [done|]. split; [done|]. exists new. split; [done|]. split.
  - intros id _. unfold campaign_at. rewrite Hcs, Hd. split; [lia|done].
  - intros id _ _. unfold request_at. by rewrite Hws.
Qed.

Lemma exec_effect x c m st st' : exec x c m st = Ok st' -> step_effect st st'.
Proof.
  intros H. destruct c; simpl in H.
  all: lazymatch type of H with
       | donate _ _ _ _ _ _ = _ =>
           apply donate_effect in H as (Hopen & netUsd & st0 & H & Hcs & _ & _ & _ & Hc & Hw & Hws & He);
           apply credit_step in H; [|by unfold campaign_at in *; rewrite Hcs];
           unfold step_effect, campaign_at, request_at in *;
           by rewrite Hcs, Hc, Hw, Hws, He in H
       | _lzReceive _ _ _ _ = _ =>
           apply lzReceive_effect in H as (? & ? & _ & _ & Hopen & H);
           by apply credit_step in H
       | emergencyRescue _ _ _ _ _ = _ =>
           apply emergencyRescue_effect in H as [t ->];
           by apply (step_effect_frame _ _ []); [..|by rewrite app_nil_r| |]
       | createCampaign _ _ _ _ _ _ _ = _ => idtac
       | editCampaign _ _ _ _ _ _ _ _ = _ => idtac
       | endCampaign _ _ _ = _ => idtac
       | requestWithdrawal _ _ _ _ _ _ = _ => idtac
       | processWithdrawalRequest _ _ _ = _ => idtac
       | _ =>
           unfold_call H; contract_steps H; injection H as <-;
           first [ by apply (step_effect_frame _ _ []); [..|by rewrite app_nil_r| |]
                 | by eapply step_effect_frame; [..|reflexivity| |] ]
       end.
  - (* createCampaign *)
    unfold_call H. contract_steps H. injection H as <-.
    unfold step_effect. simpl. split; [lia|]. split; [done|].
    eexists. split; [done|]. split.
    + intros id Hid. erewrite campaign_at_insert by (simpl; reflexivity).
      rewrite decide_False by lia. split; [simpl; lia|done].
    + done.
  - (* editCampaign *)
    unfold_call H. contract_steps H. injection H as <-.
    unfold step_effect. simpl. split; [done|]. split; [done|].
    eexists. split; [done|]. split.
    + intros id Hid. erewrite campaign_at_insert by (simpl; reflexivity).
      match goal with E : negb _ = true |- _ => apply negb_true_iff in E end.
      destruct (decide (campaignId = id)) as [->|Hne]; simpl.
      * split; [lia|]. intros Hended. congruence.
      * split; [lia|done].
    + done.
  - (* endCampaign *)
    unfold_call H. contract_steps H. injection H as <-.
    unfold step_effect. simpl. split; [done|]. split; [done|].
    eexists. split; [done|]. split.
    + intros id Hid. erewrite campaign_at_insert by (simpl; reflexivity).
      match goal with E : negb _ = true |- _ => apply negb_true_iff in E end.
      destruct (decide (campaignId = id)) as [->|Hne]; simpl.
      * split; [lia|]. intros Hended. congruence.
      * split; [lia|done].
    + done.
  - (* requestWithdrawal *)
    unfold_call H. contract_steps H. injection H as <-.
    unfold step_effect. simpl. split; [done|]. split; [apply N.le_add_r|].
    eexists. split; [done|]. split.
    + intros id Hid. split; [unfold campaign_at; simpl; by rewrite N.add_0_r|done].
    + intros id Hid _. erewrite request_at_insert by (simpl; reflexivity).
      rewrite decide_False; [done|]. clear -Hid. lia.
  - (* processWithdrawalRequest *)
    unfold_call H. contract_steps H. injection H as <-.
    unfold step_effect. simpl. split; [done|]. split; [done|].
    eexists. split; [done|]. split.
    + intros id Hid. split; [unfold campaign_at; simpl; by rewrite N.add_0_r|done].
    + intros id Hid Hdone. erewrite request_at_insert by (simpl; reflexivity).
      match goal with E : negb _ = true |- _ => apply negb_true_iff in E end.
      destruct (decide (_ = id)) as [->|Hne]; [congruence|].
      split; [done|].
      unfold processed_events. simpl. by rewrite (proj2 (N.eqb_neq _ _)).
Qed.


Lemma step_effect_refl st : step_effect st st.
Proof.
  split; [done|]. split; [done|]. exists []. rewrite app_nil_r. split; [done|].
  split; [intros id _; split; [simpl; lia|done]|done].
Qed.

Lemma step_effect_trans st1 st2 st3 :
  step_effect st1 st2 -> step_effect st2 st3 -> step_effect st1 st3.
Proof.
  intros (Hc1 & Hw1 & new1 & He1 & Ht1 & Hr1) (Hc2 & Hw2 & new2 & He2 & Ht2 & Hr2).
  split; [lia|]. split; [lia|]. exists (new1 ++ new2).
  split; [by rewrite He2, He1, app_assoc|]. split.
  - intros id Hid. destruct (Ht1 id Hid) as [Ha Hb].
    destruct (Ht2 id) as [Ha' Hb']; [lia|]. split.
    + rewrite Ha', Ha, donated_app. lia.
    + intros Hended. rewrite Hb', (Hb Hended); [done|]. by rewrite (Hb Hended).
  - intros id Hid Hdone. destruct (Hr1 id Hid Hdone) as [Ha Hb].
    destruct (Hr2 id) as [Ha' Hb']; [lia|by rewrite Ha|].
    split; [by rewrite Ha', Ha|]. by rewrite processed_events_app, Hb, Hb'.
Qed.

Lemma run_effect calls st st' : run calls st = Ok st' -> step_effect st st'.
Proof.
  revert st. induction calls as [|[[x c] m] calls IH]; intros st H; simpl in H.
  - injection H as <-. apply step_effect_refl.
  - destruct (exec x c m st) as [st1|] eqn:E; [|done]. simpl in H.
    eapply step_effect_trans; [by eapply exec_effect|by apply IH].
Qed.

(** An ended campaign is final.  When [endCampaign] goes through for an
    existing campaign, it logs [CampaignEnded] with the campaign's total, and
    whatever is called afterwards, the campaign stays ended, its record never
    changes again and no donation is logged for it: the value of the event
    remains the campaign's total. *)
Theorem campaign_ended_event_is_final x campaignId m st st1 calls st' :
  exec x (EndCampaign campaignId) m st = Ok st1 ->
  campaignId <= campaignCount st ->
  run calls st1 = Ok st' ->
  exists later,
    events st' = events st
      ++ [CampaignEnded campaignId (totalStable (campaign_at st campaignId))] ++ later /\
    donated campaignId later = 0 /\
    campaign_at st' campaignId = campaign_at st1 campaignId /\
    ended (campaign_at st' campaignId) = true /\
    totalStable (campaign_at st' campaignId) = totalStable (campaign_at st campaignId).
Proof.
  intros H Hid Hrun. simpl in H. unfold endCampaign in H. contract_steps H.
  injection H as <-.
  apply run_effect in Hrun as (_ & _ & later & He & Ht & _).
  destruct (Ht campaignId) as [Htotal Hfrozen]; [done|].
  assert (Hnow : campaign_at
            (emit (CampaignEnded campaignId (totalStable (campaign_at st campaignId)))
               (set_creatorEndedBalance
                  <[creator (campaign_at st campaignId) :=
                      balance_at (creatorEndedBalance st) (creator (campaign_at st campaignId))
                      + totalStable (campaign_at st campaignId)]>
                  (set_campaigns
                     <[campaignId :=
                         mk_Campaign (name (campaign_at st campaignId))
                           (target (campaign_at st campaignId))
                           (description (campaign_at st campaignId))
                           (socialLink (campaign_at st campaignId))
                           (imageId (campaign_at st campaignId))
                           (creator (campaign_at st campaignId)) true
                           (totalStable (campaign_at st campaignId))]> st))) campaignId
          = mk_Campaign (name (campaign_at st campaignId))
              (target (campaign_at st campaignId))
              (description (campaign_at st campaignId))
              (socialLink (campaign_at st campaignId))
              (imageId (campaign_at st campaignId))
              (creator (campaign_at st campaignId)) true
              (totalStable (campaign_at st campaignId))).
  { erewrite campaign_at_insert by (simpl; reflexivity). by rewrite decide_True. }
  rewrite Hnow in Htotal, Hfrozen. specialize (Hfrozen eq_refl).
  exists later. split; [by rewrite He; simpl; rewrite <- app_assoc|].
  rewrite Hfrozen in Htotal. simpl in Htotal.
  rewrite Hnow, Hfrozen. split; [|done].
  clear -Htotal. lia.
Qed.

(** The raised total follows the donation events.  Over any calls that go
    through, the total of every campaign that existed at the start grows by
    exactly the amounts of the [DonationMade] events logged for it meanwhile,
    and the log only grows. *)
Theorem raised_total_follows_donation_events calls st st' :
  run calls st = Ok st' ->
  exists new,
    events st' = events st ++ new /\
    forall campaignId,
      campaignId <= campaignCount st ->
      totalStable (campaign_at st' campaignId)
      = totalStable (campaign_at st campaignId) + donated campaignId new.
Proof.
  intros H. apply run_effect in H as (_ & _ & new & He & Ht & _).
  exists new. split; [done|]. intros id Hid. by apply Ht.
Qed.

(** A withdrawal request is processed once.  After an existing request was
    marked processed, no later call changes it and no further
    [WithdrawalProcessed] event is logged for it. *)
Theorem processed_withdrawal_is_final calls st st' requestId :
  run calls st = Ok st' ->
  requestId <= withdrawalRequestCount st ->
  processed (request_at st requestId) = true ->
  request_at st' requestId = request_at st requestId /\
  exists new, events st' = events st ++ new /\ processed_events requestId new = [].
Proof.
  intros H Hid Hdone. apply run_effect in H as (_ & _ & new & He & _ & Hr).
  destruct (Hr requestId Hid Hdone). split; [done|]. by exists new.
Qed.


Lemma checked_add_Throw a b e : checked_add a b = Throw e -> uint256_max < a + b.
Proof. unfold checked_add. by destruct (N.leb_spec (a + b) uint256_max). Qed.

Lemma checked_sub_Throw a b e : checked_sub a b = Throw e -> a < b.
Proof. unfold checked_sub. by destruct (N.leb_spec b a). Qed.

(** A native donation is passed on in full.  When [donate] goes through with
    the native coin, the contract has paid the fee share of the value to the
    fee wallet and all the rest to the vault wallet, keeping nothing, and has
    logged one [DonationMade] event whose amount is the converted value less
    the same share. *)
Theorem native_donation_is_passed_on_in_full x campaignId amount m st st' :
  donate x campaignId 0 amount m st = Ok st' ->
  exists fee usdValue,
    fee = value m * feeBasisPoints st / BASIS_POINTS_DIVISOR /\
    fee <= value m /\
    outgoing st' = outgoing st
      ++ [NativeSent (feeWallet st) fee; NativeSent (vaultWallet st) (value m - fee)] /\
    fee + (value m - fee) = value m /\
    convertNativeToUSD x (value m) st = Ok usdValue /\
    events st' = events st
      ++ [DonationMade campaignId (sender m)
            (usdValue - usdValue * feeBasisPoints st / BASIS_POINTS_DIVISOR)].
Proof.
  unfold donate. intros H. unfold mbind, result_bind in H; cbv zeta in H.
  destruct (whenNotPaused st); [|done].
  destruct (require (negb _) _); [|done].
  change (0 =? 0) with true in H. cbv iota in H.
  destruct (require (0 <? value m) _); [|done].
  destruct (convertNativeToUSD x (value m) st) as [usdValue|] eqn:Eusd; [|done].
  contract_steps H.
  apply credit_effect in H as (_ & _ & _ & _ & _ & _ & Hout & Hev & _).
  eexists _, usdValue. split; [reflexivity|]. split; [done|].
  split; [by rewrite Hout; simpl; rewrite <- app_assoc|].
  split; [lia|]. split; [done|]. by rewrite Hev.
Qed.

(** [getCampaigns] answers with the campaigns from [max(1, offset)] to the
    smaller of [offset + limit - 1] and the number of campaigns, in order;
    when there is none in that span (a limit of 0, or an offset past the last
    campaign) it reverts instead of answering with an empty list. *)
Theorem getCampaigns_answers_a_page_or_reverts offset limit st :
  let first := N.max 1 offset in
  let last := N.min (first + limit - 1) (campaignCount st) in
  match getCampaigns offset limit st with
  | Ok page =>
      1 <= limit /\ first <= last /\
      page = (fun j => campaign_at st (first + N.of_nat j))
               <$> seq 0 (N.to_nat (last - first + 1))
  | Throw _ =>
      limit = 0 \/ campaignCount st < first \/ uint256_max < first + limit
      \/ uint256_max <= campaignCount st
  end.
Proof.
  intros first last. unfold getCampaigns.
  replace (if offset <? 1 then 1 else offset) with first
    by (subst first; destruct (N.ltb_spec offset 1); lia).
  destruct (checked_add first limit) as [upto|] eqn:E1; cbn [mbind result_bind].
  2: { apply checked_add_Throw in E1. tauto. }
  apply checked_add_Ok in E1 as [-> Hsum].
  destruct (checked_sub (first + limit) 1) as [end0|] eqn:E2; cbn [mbind result_bind].
  2: { apply checked_sub_Throw in E2. lia. }
  apply checked_sub_Ok in E2 as [-> _].
  replace (if campaignCount st <? first + limit - 1 then campaignCount st
           else first + limit - 1) with last
    by (subst last; destruct (N.ltb_spec (campaignCount st) (first + limit - 1)); lia).
  destruct (checked_sub last first) as [span|] eqn:E3; cbn [mbind result_bind].
  2: { apply checked_sub_Throw in E3. subst last.
       destruct (N.eq_dec limit 0); [by left|right; left; lia]. }
  apply checked_sub_Ok in E3 as [-> Hspan].
  destruct (checked_add (last - first) 1) as [count|] eqn:E4; cbn [mbind result_bind].
  2: { apply checked_add_Throw in E4. exfalso. subst last. lia. }
  apply checked_add_Ok in E4 as [-> _].
  destruct (checked_add last 1) as [next|] eqn:E5; cbn [mbind result_bind].
  2: { apply checked_add_Throw in E5. right; right; right. subst last. lia. }
  split; [subst last; lia|]. split; [done|]. done.
Qed.

(** A relayed donation names its peer.  After [setPeer] has registered the
    contract at [peerAddress] for an endpoint, a message [_lzReceive] accepts
    from that endpoint comes from that contract, is for an existing campaign
    that has not ended, and is logged as a donation whose donor is
    [peerAddress]. *)
Theorem relayed_donation_names_the_peer eid peerAddress m st st1 origin_sender payload st2 :
  setPeer eid peerAddress m st = Ok st1 ->
  peerAddress < 2 ^ 160 ->
  _lzReceive eid origin_sender payload st1 = Ok st2 ->
  origin_sender = addressToBytes32 peerAddress /\
  bytes32ToAddress (addressToBytes32 peerAddress) = peerAddress /\
  exists campaignId donationAmount,
    payload = Ok (campaignId, donationAmount) /\
    0 < campaignId <= campaignCount st /\
    ended (campaign_at st campaignId) = false /\
    events st2 = events st1 ++ [DonationMade campaignId peerAddress donationAmount].
Proof.
  intros Hset Haddr H. unfold setPeer in Hset. contract_steps Hset. injection Hset as <-.
  assert (Hround : bytes32ToAddress (addressToBytes32 peerAddress) = peerAddress).
  { unfold bytes32ToAddress, addressToBytes32. by apply N.mod_small. }
  assert (Hfrom : origin_sender = addressToBytes32 peerAddress).
  { unfold _lzReceive in H. unfold mbind, result_bind in H.
    destruct (require (origin_sender =? _) _) eqn:E1; [|done].
    apply require_Ok, N.eqb_eq in E1. simpl in E1.
    by rewrite balance_at_insert, decide_True in E1. }
  apply lzReceive_effect in H as (campaignId & donationAmount & -> & Hid & Hopen & H).
  apply credit_effect in H as (_ & _ & _ & _ & _ & _ & _ & Hev & _).
  split; [done|]. split; [done|].
  exists campaignId, donationAmount. split; [done|]. split; [exact Hid|].
  split; [exact Hopen|]. by rewrite Hev, Hfrom, Hround.
Qed.


Lemma created_ids_app l1 l2 : created_ids (l1 ++ l2) = created_ids l1 ++ created_ids l2.
Proof. apply omap_app. Qed.

Lemma next_ids_S count n : next_ids count (S n) = count + 1 :: next_ids (count + 1) n.
Proof.
  unfold next_ids. simpl. rewrite N.add_0_r. f_equal.
  rewrite <- fmap_S_seq, <- list_fmap_compose. apply list_fmap_ext.
  intros i k _. simpl. lia.
Qed.

Lemma next_ids_app count n k :
  next_ids count n ++ next_ids (count + N.of_nat n) k = next_ids count (n + k).
Proof.
  revert count. induction n as [|n IH]; intros count.
  - simpl. by rewrite N.add_0_r.
  - rewrite Nat.add_succ_l, !next_ids_S. simpl. f_equal.
    rewrite <- IH. do 2 f_equal. lia.
Qed.

Lemma creates_frame st st' new :
  campaignCount st' = campaignCount st ->
  events st' = events st ++ new ->
  created_ids new = [] ->
  creates st st'.
Proof. intros Hc He Hn. exists new, 0%nat. rewrite N.add_0_r. by split_and!. Qed.

Lemma exec_creates x c m st st' : exec x c m st = Ok st' -> creates st st'.
Proof.
  intros H. destruct c; simpl in H.
  all: lazymatch type of H with
       | donate _ _ _ _ _ _ = _ =>
           apply donate_effect in H as (_ & netUsd & st0 & H & _ & _ & _ & _ & Hc & _ & _ & He);
           apply credit_effect in H as (_ & _ & _ & Hc' & _ & _ & _ & He' & _);
           eapply creates_frame; [by rewrite Hc', Hc|by rewrite He', He|done]
       | _lzReceive _ _ _ _ = _ =>
           apply lzReceive_effect in H as (? & ? & _ & _ & _ & H);
           apply credit_effect in H as (_ & _ & _ & Hc' & _ & _ & _ & He' & _);
           eapply creates_frame; [exact Hc'|exact He'|done]
       | emergencyRescue _ _ _ _ _ = _ =>
           apply emergencyRescue_effect in H as [t ->];
           by apply (creates_frame _ _ []); [|by rewrite app_nil_r|]
       | createCampaign _ _ _ _ _ _ _ = _ =>
           unfold_call H; contract_steps H; injection H as <-;
           eexists _, 1%nat; simpl; split; [reflexivity|]; split; [done|];
           unfold next_ids; simpl; by rewrite N.add_0_r
       | _ =>
           unfold_call H; contract_steps H; injection H as <-;
           first [ by apply (creates_frame _ _ []); [|by rewrite app_nil_r|]
                 | by eapply creates_frame; [|reflexivity|] ]
       end.
Qed.

(** Campaign ids are handed out in order.  Over any calls that go through,
    the [CampaignCreated] events logged are exactly one for each new
    campaign, in order, with the ids that follow the campaign count at the
    start; no id is announced twice and none is skipped. *)
Theorem campaign_ids_are_consecutive calls st st' :
  run calls st = Ok st' ->
  exists new n,
    events st' = events st ++ new /\
    campaignCount st' = campaignCount st + N.of_nat n /\
    created_ids new = next_ids (campaignCount st) n.
Proof.
  revert st. induction calls as [|[[x c] m] calls IH]; intros st H; simpl in H.
  - injection H as <-. exists [], 0%nat. rewrite app_nil_r, N.add_0_r. by split_and!.
  - destruct (exec x c m st) as [st1|] eqn:E; [|done]. simpl in H.
    apply exec_creates in E as (new1 & n1 & He1 & Hc1 & Hn1).
    apply IH in H as (new2 & n2 & He2 & Hc2 & Hn2).
    exists (new1 ++ new2), (n1 + n2)%nat. split_and!.
    + by rewrite He2, He1, app_assoc.
    + rewrite Hc2, Hc1. lia.
    + rewrite created_ids_app, Hn1, Hn2, Hc1. apply next_ids_app.
Qed.


Lemma run_reachable calls st st' : reachable st -> run calls st = Ok st' -> reachable st'.
Proof.
  revert st. induction calls as [|[[x c] m] calls IH]; intros st Hr H; simpl in H.
  - by injection H as <-.
  - destruct (exec x c m st) as [st1|] eqn:E; [|done]. simpl in H.
    eapply IH; [|done]. by eapply reachable_call.
Qed.

Lemma sample_state_reachable n : sample_history n = Ok (sample_state n) -> reachable (sample_state n).
Proof.
  unfold sample_history.
  destruct (constructor 1 10 20 14 (mk_msg owner_account 0)) as [st0|] eqn:E; [|done].
  intros H. unfold mbind, result_bind in H. cbv beta iota in H.
  eapply run_reachable; [|exact H]. by eapply reachable_deployed.
Qed.

Lemma withdrawals_stay_within_ended_funds_example :
  let st := after sample_payout (sample_state 2) in
  balance_at (userWithdrawnBalance st) creator_account = 200000000 /\
  balance_at (creatorEndedBalance st) creator_account = 394400000 /\
  solvent st /\ feeBasisPoints st < BASIS_POINTS_DIVISOR.
Proof.
  intros st. split; [by vm_compute|]. split; [by vm_compute|].
  apply (withdrawals_stay_within_ended_funds st).
  apply (run_reachable sample_payout (sample_state 2)).
  - apply sample_state_reachable. vm_compute. reflexivity.
  - vm_compute. reflexivity.
Defined.

Lemma campaign_ended_event_is_final_example :
  let st := sample_state 2 in
  let st1 := after [(sample_externals, EndCampaign 1, mk_msg creator_account 0)] st in
  let calls := [sample_creation;
                (sample_externals, RequestWithdrawal (10 ^ 18) 600 137,
                 mk_msg creator_account 0)] in
  let st' := after calls st1 in
  (exec sample_externals (EndCampaign 1) (mk_msg creator_account 0) st = Ok st1 /\
   1 <= campaignCount st /\
   run calls st1 = Ok st') /\
  exists later,
    events st' = events st ++ [CampaignEnded 1 (totalStable (campaign_at st 1))] ++ later /\
    donated 1 later = 0 /\
    campaign_at st' 1 = campaign_at st1 1 /\
    ended (campaign_at st' 1) = true /\
    totalStable (campaign_at st' 1) = totalStable (campaign_at st 1).
Proof.
  intros st st1 calls st'.
  assert (H1 : exec sample_externals (EndCampaign 1) (mk_msg creator_account 0) st = Ok st1)
    by (vm_compute; reflexivity).
  assert (H2 : 1 <= campaignCount st) by (vm_compute; discriminate).
  assert (H3 : run calls st1 = Ok st') by (vm_compute; reflexivity).
  split; [split; [exact H1|split; [exact H2|exact H3]]|].
  exact (campaign_ended_event_is_final sample_externals 1 (mk_msg creator_account 0)
           st st1 calls st' H1 H2 H3).
Defined.

Lemma raised_total_follows_donation_events_example :
  let st := sample_state 0 in
  let calls := replicate 2 (sample_externals, Donate 1 0 0, mk_msg donor_account (10 ^ 18)) in
  let st' := after calls st in
  (run calls st = Ok st' /\ totalStable (campaign_at st' 1) = 394400000) /\
  exists new,
    events st' = events st ++ new /\
    forall campaignId,
      campaignId <= campaignCount st ->
      totalStable (campaign_at st' campaignId)
      = totalStable (campaign_at st campaignId) + donated campaignId new.
Proof.
  intros st calls st'.
  assert (H : run calls st = Ok st') by (vm_compute; reflexivity).
  split; [split; [exact H|by vm_compute]|].
  exact (raised_total_follows_donation_events calls st st' H).
Defined.

Lemma processed_withdrawal_is_final_example :
  let st := after sample_payout (sample_state 2) in
  let calls := [(sample_externals, RequestWithdrawal (10 ^ 17) 600 137,
                 mk_msg creator_account 0);
                (sample_externals, ProcessWithdrawalRequest 2, mk_msg owner_account 0)] in
  let st' := after calls st in
  (run calls st = Ok st' /\ 1 <= withdrawalRequestCount st /\
   processed (request_at st 1) = true) /\
  request_at st' 1 = request_at st 1 /\
  exists new, events st' = events st ++ new /\ processed_events 1 new = [].
Proof.
  intros st calls st'.
  assert (H : run calls st = Ok st') by (vm_compute; reflexivity).
  assert (H2 : 1 <= withdrawalRequestCount st) by (vm_compute; discriminate).
  assert (H3 : processed (request_at st 1) = true) by (vm_compute; reflexivity).
  split; [split; [exact H|split; [exact H2|exact H3]]|].
  exact (processed_withdrawal_is_final calls st st' 1 H H2 H3).
Defined.

Lemma native_donation_is_passed_on_in_full_example :
  let st := sample_state 0 in
  let m := mk_msg donor_account (10 ^ 18) in
  let st' := after [(sample_externals, Donate 1 0 0, m)] st in
  donate sample_externals 1 0 0 m st = Ok st' /\
  exists fee usdValue,
    fee = value m * feeBasisPoints st / BASIS_POINTS_DIVISOR /\
    fee <= value m /\
    outgoing st' = outgoing st
      ++ [NativeSent (feeWallet st) fee; NativeSent (vaultWallet st) (value m - fee)] /\
    fee + (value m - fee) = value m /\
    convertNativeToUSD sample_externals (value m) st = Ok usdValue /\
    events st' = events st
      ++ [DonationMade 1 (sender m)
            (usdValue - usdValue * feeBasisPoints st / BASIS_POINTS_DIVISOR)].
Proof.
  intros st m st'.
  assert (H : donate sample_externals 1 0 0 m st = Ok st') by (vm_compute; reflexivity).
  split; [exact H|].
  exact (native_donation_is_passed_on_in_full sample_externals 1 0 m st st' H).
Defined.

Lemma relayed_donation_names_the_peer_example :
  let st := sample_state 0 in
  let st1 := after [(sample_externals, SetPeer 30101 5000, mk_msg owner_account 0)] st in
  let st2 := after [(sample_externals, LzReceive 30101 5000 (Ok (1, 12345)),
                     mk_msg owner_account 0)] st1 in
  (setPeer 30101 5000 (mk_msg owner_account 0) st = Ok st1 /\
   5000 < 2 ^ 160 /\
   _lzReceive 30101 5000 (Ok (1, 12345)) st1 = Ok st2) /\
  5000 = addressToBytes32 5000 /\
  bytes32ToAddress (addressToBytes32 5000) = 5000 /\
  exists campaignId donationAmount,
    Ok (1, 12345) = Ok (campaignId, donationAmount) /\
    0 < campaignId <= campaignCount st /\
    ended (campaign_at st campaignId) = false /\
    events st2 = events st1 ++ [DonationMade campaignId 5000 donationAmount].
Proof.
  intros st st1 st2.
  assert (H1 : setPeer 30101 5000 (mk_msg owner_account 0) st = Ok st1)
    by (vm_compute; reflexivity).
  assert (H2 : 5000 < 2 ^ 160) by (vm_compute; reflexivity).
  assert (H3 : _lzReceive 30101 5000 (Ok (1, 12345)) st1 = Ok st2)
    by (vm_compute; reflexivity).
  split; [split; [exact H1|split; [exact H2|exact H3]]|].
  exact (relayed_donation_names_the_peer 30101 5000 (mk_msg owner_account 0) st st1 5000
           (Ok (1, 12345)) st2 H1 H2 H3).
Defined.

Lemma campaign_ids_are_consecutive_example :
  let st := sample_state 1 in
  let calls := [sample_creation;
                (sample_externals, Donate 2 0 0, mk_msg donor_account (10 ^ 18));
                sample_creation] in
  let st' := after calls st in
  run calls st = Ok st' /\
  exists new n,
    events st' = events st ++ new /\
    campaignCount st' = campaignCount st + N.of_nat n /\
    created_ids new = next_ids (campaignCount st) n.
Proof.
  intros st calls st'.
  assert (H : run calls st = Ok st') by (vm_compute; reflexivity).
  split; [exact H|].
  exact (campaign_ids_are_consecutive calls st st' H).
Defined.

Example getCampaigns_samples :
  length <$> getCampaigns 0 10 (after [sample_creation] (sample_state 1)) = Ok 2%nat /\
  length <$> getCampaigns 2 1 (after [sample_creation] (sample_state 1)) = Ok 1%nat /\
  getCampaigns 1 0 (sample_state 1) = Throw "Panic(0x11)" /\
  getCampaigns 2 5 (sample_state 1) = Throw "Panic(0x11)".
Proof. by vm_compute. Qed.

